(** * snapd: mountinfo entry parser and dm-verity root-hash extraction

    A shallow embedding of

    - [cmd/libsnap-confine-private/mountinfo.c]: [parse_next_string_field],
      [sc_parse_mountinfo_entry], [sc_parse_mountinfo], [sc_free_mountinfo],
      [sc_free_mountinfo_entry], [sc_cleanup_mountinfo],
      [sc_first_mountinfo_entry], [sc_next_mountinfo_entry];
    - [snap/integrity/dmverity/veritysetup.go]: [getRootHashFromOutput],
      [Format];

    followed by the properties of these functions.

    Modelling conventions for the C part.  Characters are [ascii]; a C string
    is the run of characters before the first NUL.  Memory consists of two
    blocks, the caller's line and the [line_buf] array at the end of the
    entry allocated by [calloc]; every access is bounds checked and an access
    outside a block is the outcome [Fault].  Offsets ([int offset]) are
    natural numbers: lines are assumed shorter than [INT_MAX].  The library
    function [sscanf] is modelled for the two format strings the file uses,
    after ISO C 7.21.6.2, with glibc's conversion of out-of-range numerals
    on an LP64 platform. *)

From Stdlib Require Import String Ascii List ZArith Lia Bool Arith.
From stdpp Require Import base option list gmap.
Import ListNotations.

(** ** Characters and C strings *)

Definition NUL : ascii := "000"%char.

Definition str (s : string) : list ascii := list_ascii_of_string s.

(** [isspace] in the C locale: space, \t, \n, \v, \f, \r. *)
Definition isspace (c : ascii) : bool :=
  let n := N_of_ascii c in
  (n =? 32)%N || ((9 <=? n)%N && (n <=? 13)%N).

Definition isdigit (c : ascii) : bool :=
  let n := N_of_ascii c in
  (48 <=? n)%N && (n <=? 57)%N.

Definition is_space_char (c : ascii) : bool := Ascii.eqb c " ".

Definition is_nul (c : ascii) : bool := Ascii.eqb c NUL.

Fixpoint list_ascii_eqb (a b : list ascii) : bool :=
  match a, b with
  | [], [] => true
  | x :: a', y :: b' => Ascii.eqb x y && list_ascii_eqb a' b'
  | _, _ => false
  end.

(** The characters of the C string stored at the start of [bytes]; [None]
    when there is no terminator before the end of the block. *)
Fixpoint cstring (bytes : list ascii) : option (list ascii) :=
  match bytes with
  | [] => None
  | c :: rest =>
      if is_nul c then Some []
      else match cstring rest with
           | Some s => Some (c :: s)
           | None => None
           end
  end.

(** The longest prefix of [s] whose characters satisfy [p], and the rest. *)
Fixpoint span (p : ascii -> bool) (s : list ascii) : list ascii * list ascii :=
  match s with
  | [] => ([], [])
  | c :: rest =>
      if p c then let '(a, b) := span p rest in (c :: a, b)
      else ([], s)
  end.

Definition skip_space (s : list ascii) : list ascii := snd (span isspace s).

Definition nonspace (c : ascii) : bool := negb (isspace c).

(** ** The conversions of [sscanf] *)

Definition EOF : Z := (-1)%Z.

Definition digit_value (c : ascii) : Z := Z.of_N (N_of_ascii c) - 48.

Definition digits_value (ds : list ascii) : Z :=
  fold_left (fun acc c => acc * 10 + digit_value c)%Z ds 0%Z.

Definition LONG_MAX : Z := (2 ^ 63 - 1)%Z.
Definition LONG_MIN : Z := (- 2 ^ 63)%Z.
Definition ULONG_MAX : Z := (2 ^ 64 - 1)%Z.

(** [strtol] and [strtoul] in base 10 on a sign and a run of digits. *)
Definition strtol (neg : bool) (ds : list ascii) : Z :=
  let v := digits_value ds in
  if neg then Z.max (- v) LONG_MIN else Z.min v LONG_MAX.

Definition strtoul (neg : bool) (ds : list ascii) : Z :=
  let v := digits_value ds in
  if (ULONG_MAX <? v)%Z then ULONG_MAX
  else if neg then ((- v) mod 2 ^ 64)%Z else v.

(** The casts [(int) num.l] and [(unsigned int) num.ul]. *)
Definition to_int (z : Z) : Z := ((z + 2 ^ 31) mod 2 ^ 32 - 2 ^ 31)%Z.
Definition to_uint (z : Z) : Z := (z mod 2 ^ 32)%Z.

(** The subject sequence of [%d] and [%u]: white space is skipped, then an
    optional sign and a non-empty run of decimal digits are read. *)
Inductive number_scan : Type :=
| NumEOF                       (* input ended before any character matched *)
| NumMismatch                  (* matching failure *)
| NumOk (neg : bool) (ds : list ascii) (rest : list ascii).

Definition scan_digits (neg : bool) (s : list ascii) : number_scan :=
  match span isdigit s with
  | ([], _) => match s with [] => NumEOF | _ => NumMismatch end
  | (ds, rest) => NumOk neg ds rest
  end.

(** The digits after a sign: when the input ends right after the sign, a
    character has been read and the failure is a matching failure. *)
Definition scan_signed (neg : bool) (s : list ascii) : number_scan :=
  match scan_digits neg s with
  | NumEOF => NumMismatch
  | r => r
  end.

Definition scan_number (s : list ascii) : number_scan :=
  match skip_space s with
  | [] => NumEOF
  | c :: r =>
      if Ascii.eqb c "-" then scan_signed true r
      else if Ascii.eqb c "+" then scan_signed false r
      else scan_digits false (c :: r)
  end.

(** What [sscanf (s, "%d %d %u:%u %n", ...)] returns and assigns. *)
Record header : Type := Header {
  h_nscanned : Z;
  h_mount_id : Z;
  h_parent_id : Z;
  h_dev_major : Z;
  h_dev_minor : Z;
  h_offset_delta : nat;
}.

Definition sscanf_d_d_u_u_n (s : list ascii) : header :=
  match scan_number s with
  | NumEOF => Header EOF 0 0 0 0 0
  | NumMismatch => Header 0 0 0 0 0 0
  | NumOk n1 d1 s1 =>
      let a := to_int (strtol n1 d1) in
      match scan_number s1 with
      | NumEOF | NumMismatch => Header 1 a 0 0 0 0
      | NumOk n2 d2 s2 =>
          let b := to_int (strtol n2 d2) in
          match scan_number s2 with
          | NumEOF | NumMismatch => Header 2 a b 0 0 0
          | NumOk n3 d3 s3 =>
              let c := to_uint (strtoul n3 d3) in
              match s3 with
              | ch :: s4 =>
                  if Ascii.eqb ch ":" then
                    match scan_number s4 with
                    | NumEOF | NumMismatch => Header 3 a b c 0 0
                    | NumOk n4 d4 s5 =>
                        let d := to_uint (strtoul n4 d4) in
                        Header 4 a b c d (length s - length (skip_space s5))
                    end
                  else Header 3 a b c 0 0
              | [] => Header 3 a b c 0 0
              end
          end
      end
  end.

(** What [sscanf (s, "%s%n", field, &offset_delta)] returns, the characters
    it stores at [field] (a terminator follows them) and [offset_delta]. *)
Definition sscanf_s_n (s : list ascii) : Z * list ascii * nat :=
  match span nonspace (skip_space s) with
  | ([], _) => (EOF, [], 0)
  | (tok, rest) => (1%Z, tok, length s - length rest)
  end.

(** ** Memory *)

Inductive block : Type :=
| LineBlk        (* the string [line] points to *)
| EntryBlk.      (* [entry->line_buf] of the entry under construction *)

Definition ptr : Type := (block * nat)%type.

Record memory : Type := Mem {
  line_mem : list ascii;
  entry_mem : list ascii;
}.

Definition blk (m : memory) (b : block) : list ascii :=
  match b with LineBlk => line_mem m | EntryBlk => entry_mem m end.

Definition set_blk (m : memory) (b : block) (bytes : list ascii) : memory :=
  match b with
  | LineBlk => Mem bytes (entry_mem m)
  | EntryBlk => Mem (line_mem m) bytes
  end.

Definition ptr_add (p : ptr) (n : nat) : ptr := (fst p, snd p + n).

Inductive outcome (A : Type) : Type :=
| Done (a : A) (m : memory)
| Fault                       (* access outside a block *)
| NoFuel.
Arguments Done {A} a m.
Arguments Fault {A}.
Arguments NoFuel {A}.

Definition M (A : Type) : Type := memory -> outcome A.

Definition ret {A : Type} (a : A) : M A := fun m => Done a m.

Definition bind {A B : Type} (c : M A) (k : A -> M B) : M B :=
  fun m =>
    match c m with
    | Done a m' => k a m'
    | Fault => Fault
    | NoFuel => NoFuel
    end.

Notation "'do' x <- c ; k" := (bind c (fun x => k))
  (at level 10, x name, c at level 100, k at level 200).
Notation "'do' ' p <- c ; k" := (bind c (fun x => let 'p := x in k))
  (at level 10, p pattern, c at level 100, k at level 200).

Definition load (p : ptr) : M ascii :=
  fun m =>
    match blk m (fst p) !! snd p with
    | Some c => Done c m
    | None => Fault
    end.

Definition store (p : ptr) (c : ascii) : M unit :=
  fun m =>
    if decide (snd p < length (blk m (fst p)))
    then Done tt (set_blk m (fst p) (<[snd p := c]> (blk m (fst p))))
    else Fault.

Fixpoint store_bytes (p : ptr) (cs : list ascii) : M unit :=
  match cs with
  | [] => ret tt
  | c :: rest => do _ <- store p c; store_bytes (ptr_add p 1) rest
  end.

(** Reading the C string at [p], as [strlen], [strcmp] and [sscanf] do. *)
Definition load_cstring (p : ptr) : M (list ascii) :=
  fun m =>
    match cstring (drop (snd p) (blk m (fst p))) with
    | Some s => Done s m
    | None => Fault
    end.

Definition strlen (p : ptr) : M nat :=
  do s <- load_cstring p; ret (length s).

(** [calloc (1, sizeof *entry + n)]: the entry's [line_buf] has [n] zero
    bytes.  [free (entry)] releases it. *)
Definition calloc_entry (n : nat) : M unit :=
  fun m => Done tt (Mem (line_mem m) (replicate n NUL)).

Definition free_entry : M unit :=
  fun m => Done tt (Mem (line_mem m) []).

(** ** mountinfo.c *)

Record sc_mountinfo_entry : Type := Entry {
  mount_id : Z;
  parent_id : Z;
  dev_major : Z;
  dev_minor : Z;
  root : option ptr;
  mount_dir : option ptr;
  mount_opts : option ptr;
  optional_fields : option ptr;
  fs_type : option ptr;
  mount_source : option ptr;
  super_opts : option ptr;
  line_buf : list ascii;
}.

(** [&entry->line_buf[0]] *)
Definition line_buf_ptr : ptr := (EntryBlk, 0).

(** The call [sscanf (src, "%s%n", field, &offset_delta)] on memory. *)
Definition sscanf_string (src field : ptr) : M (Z * nat) :=
  do s <- load_cstring src;
  let '(nscanned, tok, offset_delta) := sscanf_s_n s in
  if (nscanned =? 1)%Z then
    do _ <- store_bytes field (tok ++ [NUL]);
    ret (nscanned, offset_delta)
  else ret (nscanned, offset_delta).

(** [parse_next_string_field (entry, line, &offset)]: the returned pointer
    ([None] for [NULL]) and the new value of [offset]. *)
Definition parse_next_string_field (line : ptr) (offset : nat)
  : M (option ptr * nat) :=
  let field := ptr_add line_buf_ptr offset in
  do c <- load (ptr_add line offset);
  if is_space_char c then
    do _ <- store field NUL;
    ret (Some field, offset + 1)
  else
    do '(nscanned, offset_delta) <- sscanf_string (ptr_add line offset) field;
    if negb (nscanned =? 1)%Z then ret (None, offset)
    else
      let offset := offset + offset_delta in
      do c <- load (ptr_add line offset);
      ret (Some field, if is_space_char c then offset + 1 else offset).

(** [opt_field[-1] = ' '] *)
Definition store_before (p : ptr) (c : ascii) : M unit :=
  match snd p with
  | 0 => fun _ => Fault
  | S k => store (fst p, k) c
  end.

(** The loop over the optional fields; the result is the value of [offset]
    after the separator, or [None] for [goto fail]. *)
Fixpoint optional_fields_loop (fuel : nat) (line : ptr) (field_num : nat)
    (offset : nat) : M (option nat) :=
  match fuel with
  | 0 => fun _ => NoFuel
  | S fuel' =>
      do '(opt_field, offset) <- parse_next_string_field line offset;
      match opt_field with
      | None => ret None
      | Some opt_field =>
          do s <- load_cstring opt_field;
          if list_ascii_eqb s (str "-") then
            do _ <- store opt_field NUL;
            ret (Some offset)
          else
            do _ <- (if 0 <? field_num then store_before opt_field " "%char
                     else ret tt);
            optional_fields_loop fuel' line (S field_num) offset
      end
  end.

(** The [fail:] label. *)
Definition fail {A : Type} : M (option A) :=
  do _ <- free_entry; ret None.

Definition snapshot : M (list ascii) := fun m => Done (entry_mem m) m.

Definition is_null (p : option ptr) : bool :=
  match p with None => true | Some _ => false end.

(** The statements of [sc_parse_mountinfo_entry] from the first [sscanf]
    up to the assignment of [entry->mount_opts]: the numbers, the three
    pointers and the value of [offset], or [None] for [goto fail]. *)
Definition parse_leading_fields (line : ptr)
  : M (option (header * option ptr * option ptr * option ptr * nat)) :=
  do s <- load_cstring line;
  let h := sscanf_d_d_u_u_n s in
  if negb (h_nscanned h =? 4)%Z then ret None
  else
    let offset := 0 + h_offset_delta h in
    do '(root, offset) <- parse_next_string_field line offset;
    if is_null root then ret None else
    do '(mount_dir, offset) <- parse_next_string_field line offset;
    if is_null mount_dir then ret None else
    do '(mount_opts, offset) <- parse_next_string_field line offset;
    if is_null mount_opts then ret None else
    ret (Some (h, root, mount_dir, mount_opts, offset)).

Definition sc_parse_mountinfo_entry (calloc_fails : bool) (line : ptr)
  : M (option sc_mountinfo_entry) :=
  do n <- strlen line;
  if calloc_fails then ret None
  else
    do _ <- calloc_entry (n + 1);
    do lead <- parse_leading_fields line;
    match lead with
    | None => fail
    | Some (h, root, mount_dir, mount_opts, offset) =>
        let optional_fields := Some (ptr_add line_buf_ptr offset) in
        do r <- optional_fields_loop (S n) line 0 offset;
        match r with
        | None => fail
        | Some offset =>
            do '(fs_type, offset) <- parse_next_string_field line offset;
            if is_null fs_type then fail else
            do '(mount_source, offset) <- parse_next_string_field line offset;
            if is_null mount_source then fail else
            do '(super_opts, offset) <- parse_next_string_field line offset;
            if is_null super_opts then fail else
            do buf <- snapshot;
            ret (Some (Entry (h_mount_id h) (h_parent_id h)
                             (h_dev_major h) (h_dev_minor h)
                             root mount_dir mount_opts optional_fields
                             fs_type mount_source super_opts buf))
        end
    end.

(** The memory in which [line] points to the characters [s]. *)
Definition line_memory (s : list ascii) : memory := Mem (s ++ [NUL]) [].

Definition line_ptr : ptr := (LineBlk, 0).

Definition parse_line (s : list ascii) : outcome (option sc_mountinfo_entry) :=
  sc_parse_mountinfo_entry false line_ptr (line_memory s).

(** The eleven fields of an entry as a caller reads them: the numbers and
    the C strings the seven pointers refer to ([None] for a [NULL] pointer
    or a string without terminator). *)
Definition field_string (e : sc_mountinfo_entry) (p : option ptr)
  : option (list ascii) :=
  match p with
  | Some (EntryBlk, off) => cstring (drop off (line_buf e))
  | _ => None
  end.

Record entry_fields : Type := Fields {
  f_mount_id : Z;
  f_parent_id : Z;
  f_dev_major : Z;
  f_dev_minor : Z;
  f_root : option (list ascii);
  f_mount_dir : option (list ascii);
  f_mount_opts : option (list ascii);
  f_optional_fields : option (list ascii);
  f_fs_type : option (list ascii);
  f_mount_source : option (list ascii);
  f_super_opts : option (list ascii);
}.

Definition fields_of (e : sc_mountinfo_entry) : entry_fields :=
  Fields (mount_id e) (parent_id e) (dev_major e) (dev_minor e)
         (field_string e (root e)) (field_string e (mount_dir e))
         (field_string e (mount_opts e)) (field_string e (optional_fields e))
         (field_string e (fs_type e)) (field_string e (mount_source e))
         (field_string e (super_opts e)).

(** [sc_free_mountinfo]: the entries handed to [sc_free_mountinfo_entry],
    in the order of the walk along [next]. *)
Fixpoint sc_free_mountinfo (entries : list sc_mountinfo_entry)
  : list sc_mountinfo_entry :=
  match entries with
  | [] => []
  | entry :: next => entry :: sc_free_mountinfo next
  end.

(** What [fopen] and the successive calls of [getline] deliver. *)
Record line_source : Type := Source {
  src_lines : list (list ascii);
  src_read_error : bool;       (* the last [getline] fails with [errno] set *)
}.

Inductive table_result : Type :=
| Table (entries : list sc_mountinfo_entry)
| TableNull (freed : list sc_mountinfo_entry)
| TableStuck.

(** The [for (;;)] loop of [sc_parse_mountinfo]; [k] counts the calls of
    [calloc] and [entries] is the list from [info->first] to [last]. *)
Fixpoint read_entries (calloc_fails : nat -> bool) (k : nat)
    (lines : list (list ascii)) (read_error : bool)
    (entries : list sc_mountinfo_entry) : table_result :=
  match lines with
  | [] =>
      if read_error then TableNull (sc_free_mountinfo entries)
      else Table entries
  | line :: rest =>
      match sc_parse_mountinfo_entry (calloc_fails k) line_ptr
              (line_memory line) with
      | Done None _ => TableNull (sc_free_mountinfo entries)
      | Done (Some entry) _ =>
          read_entries calloc_fails (S k) rest read_error (entries ++ [entry])
      | _ => TableStuck
      end
  end.

Definition default_fname : list ascii := str "/proc/self/mountinfo".

Definition sc_parse_mountinfo (calloc_fails : nat -> bool)
    (fopen : list ascii -> option line_source) (fname : option (list ascii))
  : table_result :=
  if calloc_fails 0 then TableNull []
  else
    let fname := match fname with Some f => f | None => default_fname end in
    match fopen fname with
    | None => TableNull []
    | Some f => read_entries calloc_fails 1 (src_lines f) (src_read_error f) []
    end.

(** ** The table in the heap

    [sc_parse_mountinfo] returns a pointer to a [struct sc_mountinfo] whose
    field [first] starts the list of the entries, linked by their fields
    [next].  The heap maps every address that [calloc] returned and [free]
    has not released to the object stored there; an access through any
    other address is a fault ([None]).  The functions of this section are
    those of the file again, now with the pointers between the objects. *)

Module Heap.

Definition addr : Type := nat.

Inductive object : Type :=
| InfoObj (first : option addr)                 (* struct sc_mountinfo *)
| EntryObj (entry : sc_mountinfo_entry) (next : option addr).

Abbreviation heap := (gmap addr object).

Definition H (A : Type) : Type := heap -> option (A * heap).

Definition ret {A : Type} (a : A) : H A := fun h => Some (a, h).

Definition bind {A B : Type} (c : H A) (k : A -> H B) : H B :=
  fun h =>
    match c h with
    | Some (a, h') => k a h'
    | None => None
    end.

Definition fault {A : Type} : H A := fun _ => None.

Declare Scope heap_scope.
Delimit Scope heap_scope with heap.
Notation "'do' x <- c ; k" := (bind c (fun x => k))
  (at level 10, x name, c at level 100, k at level 200) : heap_scope.
Local Open Scope heap_scope.

(** [calloc (1, size)]: [NULL], or an address not in use that now holds
    the zeroed object. *)
Definition calloc (fails : bool) (zeroed : object) : H (option addr) :=
  fun h =>
    if fails then Some (None, h)
    else let p := fresh (dom h) in Some (Some p, <[p := zeroed]> h).

Definition free (p : addr) : H unit :=
  fun h =>
    match h !! p with
    | Some _ => Some (tt, delete p h)
    | None => None
    end.

(** [info->first] and [entry->next], read and written. *)
Definition load_first (info : addr) : H (option addr) :=
  fun h =>
    match h !! info with
    | Some (InfoObj first) => Some (first, h)
    | _ => None
    end.

Definition load_next (entry : addr) : H (option addr) :=
  fun h =>
    match h !! entry with
    | Some (EntryObj _ next) => Some (next, h)
    | _ => None
    end.

Definition store_first (info : addr) (p : option addr) : H unit :=
  fun h =>
    match h !! info with
    | Some (InfoObj _) => Some (tt, <[info := InfoObj p]> h)
    | _ => None
    end.

Definition store_next (entry : addr) (p : option addr) : H unit :=
  fun h =>
    match h !! entry with
    | Some (EntryObj e _) => Some (tt, <[entry := EntryObj e p]> h)
    | _ => None
    end.

Definition sc_first_mountinfo_entry (info : addr) : H (option addr) :=
  load_first info.

Definition sc_next_mountinfo_entry (entry : addr) : H (option addr) :=
  load_next entry.

Definition sc_free_mountinfo_entry (entry : addr) : H unit := free entry.

(** The loop of [sc_free_mountinfo]; the fuel bounds its rounds. *)
Fixpoint free_entries (fuel : nat) (entry : option addr) : H unit :=
  match entry with
  | None => ret tt
  | Some entry =>
      match fuel with
      | 0 => fault
      | S fuel' =>
          do next <- load_next entry;
          do _ <- sc_free_mountinfo_entry entry;
          free_entries fuel' next
      end
  end.

(** A list without cycle has no more entries than the heap has objects. *)
Definition sc_free_mountinfo (info : addr) : H unit :=
  fun h =>
    (do first <- load_first info;
     do _ <- free_entries (size h) first;
     free info) h.

(** [sc_cleanup_mountinfo (ptr)]: the argument is the value of [*ptr], the
    result its value afterwards. *)
Definition sc_cleanup_mountinfo (ptr : option addr) : H (option addr) :=
  match ptr with
  | Some info => do _ <- sc_free_mountinfo info; ret None
  | None => ret ptr
  end.

(** [sc_parse_mountinfo_entry (line)] as the heap sees it: a returned entry
    is a new object, and its field [next] is [NULL] as [calloc] left it;
    after [fail:] nothing is left. *)
Definition parse_entry (calloc_fails : bool) (line : list ascii)
  : H (option addr) :=
  match sc_parse_mountinfo_entry calloc_fails line_ptr (line_memory line) with
  | Done (Some entry) _ => calloc false (EntryObj entry None)
  | Done None _ => ret None
  | _ => fault
  end.

(** The [for (;;)] loop of [sc_parse_mountinfo]; [k] counts the calls of
    [calloc]. *)
Fixpoint read_entries (calloc_fails : nat -> bool) (k : nat)
    (lines : list (list ascii)) (read_error : bool)
    (info : addr) (last : option addr) : H (option addr) :=
  match lines with
  | [] =>
      if read_error then do _ <- sc_free_mountinfo info; ret None
      else ret (Some info)
  | line :: rest =>
      do entry <- parse_entry (calloc_fails k) line;
      match entry with
      | None => do _ <- sc_free_mountinfo info; ret None
      | Some entry =>
          do _ <- match last with
                  | Some last => store_next last (Some entry)
                  | None => store_first info (Some entry)
                  end;
          read_entries calloc_fails (S k) rest read_error info (Some entry)
      end
  end.

Definition sc_parse_mountinfo (calloc_fails : nat -> bool)
    (fopen : list ascii -> option line_source) (fname : option (list ascii))
  : H (option addr) :=
  do info <- calloc (calloc_fails 0) (InfoObj None);
  match info with
  | None => ret None
  | Some info =>
      let fname := match fname with Some f => f | None => default_fname end in
      match fopen fname with
      | None => do _ <- free info; ret None
      | Some f =>
          read_entries calloc_fails 1 (src_lines f) (src_read_error f)
            info None
      end
  end.

(** The entries a caller visits with
    [for (e = sc_first_mountinfo_entry (info); e != NULL;
          e = sc_next_mountinfo_entry (e))]. *)
Fixpoint visit (fuel : nat) (entry : option addr)
  : H (list sc_mountinfo_entry) :=
  match entry with
  | None => ret []
  | Some a =>
      match fuel with
      | 0 => fault
      | S fuel' =>
          fun h =>
            match h !! a with
            | Some (EntryObj e _) =>
                (do next <- sc_next_mountinfo_entry a;
                 do es <- visit fuel' next;
                 ret (e :: es)) h
            | _ => None
            end
      end
  end.

Definition visited (info : addr) : H (list sc_mountinfo_entry) :=
  fun h => (do first <- sc_first_mountinfo_entry info; visit (size h) first) h.

(** The part of the list from [p] up to [q]: the addresses and the entries
    of its cells. *)
Fixpoint lseg (h : heap) (p : option addr)
    (cells : list (addr * sc_mountinfo_entry)) (q : option addr) : Prop :=
  match cells with
  | [] => p = q
  | (a, e) :: cells' =>
      p = Some a /\ exists next, h !! a = Some (EntryObj e next)
                                 /\ lseg h next cells' q
  end.

(** The heap [h] holds the objects of [h0] and, at addresses that [h0]
    does not use, the table [info] and the list of its [cells]. *)
Definition table (h0 : heap) (info : addr)
    (cells : list (addr * sc_mountinfo_entry)) (h : heap) : Prop :=
  NoDup (info :: cells.*1)
  /\ (forall a, a ∈ info :: cells.*1 -> h0 !! a = None)
  /\ (forall a, a ∉ info :: cells.*1 -> h !! a = h0 !! a)
  /\ h !! info = Some (InfoObj (head cells.*1))
  /\ lseg h (head cells.*1) cells None.

End Heap.

(** ** veritysetup.go *)

(** Go strings and byte slices are lists of bytes; a byte is an [ascii]. *)
Definition byte_val (c : ascii) : Z := Z.of_N (N_of_ascii c).

Definition RuneError : Z := 65533%Z.
Definition RuneSelf : Z := 128%Z.

(** [utf8.first] and [utf8.acceptRanges]: for a leading byte, the length of
    the sequence and the range of its second byte. *)
Definition utf8_first (b : Z) : option (nat * Z * Z) :=
  (if (194 <=? b) && (b <=? 223) then Some (2%nat, 128, 191)
   else if b =? 224 then Some (3%nat, 160, 191)
   else if (225 <=? b) && (b <=? 236) then Some (3%nat, 128, 191)
   else if b =? 237 then Some (3%nat, 128, 159)
   else if (238 <=? b) && (b <=? 239) then Some (3%nat, 128, 191)
   else if b =? 240 then Some (4%nat, 144, 191)
   else if (241 <=? b) && (b <=? 243) then Some (4%nat, 128, 191)
   else if b =? 244 then Some (4%nat, 128, 143)
   else None)%Z.

Definition utf8_cont (b : Z) : bool := ((128 <=? b) && (b <=? 191))%Z.

(** [utf8.DecodeRuneInString]: the rune and its width in bytes. *)
Definition DecodeRuneInString (s : list ascii) : Z * nat :=
  match s with
  | [] => (RuneError, 0)
  | c0 :: r0 =>
      let s0 := byte_val c0 in
      if (s0 <? RuneSelf)%Z then (s0, 1)
      else
        match utf8_first s0 with
        | None => (RuneError, 1)
        | Some (sz, lo, hi) =>
            if length s <? sz then (RuneError, 1)
            else
              match r0 with
              | [] => (RuneError, 1)
              | c1 :: r1 =>
                  let s1 := byte_val c1 in
                  if ((s1 <? lo) || (hi <? s1))%Z then (RuneError, 1)
                  else if sz <=? 2 then
                    (Z.lor (Z.shiftl (Z.land s0 31) 6) (Z.land s1 63), 2)
                  else
                    match r1 with
                    | [] => (RuneError, 1)
                    | c2 :: r2 =>
                        let s2 := byte_val c2 in
                        if negb (utf8_cont s2) then (RuneError, 1)
                        else if sz <=? 3 then
                          (Z.lor (Z.shiftl (Z.land s0 15) 12)
                             (Z.lor (Z.shiftl (Z.land s1 63) 6)
                                (Z.land s2 63)), 3)
                        else
                          match r2 with
                          | [] => (RuneError, 1)
                          | c3 :: _ =>
                              let s3 := byte_val c3 in
                              if negb (utf8_cont s3) then (RuneError, 1)
                              else
                                (Z.lor (Z.shiftl (Z.land s0 7) 18)
                                   (Z.lor (Z.shiftl (Z.land s1 63) 12)
                                      (Z.lor (Z.shiftl (Z.land s2 63) 6)
                                         (Z.land s3 63))), 4)
                          end
                    end
              end
        end
  end.

(** [utf8.RuneStart] *)
Definition RuneStart (c : ascii) : bool := negb (utf8_cont (byte_val c)).

(** The search of [utf8.DecodeLastRuneInString] for the byte the last rune
    starts at: [rs] is the string reversed without its last byte, [k] the
    distance already walked and [n] the bytes it may still inspect. *)
Fixpoint last_rune_start (rs : list ascii) (k n : nat) : option nat :=
  match n, rs with
  | S n', c :: rs' =>
      if RuneStart c then Some k else last_rune_start rs' (S k) n'
  | _, _ => None
  end.

(** [utf8.DecodeLastRuneInString] *)
Definition DecodeLastRuneInString (s : list ascii) : Z * nat :=
  match rev s with
  | [] => (RuneError, 0)
  | c :: rs =>
      if (byte_val c <? RuneSelf)%Z then (byte_val c, 1)
      else
        match last_rune_start rs 1 3 with
        | None => (RuneError, 1)
        | Some k =>
            let '(r, size) :=
              DecodeRuneInString (drop (length s - S k) s) in
            if size =? S k then (r, size) else (RuneError, 1)
        end
  end.

(** [unicode.IsSpace] *)
Definition IsSpace (r : Z) : bool :=
  (if r <=? 255 then
     (r =? 9) || (r =? 10) || (r =? 11) || (r =? 12) || (r =? 13)
     || (r =? 32) || (r =? 133) || (r =? 160)
   else
     (r =? 5760) || ((8192 <=? r) && (r <=? 8202)) || (r =? 8232)
     || (r =? 8233) || (r =? 8239) || (r =? 8287) || (r =? 12288))%Z.

(** [strings.TrimLeftFunc (s, unicode.IsSpace)] *)
Fixpoint TrimLeftSpace (fuel : nat) (s : list ascii) : list ascii :=
  match fuel with
  | 0 => s
  | S fuel' =>
      match s with
      | [] => []
      | _ =>
          let '(r, size) := DecodeRuneInString s in
          if IsSpace r then TrimLeftSpace fuel' (drop size s) else s
      end
  end.

(** [strings.lastIndexFunc (s[:i], unicode.IsSpace, false)], [None] for -1 *)
Fixpoint lastIndexNotSpace (fuel : nat) (s : list ascii) (i : nat)
  : option nat :=
  match fuel with
  | 0 => None
  | S fuel' =>
      if i =? 0 then None
      else
        let '(r, size) := DecodeLastRuneInString (take i s) in
        let i := i - size in
        if negb (IsSpace r) then Some i
        else lastIndexNotSpace fuel' s i
  end.

(** [strings.TrimRightFunc (s, unicode.IsSpace)] *)
Definition TrimRightSpace (s : list ascii) : list ascii :=
  match lastIndexNotSpace (length s) s (length s) with
  | Some i =>
      match s !! i with
      | Some c =>
          if (RuneSelf <=? byte_val c)%Z
          then take (i + snd (DecodeRuneInString (drop i s))) s
          else take (i + 1) s
      | None => take (i + 1) s
      end
  | None => []
  end.

Definition asciiSpace (c : ascii) : bool :=
  let n := byte_val c in
  ((n =? 9) || (n =? 10) || (n =? 11) || (n =? 12) || (n =? 13)
   || (n =? 32))%Z.

(** The two loops of [strings.TrimSpace] over ASCII bytes: the flag tells
    that a byte at or above [RuneSelf] stopped the loop. *)
Fixpoint trim_ascii (s : list ascii) : bool * list ascii :=
  match s with
  | [] => (false, [])
  | c :: rest =>
      if (RuneSelf <=? byte_val c)%Z then (true, s)
      else if asciiSpace c then trim_ascii rest
      else (false, s)
  end.

(** [strings.TrimSpace] *)
Definition TrimSpace (s : list ascii) : list ascii :=
  match trim_ascii s with
  | (true, s1) => TrimRightSpace (TrimLeftSpace (length s1) s1)
  | (false, s1) =>
      match trim_ascii (rev s1) with
      | (true, r2) => TrimRightSpace (rev r2)
      | (false, r2) => rev r2
      end
  end.

(** [strings.HasPrefix] *)
Fixpoint HasPrefix (s prefix : list ascii) : bool :=
  match prefix, s with
  | [], _ => true
  | p :: prefix', c :: s' => Ascii.eqb c p && HasPrefix s' prefix'
  | _ :: _, [] => false
  end.

(** [strings.SplitN (s, sep, 2)] for a separator of one byte. *)
Fixpoint cut_at (sep : ascii) (s : list ascii)
  : option (list ascii * list ascii) :=
  match s with
  | [] => None
  | c :: rest =>
      if Ascii.eqb c sep then Some ([], rest)
      else match cut_at sep rest with
           | Some (a, b) => Some (c :: a, b)
           | None => None
           end
  end.

Definition SplitN_2 (s : list ascii) (sep : ascii) : list (list ascii) :=
  match cut_at sep s with
  | Some (a, b) => [a; b]
  | None => [s]
  end.

(** [bufio.Scanner] with the split function [bufio.ScanLines] and the
    default buffer.  [raw_lines] cuts the input after every newline; a last
    line without newline counts when it is not empty. *)
Definition newline : ascii := "010"%char.
Definition carriage_return : ascii := "013"%char.

Fixpoint raw_lines (data : list ascii) : list (list ascii) :=
  match data with
  | [] => []
  | c :: rest =>
      if Ascii.eqb c newline then [] :: raw_lines rest
      else match raw_lines rest with
           | [] => [[c]]
           | l :: ls => (c :: l) :: ls
           end
  end.

(** [bufio.dropCR]: the data without its last byte when that is \r. *)
Fixpoint dropCR (data : list ascii) : list ascii :=
  match data with
  | [] => []
  | [c] => if Ascii.eqb c carriage_return then [] else [c]
  | c :: rest => c :: dropCR rest
  end.

Definition MaxScanTokenSize : N := 65536%N.

Inductive go_error : Type :=
| ErrTooLong                       (* bufio.ErrTooLong *)
| ErrEmptyRootHash                 (* fmt.Errorf ("empty root hash") *)
| OutputErr (output : list ascii) (exit_status : nat).

(** The tokens the successive calls of [scanner.Scan] deliver and the value
    of [scanner.Err] after the call that returned false.  A line is
    delivered when it and its newline fit in a buffer of
    [MaxScanTokenSize] bytes. *)
Fixpoint scan_tokens (lines : list (list ascii))
  : list (list ascii) * option go_error :=
  match lines with
  | [] => ([], None)
  | l :: rest =>
      if (N.of_nat (length l) <? MaxScanTokenSize)%N then
        let '(tokens, err) := scan_tokens rest in (dropCR l :: tokens, err)
      else ([], Some ErrTooLong)
  end.

Inductive go_result (A : Type) : Type :=
| Returned (a : A)
| Panic.
Arguments Returned {A} a.
Arguments Panic {A}.

Record Info : Type := MkInfo { RootHash : list ascii }.

Definition Root_hash : list ascii := str "Root hash".

(** The [for scanner.Scan ()] loop: the value of [rootHash] when the
    scanner stops, or the panic of the index expression. *)
Fixpoint scan_loop (tokens : list (list ascii)) (rootHash : list ascii)
  : go_result (list ascii) :=
  match tokens with
  | [] => Returned rootHash
  | line :: rest =>
      if HasPrefix line Root_hash then
        match SplitN_2 line ":" !! 1 with
        | Some val => scan_loop rest (TrimSpace val)
        | None => Panic
        end
      else scan_loop rest rootHash
  end.

Definition getRootHashFromOutput (output : list ascii)
  : go_result (list ascii * option go_error) :=
  let '(tokens, err) := scan_tokens (raw_lines output) in
  match scan_loop tokens [] with
  | Panic => Panic
  | Returned rootHash =>
      match err with
      | Some e => Returned ([], Some e)
      | None =>
          if length rootHash =? 0 then Returned ([], Some ErrEmptyRootHash)
          else Returned (rootHash, None)
      end
  end.

(** [Format]: [run] stands for [cmd.CombinedOutput ()] of the command
    [veritysetup format dataDevice hashDevice], its output and, when it
    failed, its exit status. *)
Definition Format (run : list ascii -> list ascii -> list ascii * option nat)
    (dataDevice hashDevice : list ascii)
  : go_result (option Info * option go_error) :=
  let '(output, err) := run dataDevice hashDevice in
  match err with
  | Some e => Returned (None, Some (OutputErr output e))
  | None =>
      match getRootHashFromOutput output with
      | Panic => Panic
      | Returned (rootHash, Some e) => Returned (None, Some e)
      | Returned (rootHash, None) => Returned (Some (MkInfo rootHash), None)
      end
  end.

(** *** What the loop reads

    The lines the scanner delivers, those that begin with [Root hash], and
    the value of such a line: the text after its first colon, trimmed. *)

Definition scanned_lines (output : list ascii) : list (list ascii) :=
  fst (scan_tokens (raw_lines output)).

Definition scan_error (output : list ascii) : option go_error :=
  snd (scan_tokens (raw_lines output)).

Definition begins_with_Root_hash (line : list ascii) : bool :=
  HasPrefix line Root_hash.

Definition has_colon (line : list ascii) : bool :=
  existsb (Ascii.eqb ":") line.

Definition colon_value (line : list ascii) : list ascii :=
  match cut_at ":" line with
  | Some (_, val) => TrimSpace val
  | None => []
  end.

(** Every line that begins with [Root hash] has a colon. *)
Definition root_hash_lines_have_colon (lines : list (list ascii)) : bool :=
  forallb (fun l => implb (begins_with_Root_hash l) (has_colon l)) lines.

(** The value of the last line that begins with [Root hash]; empty when
    there is no such line. *)
Definition last_root_hash_value (lines : list (list ascii)) : list ascii :=
  match last (filter (fun l => begins_with_Root_hash l = true) lines) with
  | Some l => colon_value l
  | None => []
  end.

(** The value of the first line that begins with [Root hash], as the
    specification words the extraction: the lines of the text are its
    newline-terminated pieces without their carriage return. *)
Definition first_root_hash_value (output : list ascii)
  : option (list ascii) :=
  match filter (fun l => begins_with_Root_hash l = true)
          (map dropCR (raw_lines output)) with
  | l :: _ => Some (colon_value l)
  | [] => None
  end.

Definition failed {A : Type} (err : option A) : bool :=
  match err with Some _ => true | None => false end.

(** Outputs of the format command for the examples. *)
Definition output_two_hashes : list ascii :=
  str "Root hash: aaa" ++ newline :: str "Root hash: bbb" ++ [newline].

Definition output_long_line : list ascii :=
  str "Root hash: abc" ++ newline :: replicate (N.to_nat 65536) "x"%char.

Definition output_no_colon : list ascii := str "Root hash".

Definition output_veritysetup : list ascii :=
  str "VERITY header information for hash.img" ++ newline ::
  str "UUID:            	f8b4f201-fe4e-41a2-9f1d-4908d3c76632" ++ newline ::
  str "Hash type:       	1" ++ newline ::
  str "Root hash:      	e2926364a8b1242d92fb1b56081e1ddb86eba35411961252a103a1c083c2be6d"
  ++ [newline].

(** ** A functional description of the entry parser

    The state of the parser between two fields, as the proofs follow it:
    the written part [pre] of [line_buf] (its length is the value of
    [offset]) and the unread part [rest] of the line.  The bytes of
    [line_buf] from [offset] on are still zero. *)

Definition zeros (n : nat) : list ascii := replicate n NUL.

(** One call of [parse_next_string_field] on the unread part: the token
    written at [offset], the number of zero bytes between its end and the
    new [offset], and the new unread part. *)
Definition scan_field (rest : list ascii)
  : option (list ascii * nat * list ascii) :=
  match rest with
  | [] => None
  | c :: rest' =>
      if is_space_char c then Some ([], 1, rest')
      else
        let '(ws, r1) := span isspace rest in
        let '(tok, r2) := span nonspace r1 in
        match tok with
        | [] => None
        | _ =>
            match r2 with
            | c2 :: r3 =>
                if is_space_char c2 then Some (tok, S (length ws), r3)
                else Some (tok, length ws, r2)
            | [] => Some (tok, length ws, [])
            end
        end
  end.

Definition dash : list ascii := str "-".

Fixpoint optional_fields_pure (fuel field_num : nat) (pre rest : list ascii)
  : option (list ascii * list ascii) :=
  match fuel with
  | 0 => None
  | S fuel' =>
      match scan_field rest with
      | None => None
      | Some (tok, k, rest') =>
          if list_ascii_eqb tok dash then Some (pre ++ NUL :: zeros k, rest')
          else
            optional_fields_pure fuel' (S field_num)
              ((if 0 <? field_num then <[length pre - 1 := " "%char]> pre
                else pre) ++ tok ++ zeros k)
              rest'
      end
  end.

(** Three calls in a row: the three offsets the fields are written at, the
    written prefix and the unread part after the third. *)
Definition three_fields (pre rest : list ascii)
  : option (nat * nat * nat * list ascii * list ascii) :=
  match scan_field rest with
  | None => None
  | Some (t1, k1, r1) =>
      let pre1 := pre ++ t1 ++ zeros k1 in
      match scan_field r1 with
      | None => None
      | Some (t2, k2, r2) =>
          let pre2 := pre1 ++ t2 ++ zeros k2 in
          match scan_field r2 with
          | None => None
          | Some (t3, k3, r3) =>
              Some (length pre, length pre1, length pre2,
                    pre2 ++ t3 ++ zeros k3, r3)
          end
      end
  end.

(** The header and the three leading fields: the numbers, the three
    offsets, the written prefix and the unread part. *)
Definition leading_pure (L : list ascii)
  : option (header * nat * nat * nat * list ascii * list ascii) :=
  let h := sscanf_d_d_u_u_n L in
  if negb (h_nscanned h =? 4)%Z then None
  else
    match three_fields (zeros (h_offset_delta h))
            (drop (h_offset_delta h) L) with
    | None => None
    | Some (o1, o2, o3, pre3, r3) => Some (h, o1, o2, o3, pre3, r3)
    end.

Definition at_buf (off : nat) : option ptr := Some (EntryBlk, off).

Definition entry_pure (L : list ascii) : option sc_mountinfo_entry :=
  match leading_pure L with
  | None => None
  | Some (h, o1, o2, o3, pre3, r3) =>
      match optional_fields_pure (S (length L)) 0 pre3 r3 with
      | None => None
      | Some (pre4, r4) =>
          match three_fields pre4 r4 with
          | None => None
          | Some (o5, o6, o7, pre7, r7) =>
              Some (Entry (h_mount_id h) (h_parent_id h)
                      (h_dev_major h) (h_dev_minor h)
                      (at_buf o1) (at_buf o2) (at_buf o3)
                      (at_buf (length pre3))
                      (at_buf o5) (at_buf o6) (at_buf o7)
                      (pre7 ++ zeros (S (length r7))))
          end
      end
  end.

(** The C string [line] points to when the block holds [s] and a
    terminator: the characters of [s] before its first NUL. *)
Fixpoint c_string (s : list ascii) : list ascii :=
  match s with
  | [] => []
  | c :: rest => if is_nul c then [] else c :: c_string rest
  end.

(** The white-space delimited tokens of a string. *)
Fixpoint tokens_from (cur s : list ascii) : list (list ascii) :=
  match s with
  | [] => match cur with [] => [] | _ => [cur] end
  | c :: rest =>
      if isspace c then
        match cur with
        | [] => tokens_from [] rest
        | _ => cur :: tokens_from [] rest
        end
      else tokens_from (cur ++ [c]) rest
  end.

Definition tokens (s : list ascii) : list (list ascii) := tokens_from [] s.

Definition example_line : list ascii :=
  str "36 35 98:0 /mnt1 /mnt2 rw,noatime master:1 - ext3 /dev/root rw,errors=continue".

Definition example_line_shared : list ascii :=
  str "36 35 98:0 /mnt1 /mnt2 rw,noatime master:1 shared:2 - ext3 /dev/root rw,errors=continue".

(** A line without separator. *)
Definition line_without_separator : list ascii :=
  str "36 35 98:0 /mnt1 /mnt2 rw,noatime master:1 ext3 /dev/root rw,errors=continue".

(** A line with two spaces between the device numbers and the root. *)
Definition line_two_spaces_before_root : list ascii :=
  str "304 301 0:45  /snap/core rw,relatime x - tmpfs none rw".

(** ** Lines that follow the grammar

    [ID PARENT_ID MAJOR:MINOR ROOT MOUNT_DIR OPTS [OPT_FIELD...] - FS_TYPE
    SOURCE SUPER_OPTS], the fields separated by single spaces. *)

(** A field: no white space and no NUL in it. *)
Definition word (t : list ascii) : bool :=
  forallb (fun c => negb (isspace c) && negb (is_nul c)) t.

Definition nonempty (t : list ascii) : bool :=
  match t with [] => false | _ => true end.

(** A number: a non-empty run of decimal digits. *)
Definition is_digits (d : list ascii) : bool := nonempty d && forallb isdigit d.

(** An optional field: a non-empty field other than the separator. *)
Definition optional_word (t : list ascii) : bool :=
  word t && nonempty t && negb (list_ascii_eqb t dash).

Definition header_text (d1 d2 d3 d4 : list ascii) : list ascii :=
  d1 ++ " "%char :: d2 ++ " "%char :: d3 ++ ":"%char :: d4 ++ [" "%char].

Definition fields_text (root mount_dir mount_opts : list ascii)
    (optional : list (list ascii)) (fs_type mount_source super_opts : list ascii)
  : list ascii :=
  root ++ " "%char :: mount_dir ++ " "%char :: mount_opts ++ " "%char ::
  concat (map (fun t => t ++ [" "%char]) optional) ++
  "-"%char :: " "%char :: fs_type ++ " "%char :: mount_source ++ " "%char ::
  super_opts.

(** The strings joined by single spaces. *)
Definition join_space (ts : list (list ascii)) : list ascii :=
  match ts with
  | [] => []
  | t :: ts' => t ++ concat (map (fun u => " "%char :: u) ts')
  end.

(** What may follow the last field: nothing, or white space and anything. *)
Definition line_end (tail : list ascii) : bool :=
  match tail with
  | [] => true
  | c :: _ => isspace c && forallb (fun c => negb (is_nul c)) tail
  end.

(** Printing the numbers of an entry in decimal, as [printf] does for
    [int] and [unsigned]: ten digits are enough for 32 bits. *)
Definition digit_char (z : Z) : ascii := ascii_of_N (Z.to_N (48 + z)).

Fixpoint decimal_digits (fuel : nat) (z : Z) : list ascii :=
  match fuel with
  | 0 => []
  | S fuel' =>
      if (z <? 10)%Z then [digit_char z]
      else decimal_digits fuel' (z / 10) ++ [digit_char (z mod 10)]
  end.

Definition print_uint (z : Z) : list ascii := decimal_digits 10 z.

Definition print_int (z : Z) : list ascii :=
  if (z <? 0)%Z then "-"%char :: print_uint (- z) else print_uint z.

(** The text the round trip builds from the fields of an entry: the four
    numbers, then root, mount_dir, mount_opts, the optional fields when
    they are not empty, the separator, fs_type, mount_source and
    super_opts, joined by single spaces. *)
Definition rejoin (f : entry_fields) : list ascii :=
  let s (o : option (list ascii)) := default [] o in
  print_int (f_mount_id f) ++ " "%char :: print_int (f_parent_id f)
  ++ " "%char :: print_uint (f_dev_major f) ++ ":"%char ::
  print_uint (f_dev_minor f) ++ " "%char ::
  join_space ([s (f_root f); s (f_mount_dir f); s (f_mount_opts f)]
              ++ (match s (f_optional_fields f) with
                  | [] => []
                  | o => [o]
                  end)
              ++ [dash; s (f_fs_type f); s (f_mount_source f);
                  s (f_super_opts f)]).

(** A number written without sign and without leading zeros. *)
Definition canonical (d : list ascii) : bool :=
  is_digits d
  && match d with
     | c :: _ :: _ => negb (Ascii.eqb c "0")
     | _ => true
     end.

(** The end of a line as [getline] delivers it: nothing or one newline. *)
Definition optional_newline (tail : list ascii) : bool :=
  match tail with
  | [] => true
  | [c] => Ascii.eqb c newline
  | _ => false
  end.

(** A line on which parsing succeeds although text follows super_opts. *)
Definition line_with_more_text : list ascii :=
  str "1 1 0:1 / / rw - tmpfs none rw 0 0".




(** The memory when [parse_leading_fields] starts: [calloc] has just
    returned the entry for the line [s]. *)
Definition fresh_entry_memory (s : list ascii) : memory :=
  Mem (s ++ [NUL]) (replicate (length (c_string s) + 1) NUL).

(** The value of [offset] when the loop over the optional fields starts,
    when the three leading string fields could be read. *)
Definition optional_fields_offset (s : list ascii) : option nat :=
  match parse_leading_fields line_ptr (fresh_entry_memory s) with
  | Done (Some (_, _, _, _, offset)) _ => Some offset
  | _ => None
  end.

(** The line has a white-space delimited token [-] after the three
    leading string fields. *)
Definition has_separator (s : list ascii) : bool :=
  match optional_fields_offset s with
  | Some offset =>
      existsb (list_ascii_eqb dash) (tokens (drop offset (c_string s)))
  | None => false
  end.

(** The entry [sc_parse_mountinfo_entry] returns for a line. *)
Definition entry_of (calloc_fails : bool) (s : list ascii)
  : option sc_mountinfo_entry :=
  match sc_parse_mountinfo_entry calloc_fails line_ptr (line_memory s) with
  | Done r _ => r
  | _ => None
  end.

(** The entries of the lines up to the first one that yields no entry;
    [k] numbers the calls of [calloc]. *)
Fixpoint parsed_prefix (calloc_fails : nat -> bool) (k : nat)
    (lines : list (list ascii)) : list sc_mountinfo_entry :=
  match lines with
  | [] => []
  | line :: rest =>
      match entry_of (calloc_fails k) line with
      | Some e => e :: parsed_prefix calloc_fails (S k) rest
      | None => []
      end
  end.

(** No call of [calloc] fails. *)
Definition no_calloc_failure (k : nat) : bool := false.

(** A file of two lines under the default name. *)
Definition fopen_two_lines (fname : list ascii) : option line_source :=
  if list_ascii_eqb fname default_fname
  then Some (Source [example_line; example_line_shared] false)
  else None.

(** A file whose second line is empty. *)
Definition fopen_blank_line (fname : list ascii) : option line_source :=
  Some (Source [example_line; [newline]; example_line_shared] false).

Definition tab : ascii := "009"%char.

(** A line in which a tab separates the root from the mount point. *)
Definition line_with_tab : list ascii :=
  str "36 35 98:0 /mnt1" ++ tab :: str "/mnt2 rw,noatime - ext3 /dev/root rw".

(** A byte of [line_buf] against the byte of the line at the same offset:
    the same, or NUL. *)
Definition same_or_nul (b c : ascii) : Prop := b = NUL \/ b = c.

(** ** The lines of the output of veritysetup *)

(** The root hash as a function of the lines the scanner reads. *)
Definition root_hash_of_lines (lines : list (list ascii))
  : go_result (list ascii * option go_error) :=
  let '(tokens, err) := scan_tokens lines in
  match scan_loop tokens [] with
  | Panic => Panic
  | Returned rootHash =>
      match err with
      | Some e => Returned ([], Some e)
      | None =>
          if length rootHash =? 0 then Returned ([], Some ErrEmptyRootHash)
          else Returned (rootHash, None)
      end
  end.

(** The text is empty or ends with a newline. *)
Definition ends_line (s : list ascii) : bool :=
  match last s with
  | None => true
  | Some c => Ascii.eqb c newline
  end.

(** No newline in the text. *)
Definition one_line (l : list ascii) : bool :=
  forallb (fun c => negb (Ascii.eqb c newline)) l.

(** A line of text as a program prints it before the line terminator: no
    newline in it, no carriage return at its end, and short enough to fit
    the buffer of the scanner together with a terminator of two bytes. *)
Definition text_line (l : list ascii) : bool :=
  one_line l
  && match last l with
     | Some c => negb (Ascii.eqb c carriage_return)
     | None => true
     end
  && (N.of_nat (length l) + 1 <? MaxScanTokenSize)%N.

(** ** The states of the parser

    The notions in which the run of [sc_parse_mountinfo_entry] on memory is
    related to its functional description. *)

(** A character of a C string. *)
Definition nonnul (c : ascii) : Prop := is_nul c = false.

(** What [sc_parse_mountinfo_entry] returns on the line [s]. *)
Definition parse_result (calloc_fails : bool) (s : list ascii)
  : option sc_mountinfo_entry :=
  if calloc_fails then None else entry_pure (c_string s).

(** The memory of a parser state: the line block holds the C string [L],
    [line_buf] the written prefix followed by zero bytes. *)
Definition mem_at (L junk pre rest : list ascii) : memory :=
  Mem (L ++ NUL :: junk) (pre ++ zeros (S (length rest))).

(** [offset] is the length of the written prefix [pre] and lies inside the
    line [L]; [rest] is the text of the line from [offset] on. *)
Definition in_line (L pre rest : list ascii) : Prop :=
  rest = drop (length pre) L /\ length pre <= length L.

(** The result of [parse_leading_fields], from that of [leading_pure]. *)
Definition leading_result
    (r : header * nat * nat * nat * list ascii * list ascii)
  : header * option ptr * option ptr * option ptr * nat :=
  let '(h, o1, o2, o3, pre3, r3) := r in
  (h, at_buf o1, at_buf o2, at_buf o3, length pre3).

(** The first offset of the written prefix that the loop over the optional
    fields leaves as it is: from the second round on,
    [opt_field[-1] = ' '] writes one byte before the field. *)
Definition first_kept (field_num n : nat) : nat :=
  n - (if 0 <? field_num then 1 else 0).

(** A numeric conversion that assigns nothing. *)
Definition number_failed (r : number_scan) : Prop :=
  r = NumEOF \/ r = NumMismatch.

(** The entry with another content of [line_buf]. *)
Definition with_line_buf (e : sc_mountinfo_entry) (buf : list ascii)
  : sc_mountinfo_entry :=
  Entry (mount_id e) (parent_id e) (dev_major e) (dev_minor e)
    (root e) (mount_dir e) (mount_opts e) (optional_fields e)
    (fs_type e) (mount_source e) (super_opts e) buf.

(** The buffer holds the string [t] and its terminator at offset [o]. *)
Definition field_at (buf : list ascii) (o : nat) (t : list ascii) : Prop :=
  exists A rest, buf = A ++ t ++ NUL :: rest /\ length A = o.

(** Lists written with [++] and [::] nested to the right. *)
Ltac list_norm :=
  repeat (rewrite <- app_assoc || rewrite <- app_comm_cons
          || rewrite app_nil_l).

(** * Properties of the model *)

(** ** Scanning *)

Lemma span_app p s : fst (span p s) ++ snd (span p s) = s.
Proof.
  induction s as [|c s IH]; simpl; [done|].
  destruct (p c); [|done].
  destruct (span p s) as [a b]; simpl in *. by rewrite IH.
Qed.

Lemma span_eq p s a b : span p s = (a, b) -> s = a ++ b.
Proof. intros H. pose proof (span_app p s) as E. by rewrite H in E. Qed.

Lemma span_fst_Forall p s : Forall (fun c => p c = true) (fst (span p s)).
Proof.
  induction s as [|c s IH]; simpl; [constructor|].
  destruct (p c) eqn:E; [|constructor].
  destruct (span p s) as [a b]; simpl in *. by constructor.
Qed.

Lemma span_snd_head p s c r : snd (span p s) = c :: r -> p c = false.
Proof.
  induction s as [|d s IH]; simpl; [done|].
  destruct (p d) eqn:E.
  - destruct (span p s) as [a b]; simpl in *. exact IH.
  - simpl. intros [= -> _]. exact E.
Qed.

Lemma span_all p a b :
  Forall (fun c => p c = true) a ->
  match b with [] => True | c :: _ => p c = false end ->
  span p (a ++ b) = (a, b).
Proof.
  intros Ha Hb. induction Ha as [|c a Hc Ha IH]; simpl.
  - destruct b as [|c b]; [done|]. simpl. by rewrite Hb.
  - by rewrite Hc, IH.
Qed.

Lemma is_space_char_eq c : is_space_char c = true <-> c = " "%char.
Proof. apply Ascii.eqb_eq. Qed.

Lemma is_space_char_isspace c : is_space_char c = true -> isspace c = true.
Proof. intros H. apply is_space_char_eq in H. by subst. Qed.

Lemma list_ascii_eqb_eq a b : list_ascii_eqb a b = true <-> a = b.
Proof.
  revert b. induction a as [|x a IH]; intros [|y b]; simpl; try done.
  rewrite andb_true_iff, Ascii.eqb_eq, IH. split.
  - by intros [-> ->].
  - by intros [= -> ->].
Qed.

(** ** C strings *)

Lemma cstring_terminated s junk :
  Forall nonnul s -> cstring (s ++ NUL :: junk) = Some s.
Proof.
  induction 1 as [|c s Hc Hs IH]; simpl; [done|].
  unfold nonnul in Hc. by rewrite Hc, IH.
Qed.

Lemma c_string_nonnul s : Forall nonnul (c_string s).
Proof.
  induction s as [|c s IH]; simpl; [constructor|].
  destruct (is_nul c) eqn:E; by constructor.
Qed.

Lemma c_string_split s : exists junk, s ++ [NUL] = c_string s ++ NUL :: junk.
Proof.
  induction s as [|c s [junk IH]]; simpl.
  - by exists [].
  - destruct (is_nul c) eqn:E.
    + apply Ascii.eqb_eq in E. subst c. by exists (s ++ [NUL]).
    + exists junk. by rewrite IH.
Qed.

Lemma c_string_id s : Forall nonnul s -> c_string s = s.
Proof.
  induction 1 as [|c s Hc Hs IH]; simpl; [done|].
  unfold nonnul in Hc. by rewrite Hc, IH.
Qed.

Lemma zeros_app a b : zeros a ++ zeros b = zeros (a + b).
Proof. unfold zeros. by rewrite replicate_add. Qed.

Lemma zeros_S n : zeros (S n) = NUL :: zeros n.
Proof. done. Qed.

Lemma length_zeros n : length (zeros n) = n.
Proof. apply length_replicate. Qed.

Lemma cstring_zeros_tail s n junk :
  Forall nonnul s -> cstring (s ++ zeros (S n) ++ junk) = Some s.
Proof. intros H. rewrite zeros_S. simpl. by apply cstring_terminated. Qed.

(** ** Fields, loads and stores *)

Lemma store_bytes_middle l pre old post cs :
  length old = length cs ->
  store_bytes (EntryBlk, length pre) cs (Mem l (pre ++ old ++ post))
  = Done tt (Mem l (pre ++ cs ++ post)).
Proof.
  revert pre old. induction cs as [|c cs IH]; intros pre old Hlen.
  - destruct old; [done|simpl in Hlen; lia].
  - destruct old as [|x old]; [simpl in Hlen; lia|].
    simpl in Hlen. simpl. unfold bind, store. simpl.
    rewrite decide_True by (rewrite length_app; simpl; lia).
    unfold set_blk. simpl.
    replace (<[length pre:=c]> (pre ++ x :: old ++ post))
      with ((pre ++ [c]) ++ old ++ post).
    2:{ rewrite <- (Nat.add_0_r (length pre)) at 1.
        rewrite insert_app_r. simpl. by rewrite <- app_assoc. }
    unfold ptr_add. simpl.
    replace (length pre + 1) with (length (pre ++ [c]))
      by (rewrite length_app; simpl; lia).
    rewrite IH by lia. by rewrite <- app_assoc.
Qed.

Lemma is_space_char_NUL : is_space_char NUL = false.
Proof. done. Qed.

Lemma scan_field_split rest tok k rest' :
  scan_field rest = Some (tok, k, rest') ->
  exists skipped, rest = skipped ++ rest' /\ length skipped = length tok + k.
Proof.
  unfold scan_field. destruct rest as [|c rest0]; [done|].
  destruct (is_space_char c) eqn:Ec.
  - intros [= <- <- <-]. exists [c]. done.
  - destruct (span isspace (c :: rest0)) as [ws r1] eqn:E1.
    destruct (span nonspace r1) as [tok0 r2] eqn:E2.
    apply span_eq in E1. apply span_eq in E2. rewrite E1, E2.
    destruct tok0 as [|t tok0]; [done|].
    destruct r2 as [|c2 r3].
    + intros [= <- <- <-]. exists (ws ++ t :: tok0).
      rewrite <- app_assoc, length_app. split; [done|lia].
    + destruct (is_space_char c2); intros [= <- <- <-].
      * exists (ws ++ (t :: tok0) ++ [c2]).
        rewrite <- !app_assoc, !length_app. simpl. split; [done|lia].
      * exists (ws ++ t :: tok0).
        rewrite <- app_assoc, length_app. split; [done|lia].
Qed.

Lemma scan_field_progress rest tok k rest' :
  scan_field rest = Some (tok, k, rest') -> 0 < length tok + k.
Proof.
  unfold scan_field. destruct rest as [|c rest0]; [done|].
  destruct (is_space_char c) eqn:Ec.
  - intros [= <- <- <-]. simpl. lia.
  - destruct (span isspace (c :: rest0)) as [ws r1] eqn:E1.
    destruct (span nonspace r1) as [tok0 r2] eqn:E2.
    destruct tok0 as [|t tok0]; [done|].
    destruct r2 as [|c2 r3]; [|destruct (is_space_char c2)];
      intros [= <- <- <-]; simpl; lia.
Qed.

Lemma scan_field_length rest tok k rest' :
  scan_field rest = Some (tok, k, rest') ->
  length rest = length tok + k + length rest'.
Proof.
  intros H. destruct (scan_field_split _ _ _ _ H) as (sk & -> & Hl).
  rewrite length_app. lia.
Qed.

Lemma scan_field_nonnul rest tok k rest' :
  scan_field rest = Some (tok, k, rest') ->
  Forall nonnul rest -> Forall nonnul tok.
Proof.
  unfold scan_field. destruct rest as [|c rest0]; [done|].
  destruct (is_space_char c) eqn:Ec.
  - intros [= <- <- <-] _. constructor.
  - destruct (span isspace (c :: rest0)) as [ws r1] eqn:E1.
    destruct (span nonspace r1) as [tok0 r2] eqn:E2.
    apply span_eq in E1. apply span_eq in E2. rewrite E1, E2.
    intros H Hn. apply Forall_app in Hn as [_ Hn].
    apply Forall_app in Hn as [Hn _].
    destruct tok0 as [|t tok0]; [done|].
    destruct r2 as [|c2 r3]; [|destruct (is_space_char c2)];
      injection H as <- <- <-; done.
Qed.

Lemma offset_delta_le s : h_offset_delta (sscanf_d_d_u_u_n s) <= length s.
Proof.
  unfold sscanf_d_d_u_u_n.
  repeat match goal with
         | |- context [match ?x with _ => _ end] => destruct x
         end; cbn [h_offset_delta]; lia.
Qed.

Lemma run_bind {A B : Type} (c : M A) (k : A -> M B) m a m' :
  c m = Done a m' -> bind c k m = k a m'.
Proof. unfold bind. by intros ->. Qed.

Lemma fail_run {A : Type} m :
  @fail A m = Done None (Mem (line_mem m) []).
Proof. done. Qed.

Lemma store_buf_at l pre x post c :
  store (EntryBlk, length pre) c (Mem l (pre ++ x :: post))
  = Done tt (Mem l (pre ++ c :: post)).
Proof.
  unfold store. cbn [fst snd blk entry_mem].
  rewrite decide_True by (rewrite length_app; simpl; lia).
  unfold set_blk. cbn [fst snd blk entry_mem line_mem]. do 2 f_equal.
  rewrite <- (Nat.add_0_r (length pre)) at 1.
  by rewrite insert_app_r.
Qed.

Lemma ptr_add_buf n : ptr_add line_buf_ptr n = (EntryBlk, n).
Proof. done. Qed.

Lemma load_cstring_buf l pre tok n :
  Forall nonnul tok ->
  load_cstring (EntryBlk, length pre) (Mem l (pre ++ tok ++ zeros (S n)))
  = Done tok (Mem l (pre ++ tok ++ zeros (S n))).
Proof.
  intros Hn. unfold load_cstring. cbn [fst snd blk entry_mem].
  rewrite drop_app_length.
  rewrite <- (app_nil_r (zeros (S n))).
  by rewrite cstring_zeros_tail.
Qed.

Lemma store_before_buf l pre x post c :
  store_before (EntryBlk, length (pre ++ [x])) c (Mem l ((pre ++ [x]) ++ post))
  = Done tt (Mem l ((pre ++ [c]) ++ post)).
Proof.
  unfold store_before. cbn [fst snd].
  rewrite length_app. cbn [length].
  replace (length pre + 1) with (S (length pre)) by lia.
  rewrite <- !app_assoc. cbn [app]. apply store_buf_at.
Qed.

Lemma insert_last (pre : list ascii) x c :
  <[length (pre ++ [x]) - 1 := c]> (pre ++ [x]) = pre ++ [c].
Proof.
  rewrite length_app. simpl.
  replace (length pre + 1 - 1) with (length pre + 0) by lia.
  by rewrite insert_app_r.
Qed.

(** ** The parser on the memory of one line

    Throughout, the line block holds the C string [L], its terminator and
    the bytes [junk] that follow it in the caller's buffer. *)

Section ParserState.

Context (L junk : list ascii) (L_nonnul : Forall nonnul L).

Lemma in_line_advance pre rest tok k rest' :
  in_line L pre rest ->
  (exists skipped, rest = skipped ++ rest' /\ length skipped = length tok + k) ->
  in_line L (pre ++ tok ++ zeros k) rest'.
Proof.
  intros [-> Hle] (skipped & Hs & Hlen).
  assert (length (drop (length pre) L) = length skipped + length rest')
    as Hl by (rewrite Hs, length_app; done).
  rewrite length_drop in Hl.
  split.
  - rewrite !length_app, length_zeros.
    replace (length pre + (length tok + k))
      with (length pre + length skipped) by lia.
    rewrite <- drop_drop, Hs. rewrite drop_app_length. done.
  - rewrite !length_app, length_zeros. lia.
Qed.

Lemma in_line_scan pre rest tok k rest' :
  in_line L pre rest -> scan_field rest = Some (tok, k, rest') ->
  in_line L (pre ++ tok ++ zeros k) rest'.
Proof.
  intros HL H. eapply in_line_advance; [done|]. by eapply scan_field_split.
Qed.

Lemma in_line_length pre pre' rest :
  in_line L pre rest -> length pre' = length pre -> in_line L pre' rest.
Proof. unfold in_line. by intros H ->. Qed.

Lemma in_line_rest_le pre rest : in_line L pre rest -> length rest <= length L.
Proof. intros [-> _]. rewrite length_drop. lia. Qed.

Lemma in_line_start d : d <= length L -> in_line L (zeros d) (drop d L).
Proof. intros H. unfold in_line. rewrite length_zeros. by split. Qed.

Lemma in_line_nonnul pre rest : in_line L pre rest -> Forall nonnul rest.
Proof. intros [-> _]. by apply Forall_drop. Qed.

Lemma line_lookup pre rest :
  in_line L pre rest ->
  (L ++ NUL :: junk) !! length pre = Some (hd NUL (rest ++ [NUL])).
Proof.
  intros [-> Hle].
  destruct (decide (length pre < length L)) as [Hlt|Hge].
  - rewrite lookup_app_l by done.
    destruct (lookup_lt_is_Some_2 L (length pre) Hlt) as [c Hc].
    rewrite Hc. by rewrite (drop_S _ _ _ Hc).
  - rewrite lookup_app_r by lia.
    replace (length pre - length L) with 0 by lia.
    rewrite drop_ge by lia. done.
Qed.

Lemma line_cstring pre rest :
  in_line L pre rest ->
  cstring (drop (length pre) (L ++ NUL :: junk)) = Some rest.
Proof.
  intros [-> Hle].
  rewrite drop_app_le by done.
  apply cstring_terminated. by apply Forall_drop.
Qed.

Lemma load_line_at buf pre rest :
  in_line L pre rest ->
  load (ptr_add line_ptr (length pre)) (Mem (L ++ NUL :: junk) buf)
  = Done (hd NUL (rest ++ [NUL])) (Mem (L ++ NUL :: junk) buf).
Proof.
  intros HL. unfold load, ptr_add, line_ptr. cbn [fst snd blk line_mem Nat.add].
  by rewrite (line_lookup pre rest HL).
Qed.

Lemma load_cstring_line_at buf pre rest :
  in_line L pre rest ->
  load_cstring (ptr_add line_ptr (length pre)) (Mem (L ++ NUL :: junk) buf)
  = Done rest (Mem (L ++ NUL :: junk) buf).
Proof.
  intros HL. unfold load_cstring, ptr_add, line_ptr.
  cbn [fst snd blk line_mem Nat.add].
  by rewrite (line_cstring pre rest HL).
Qed.

Lemma strlen_run buf :
  strlen line_ptr (Mem (L ++ NUL :: junk) buf)
  = Done (length L) (Mem (L ++ NUL :: junk) buf).
Proof.
  unfold strlen.
  erewrite run_bind
    by (apply (load_cstring_line_at _ [] L); split; [done|simpl; lia]).
  done.
Qed.

Lemma mem_at_shape pre tok k rest :
  mem_at L junk (pre ++ tok ++ zeros k) rest
  = Mem (L ++ NUL :: junk) (pre ++ tok ++ zeros (S (k + length rest))).
Proof.
  unfold mem_at. rewrite <- !app_assoc, zeros_app.
  by replace (k + S (length rest)) with (S (k + length rest)) by lia.
Qed.

Lemma mem_at_start d :
  d <= length L ->
  mem_at L junk (zeros d) (drop d L)
  = Mem (L ++ NUL :: junk) (zeros (S (length L))).
Proof.
  intros H. unfold mem_at. rewrite zeros_app, length_drop.
  do 2 f_equal. lia.
Qed.

Lemma sscanf_string_run pre rest n tok delta :
  in_line L pre rest ->
  sscanf_s_n rest = (n, tok, delta) -> length tok <= length rest ->
  sscanf_string (ptr_add line_ptr (length pre)) (EntryBlk, length pre)
    (mem_at L junk pre rest)
  = Done (n, delta)
      (if (n =? 1)%Z
       then Mem (L ++ NUL :: junk)
              (pre ++ tok ++ zeros (S (length rest - length tok)))
       else mem_at L junk pre rest).
Proof.
  intros HL Hscan Hlen. unfold sscanf_string, mem_at.
  rewrite (run_bind _ _ _ _ _ (load_cstring_line_at _ pre rest HL)).
  rewrite Hscan. destruct (n =? 1)%Z; [|done].
  replace (pre ++ zeros (S (length rest)))
    with (pre ++ zeros (length (tok ++ [NUL]))
              ++ zeros (length rest - length tok)).
  2:{ rewrite zeros_app, length_app. simpl length. do 2 f_equal. lia. }
  rewrite (run_bind _ _ _ _ _
             (store_bytes_middle _ pre _ _ (tok ++ [NUL]) (length_zeros _))).
  unfold ret. do 3 f_equal. by rewrite <- app_assoc.
Qed.

(** [parse_next_string_field] on a parser state. *)
Lemma pnsf_run pre rest :
  in_line L pre rest ->
  parse_next_string_field line_ptr (length pre) (mem_at L junk pre rest)
  = match scan_field rest with
    | None => Done (None, length pre) (mem_at L junk pre rest)
    | Some (tok, k, rest') =>
        Done (Some (EntryBlk, length pre), length pre + length tok + k)
             (mem_at L junk (pre ++ tok ++ zeros k) rest')
    end.
Proof.
  intros HL.
  unfold parse_next_string_field. rewrite ptr_add_buf.
  erewrite run_bind by (by eapply load_line_at).
  destruct rest as [|c rest0].
  - cbn [hd app]. rewrite is_space_char_NUL.
    erewrite run_bind by (by eapply sscanf_string_run). done.
  - cbn [hd app]. unfold scan_field.
    destruct (is_space_char c) eqn:Ec.
    + erewrite run_bind by (unfold mem_at; rewrite zeros_S; apply store_buf_at).
      unfold ret, mem_at. f_equal; [f_equal; simpl; lia|].
      f_equal. simpl. by rewrite <- app_assoc.
    + destruct (span isspace (c :: rest0)) as [ws r1] eqn:E1.
      destruct (span nonspace r1) as [tok r2] eqn:E2.
      assert (sscanf_s_n (c :: rest0)
              = match tok with
                | [] => (EOF, [], 0)
                | _ => (1%Z, tok, length (c :: rest0) - length r2)
                end) as Hscan.
      { unfold sscanf_s_n, skip_space. rewrite E1. simpl snd. by rewrite E2. }
      destruct tok as [|t tok].
      { erewrite run_bind by (eapply sscanf_string_run; eauto; simpl; lia).
        done. }
      assert (c :: rest0 = ws ++ (t :: tok) ++ r2) as Hsplit.
      { apply span_eq in E1. apply span_eq in E2. by rewrite E1, E2. }
      assert (length (c :: rest0) = length ws + length (t :: tok) + length r2)
        as Hlen by (rewrite Hsplit, !length_app; lia).
      set (T := t :: tok) in *.
      assert (length T <= length (c :: rest0)) as HT by lia.
      erewrite run_bind by (eapply sscanf_string_run; eauto).
      cbv beta iota. change (negb (1 =? 1)%Z) with false. cbv iota.
      assert (in_line L (pre ++ T ++ zeros (length ws)) r2) as HL2.
      { eapply in_line_advance; [done|]. exists (ws ++ T).
        rewrite <- app_assoc, length_app. split; [done|lia]. }
      pose proof (load_line_at
                    (pre ++ T ++ zeros (S (length (c :: rest0) - length T)))
                    _ _ HL2) as Hload.
      rewrite !length_app, length_zeros in Hload.
      replace (length pre + (length (c :: rest0) - length r2))
        with (length pre + (length T + length ws)) by lia.
      rewrite (run_bind _ _ _ _ _ Hload).
      unfold ret, mem_at.
      destruct r2 as [|c2 r3]; [|destruct (is_space_char c2) eqn:Ec2];
        cbn [hd app]; rewrite ?is_space_char_NUL, ?Ec2;
        (f_equal; [f_equal; simpl in *; lia|]); f_equal;
        rewrite <- !app_assoc; f_equal; f_equal;
        rewrite zeros_app; f_equal; simpl in *; lia.
Qed.

(** The loop over the optional fields on a parser state. *)
Lemma loop_run fuel :
  forall field_num pre rest,
    in_line L pre rest -> length rest < fuel ->
    (0 < field_num -> 0 < length pre) ->
    exists m',
      optional_fields_loop fuel line_ptr field_num (length pre)
        (mem_at L junk pre rest)
      = Done (option_map (fun st => length (fst st))
                (optional_fields_pure fuel field_num pre rest)) m'
      /\ line_mem m' = L ++ NUL :: junk
      /\ forall pre' rest',
           optional_fields_pure fuel field_num pre rest = Some (pre', rest') ->
           m' = mem_at L junk pre' rest' /\ in_line L pre' rest'.
Proof.
  induction fuel as [|fuel IH]; intros fn pre rest HL Hfuel Hfn; [lia|].
  cbn [optional_fields_loop optional_fields_pure].
  pose proof (pnsf_run pre rest HL) as Hfield.
  destruct (scan_field rest) as [[[tok k] rest']|] eqn:Escan;
    erewrite run_bind by (exact Hfield).
  2:{ eexists. split; [done|]. split; done. }
  pose proof (in_line_scan _ _ _ _ _ HL Escan) as HL'.
  pose proof (scan_field_nonnul _ _ _ _ Escan (in_line_nonnul _ _ HL))
    as Htok.
  pose proof (scan_field_progress _ _ _ _ Escan) as Hprog.
  pose proof (scan_field_length _ _ _ _ Escan) as Hlen.
  cbv beta iota.
  erewrite run_bind
    by (rewrite mem_at_shape; by apply load_cstring_buf).
  fold dash.
  destruct (list_ascii_eqb tok dash) eqn:Edash.
  - apply list_ascii_eqb_eq in Edash. subst tok.
    erewrite run_bind by (apply store_buf_at).
    eexists. split; [unfold ret; simpl; repeat f_equal|].
    { rewrite length_app. simpl. rewrite length_zeros. lia. }
    split; [done|].
    intros pre' rest'' [= <- <-]. split.
    + unfold mem_at. rewrite <- !app_assoc. cbn [app].
      rewrite zeros_app. do 4 f_equal. lia.
    + eapply in_line_length; [exact HL'|].
      rewrite !length_app. done.
  - assert (exists pre2,
              (if 0 <? fn then store_before (EntryBlk, length pre) " "%char
               else ret tt)
                (Mem (L ++ NUL :: junk)
                   (pre ++ tok ++ zeros (S (k + length rest'))))
              = Done tt (Mem (L ++ NUL :: junk)
                           (pre2 ++ tok ++ zeros (S (k + length rest'))))
              /\ pre2 = (if 0 <? fn then <[length pre - 1 := " "%char]> pre
                         else pre)
              /\ length pre2 = length pre) as (pre2 & Hstore & Hpre2 & Hlen2).
    { destruct (0 <? fn) eqn:E0.
      - apply Nat.ltb_lt in E0. specialize (Hfn E0).
        destruct (decide (pre = [])) as [->|Hne]; [simpl in Hfn; lia|].
        destruct (exists_last Hne) as (pre0 & x & ->).
        exists (pre0 ++ [" "%char]). split; [apply store_before_buf|].
        split; [by rewrite insert_last|]. by rewrite !length_app.
      - exists pre. done. }
    erewrite run_bind by (exact Hstore).
    assert (in_line L (pre2 ++ tok ++ zeros k) rest') as HL2.
    { eapply in_line_length; [exact HL'|]. rewrite !length_app. lia. }
    destruct (IH (S fn) (pre2 ++ tok ++ zeros k) rest' HL2) as (m' & Hrun & Hm).
    { lia. }
    { intros _. rewrite !length_app, length_zeros. lia. }
    exists m'. rewrite <- Hpre2. split; [|exact Hm].
    rewrite <- Hrun. rewrite mem_at_shape.
    f_equal. rewrite !length_app, length_zeros. lia.
Qed.

(** The header and the three leading fields on the fresh entry. *)
Lemma leading_run :
  exists m',
    parse_leading_fields line_ptr
      (Mem (L ++ NUL :: junk) (zeros (S (length L))))
    = Done (option_map leading_result (leading_pure L)) m'
    /\ line_mem m' = L ++ NUL :: junk
    /\ forall h o1 o2 o3 pre3 r3,
         leading_pure L = Some (h, o1, o2, o3, pre3, r3) ->
         m' = mem_at L junk pre3 r3 /\ in_line L pre3 r3.
Proof.
  unfold parse_leading_fields, leading_pure, three_fields.
  erewrite run_bind
    by (apply (load_cstring_line_at _ [] L); split; [done|simpl; lia]).
  set (h := sscanf_d_d_u_u_n L).
  destruct (negb (h_nscanned h =? 4)%Z).
  { eexists. split; [done|]. split; done. }
  cbn [Nat.add].
  pose proof (offset_delta_le L) as Hd. fold h in Hd.
  set (d := h_offset_delta h) in *.
  rewrite <- (mem_at_start d Hd).
  pose proof (in_line_start d Hd) as HL0.
  set (pre0 := zeros d) in *.
  assert (length pre0 = d) as Hpre0 by apply length_zeros.
  pose proof (pnsf_run pre0 _ HL0) as H1.
  rewrite Hpre0 in H1.
  destruct (scan_field (drop d L)) as [[[t1 k1] r1]|] eqn:E1;
    erewrite run_bind by (exact H1); cbv beta iota; cbn [is_null].
  2:{ eexists. split; [done|]. split; done. }
  pose proof (in_line_scan _ _ _ _ _ HL0 E1) as HL1.
  set (pre1 := pre0 ++ t1 ++ zeros k1) in *.
  replace (d + length t1 + k1) with (length pre1)
    by (unfold pre1; rewrite !length_app, length_zeros; lia).
  pose proof (pnsf_run pre1 _ HL1) as H2.
  destruct (scan_field r1) as [[[t2 k2] r2]|] eqn:E2;
    erewrite run_bind by (exact H2); cbv beta iota; cbn [is_null].
  2:{ eexists. split; [done|]. split; done. }
  pose proof (in_line_scan _ _ _ _ _ HL1 E2) as HL2.
  set (pre2 := pre1 ++ t2 ++ zeros k2) in *.
  replace (length pre1 + length t2 + k2) with (length pre2)
    by (unfold pre2; rewrite !length_app, length_zeros; lia).
  pose proof (pnsf_run pre2 _ HL2) as H3.
  destruct (scan_field r2) as [[[t3 k3] r3]|] eqn:E3;
    erewrite run_bind by (exact H3); cbv beta iota; cbn [is_null].
  2:{ eexists. split; [done|]. split; done. }
  pose proof (in_line_scan _ _ _ _ _ HL2 E3) as HL3.
  exists (mem_at L junk (pre2 ++ t3 ++ zeros k3) r3).
  split; [|split; [done|]].
  - unfold ret, at_buf. cbn [option_map leading_result].
    rewrite Hpre0, (length_app pre2), (length_app t3), length_zeros.
    by rewrite Nat.add_assoc.
  - intros ? ? ? ? ? ? [= <- <- <- <- <- <-]. done.
Qed.

End ParserState.

(** [sc_parse_mountinfo_entry] computes [entry_pure] of the C string it is
    given, faults nowhere, needs no more fuel, and leaves the line block as
    it was. *)
Lemma entry_run calloc_fails s :
  sc_parse_mountinfo_entry calloc_fails line_ptr (line_memory s)
  = Done (parse_result calloc_fails s)
      (Mem (s ++ [NUL])
         (match parse_result calloc_fails s with
          | Some e => line_buf e
          | None => []
          end)).
Proof.
  unfold parse_result.
  destruct (c_string_split s) as [junk Hs].
  pose proof (c_string_nonnul s) as Hn.
  unfold line_memory. rewrite Hs. set (L := c_string s) in *.
  unfold sc_parse_mountinfo_entry.
  erewrite run_bind by (by apply strlen_run).
  destruct calloc_fails; [done|].
  cbv zeta.
  erewrite run_bind by (unfold calloc_entry; cbn [line_mem]; reflexivity).
  replace (replicate (length L + 1) NUL) with (zeros (S (length L)))
    by (unfold zeros; f_equal; lia).
  destruct (leading_run L junk Hn) as (m1 & Hrun1 & Hline1 & Hm1).
  erewrite run_bind by (exact Hrun1).
  unfold entry_pure.
  destruct (leading_pure L) as [[[[[[h o1] o2] o3] pre3] r3]|] eqn:Elead;
    cbn [option_map leading_result].
  2:{ by rewrite fail_run, Hline1. }
  destruct (Hm1 _ _ _ _ _ _ eq_refl) as [-> HL3]. clear Hm1 Hline1.
  destruct (loop_run L junk Hn (S (length L)) 0 pre3 r3 HL3)
    as (m4 & Hrun4 & Hline4 & Hm4).
  { pose proof (in_line_rest_le _ _ _ HL3). lia. }
  { lia. }
  erewrite run_bind by (exact Hrun4).
  destruct (optional_fields_pure (S (length L)) 0 pre3 r3)
    as [[pre4 r4]|] eqn:Eopt; cbn [option_map fst].
  2:{ by rewrite fail_run, Hline4. }
  destruct (Hm4 _ _ eq_refl) as [-> HL4]. clear Hm4 Hline4.
  unfold three_fields.
  pose proof (pnsf_run L junk Hn pre4 _ HL4) as H5.
  destruct (scan_field r4) as [[[t5 k5] r5]|] eqn:E5;
    erewrite run_bind by (exact H5); cbv beta iota; cbn [is_null].
  2:{ done. }
  pose proof (in_line_scan _ _ _ _ _ _ HL4 E5) as HL5.
  set (pre5 := pre4 ++ t5 ++ zeros k5) in *.
  replace (length pre4 + length t5 + k5) with (length pre5)
    by (unfold pre5; rewrite !length_app, length_zeros; lia).
  pose proof (pnsf_run L junk Hn pre5 _ HL5) as H6.
  destruct (scan_field r5) as [[[t6 k6] r6]|] eqn:E6;
    erewrite run_bind by (exact H6); cbv beta iota; cbn [is_null].
  2:{ done. }
  pose proof (in_line_scan _ _ _ _ _ _ HL5 E6) as HL6.
  set (pre6 := pre5 ++ t6 ++ zeros k6) in *.
  replace (length pre5 + length t6 + k6) with (length pre6)
    by (unfold pre6; rewrite !length_app, length_zeros; lia).
  pose proof (pnsf_run L junk Hn pre6 _ HL6) as H7.
  destruct (scan_field r6) as [[[t7 k7] r7]|] eqn:E7;
    erewrite run_bind by (exact H7); cbv beta iota; cbn [is_null].
  2:{ done. }
  unfold snapshot, ret, bind, mem_at. cbn [entry_mem line_buf].
  rewrite ptr_add_buf. done.
Qed.

(** ** Tokens *)

Lemma isspace_nonspace c : nonspace c = true <-> isspace c = false.
Proof. unfold nonspace. by destruct (isspace c). Qed.

Lemma tokens_from_word cur tok s :
  Forall (fun c => nonspace c = true) tok ->
  tokens_from cur (tok ++ s) = tokens_from (cur ++ tok) s.
Proof.
  intros H. revert cur. induction H as [|c tok Hc _ IH]; intros cur.
  - by rewrite app_nil_r.
  - simpl. apply isspace_nonspace in Hc. rewrite Hc, IH.
    by rewrite <- app_assoc.
Qed.

Lemma tokens_skip ws s :
  Forall (fun c => isspace c = true) ws -> tokens (ws ++ s) = tokens s.
Proof.
  unfold tokens. induction 1 as [|c ws Hc _ IH]; [done|].
  simpl. by rewrite Hc.
Qed.

Lemma tokens_word tok s :
  tok <> [] -> Forall (fun c => nonspace c = true) tok ->
  match s with [] => True | c :: _ => isspace c = true end ->
  tokens (tok ++ s) = tok :: tokens s.
Proof.
  intros Hne Htok Hs. unfold tokens. rewrite tokens_from_word by done.
  simpl. destruct s as [|c s]; simpl.
  - by destruct tok.
  - rewrite Hs. by destruct tok.
Qed.

(** The tokens of the unread part after one field. *)
Lemma scan_field_tokens rest tok k rest' :
  scan_field rest = Some (tok, k, rest') ->
  tokens rest = match tok with [] => tokens rest' | _ => tok :: tokens rest' end.
Proof.
  unfold scan_field. destruct rest as [|c rest0]; [done|].
  destruct (is_space_char c) eqn:Ec.
  - intros [= <- <- <-]. apply is_space_char_isspace in Ec.
    unfold tokens. simpl. by rewrite Ec.
  - destruct (span isspace (c :: rest0)) as [ws r1] eqn:E1.
    destruct (span nonspace r1) as [tok0 r2] eqn:E2.
    pose proof (span_fst_Forall isspace (c :: rest0)) as Hws.
    pose proof (span_fst_Forall nonspace r1) as Htok.
    pose proof (span_snd_head nonspace r1) as Hr2.
    rewrite E1 in Hws. rewrite E2 in Htok, Hr2. simpl in Hws, Htok, Hr2.
    apply span_eq in E1. apply span_eq in E2. rewrite E1, E2.
    destruct tok0 as [|t tok0]; [done|].
    intros H. rewrite tokens_skip by done.
    destruct r2 as [|c2 r3].
    + injection H as <- <- <-. by rewrite tokens_word.
    + specialize (Hr2 _ _ eq_refl). unfold nonspace in Hr2.
      apply negb_false_iff in Hr2.
      rewrite tokens_word by done.
      destruct (is_space_char c2); injection H as <- <- <-; [|done].
      f_equal. unfold tokens. simpl. by rewrite Hr2.
Qed.

(** ** The optional fields *)

Lemma dash_not_nil : dash <> [].
Proof. done. Qed.

(** The loop only ends well at a token [-]. *)
Lemma optional_fields_pure_dash fuel field_num pre rest st :
  optional_fields_pure fuel field_num pre rest = Some st ->
  In dash (tokens rest).
Proof.
  revert field_num pre rest.
  induction fuel as [|fuel IH]; intros fn pre rest; simpl; [done|].
  destruct (scan_field rest) as [[[tok k] rest']|] eqn:E; [|done].
  rewrite (scan_field_tokens _ _ _ _ E).
  destruct (list_ascii_eqb tok dash) eqn:Ed.
  - apply list_ascii_eqb_eq in Ed. subst tok. intros _. by left.
  - intros H. apply IH in H. destruct tok; [done|by right].
Qed.

Lemma entry_of_eq calloc_fails s :
  entry_of calloc_fails s = parse_result calloc_fails s.
Proof. unfold entry_of. by rewrite entry_run. Qed.

Lemma optional_fields_offset_eq s :
  optional_fields_offset s
  = match leading_pure (c_string s) with
    | Some (_, _, _, _, pre3, _) => Some (length pre3)
    | None => None
    end.
Proof.
  unfold optional_fields_offset, fresh_entry_memory.
  destruct (c_string_split s) as [junk Hs]. rewrite Hs.
  replace (replicate (length (c_string s) + 1) NUL)
    with (zeros (S (length (c_string s)))) by (unfold zeros; f_equal; lia).
  destruct (leading_run (c_string s) junk (c_string_nonnul s))
    as (m & -> & _ & _).
  by destruct (leading_pure (c_string s)) as [[[[[[h o1] o2] o3] pre3] r3]|].
Qed.

Lemma leading_pure_in_line L h o1 o2 o3 pre3 r3 :
  Forall nonnul L ->
  leading_pure L = Some (h, o1, o2, o3, pre3, r3) -> in_line L pre3 r3.
Proof.
  intros Hn H. destruct (leading_run L [] Hn) as (m & _ & _ & Hm).
  by destruct (Hm _ _ _ _ _ _ H).
Qed.

Lemma existsb_dash l : existsb (list_ascii_eqb dash) l = true <-> In dash l.
Proof.
  rewrite existsb_exists. split.
  - intros (x & Hx & E). apply list_ascii_eqb_eq in E. by subst.
  - intros H. exists dash. split; [done|]. by apply list_ascii_eqb_eq.
Qed.

(** Without the separator there is no entry. *)
Lemma no_separator_no_entry s :
  has_separator s = false -> entry_pure (c_string s) = None.
Proof.
  unfold has_separator. rewrite optional_fields_offset_eq.
  unfold entry_pure.
  destruct (leading_pure (c_string s)) as [[[[[[h o1] o2] o3] pre3] r3]|]
    eqn:Elead; [|done].
  intros Hsep.
  destruct (optional_fields_pure _ 0 pre3 r3) as [[pre4 r4]|] eqn:Eopt;
    [|done].
  apply optional_fields_pure_dash in Eopt.
  destruct (leading_pure_in_line _ _ _ _ _ _ _ (c_string_nonnul s) Elead)
    as [Hr3 _].
  rewrite <- Hr3 in Hsep. apply existsb_dash in Eopt. congruence.
Qed.

(** ** The table *)

Lemma sc_free_mountinfo_all entries : sc_free_mountinfo entries = entries.
Proof. induction entries as [|e es IH]; simpl; by rewrite ?IH. Qed.

Lemma read_entries_fails calloc_fails lines :
  forall k read_error entries i line,
    lines !! i = Some line ->
    entry_of (calloc_fails (k + i)) line = None ->
    read_entries calloc_fails k lines read_error entries
    = TableNull (entries ++ parsed_prefix calloc_fails k lines).
Proof.
  induction lines as [|l lines IH]; intros k err entries i line Hi Hfail;
    [done|].
  cbn [read_entries parsed_prefix].
  pose proof (entry_of_eq (calloc_fails k) l) as Hl.
  unfold entry_of in Hl |- *. rewrite entry_run in Hl |- *.
  destruct (parse_result (calloc_fails k) l) as [e|] eqn:El.
  - destruct i as [|i].
    + injection Hi as ->. rewrite Nat.add_0_r in Hfail.
      rewrite entry_of_eq in Hfail. congruence.
    + simpl in Hi. rewrite (IH (S k) err _ i line Hi).
      * by rewrite <- app_assoc.
      * by replace (S k + i) with (k + S i) by lia.
  - by rewrite sc_free_mountinfo_all, app_nil_r.
Qed.

(** ** Offsets and the written prefix *)

Lemma in_line_head L pre rest c :
  in_line L pre rest -> L !! length pre = Some c ->
  exists rest0, rest = c :: rest0.
Proof. intros [-> _] H. rewrite (drop_S _ _ _ H). by eexists. Qed.

(** A field whose place in the line holds a space is written as a single
    terminator. *)
Lemma scan_field_empty L pre rest tok k rest' :
  in_line L pre rest -> L !! length pre = Some " "%char ->
  scan_field rest = Some (tok, k, rest') ->
  (pre ++ tok ++ zeros k) !! length pre = Some NUL.
Proof.
  intros HL Hc H. destruct (in_line_head _ _ _ _ HL Hc) as [rest0 ->].
  simpl in H. injection H as <- <- <-. simpl.
  rewrite lookup_app_r by lia. by rewrite Nat.sub_diag.
Qed.

Lemma three_fields_inv pre rest o1 o2 o3 pre' rest' :
  three_fields pre rest = Some (o1, o2, o3, pre', rest') ->
  o1 = length pre /\ o1 < o2 /\ o2 < o3 /\ o3 < length pre'
  /\ (exists suffix, pre' = pre ++ suffix)
  /\ forall L, in_line L pre rest ->
       in_line L pre' rest'
       /\ forall o, o = o1 \/ o = o2 \/ o = o3 ->
            L !! o = Some " "%char -> pre' !! o = Some NUL.
Proof.
  unfold three_fields.
  destruct (scan_field rest) as [[[t1 k1] r1]|] eqn:E1; [|done].
  destruct (scan_field r1) as [[[t2 k2] r2]|] eqn:E2; [|done].
  destruct (scan_field r2) as [[[t3 k3] r3]|] eqn:E3; [|done].
  intros [= <- <- <- <- <-].
  pose proof (scan_field_progress _ _ _ _ E1).
  pose proof (scan_field_progress _ _ _ _ E2).
  pose proof (scan_field_progress _ _ _ _ E3).
  rewrite !length_app, !length_zeros.
  split; [done|]. split; [lia|]. split; [lia|]. split; [lia|].
  split; [eexists; by rewrite <- !app_assoc|].
  intros L HL0.
  pose proof (in_line_scan _ _ _ _ _ _ HL0 E1) as HL1.
  pose proof (in_line_scan _ _ _ _ _ _ HL1 E2) as HL2.
  pose proof (in_line_scan _ _ _ _ _ _ HL2 E3) as HL3.
  split; [done|].
  intros o [-> | [-> | ->]] Ho.
  - do 2 apply lookup_app_l_Some.
    exact (scan_field_empty _ _ _ _ _ _ HL0 Ho E1).
  - apply lookup_app_l_Some.
    replace (length pre + (length t1 + k1))
      with (length (pre ++ t1 ++ zeros k1)) in Ho |- *
      by (rewrite !length_app, length_zeros; lia).
    exact (scan_field_empty _ _ _ _ _ _ HL1 Ho E2).
  - replace (length pre + (length t1 + k1) + (length t2 + k2))
      with (length ((pre ++ t1 ++ zeros k1) ++ t2 ++ zeros k2)) in Ho |- *
      by (rewrite !length_app, !length_zeros; lia).
    exact (scan_field_empty _ _ _ _ _ _ HL2 Ho E3).
Qed.

Lemma optional_fields_pure_inv fuel :
  forall field_num pre rest pre' rest',
    optional_fields_pure fuel field_num pre rest = Some (pre', rest') ->
    length pre < length pre'
    /\ take (first_kept field_num (length pre)) pre'
       = take (first_kept field_num (length pre)) pre
    /\ forall L, in_line L pre rest -> in_line L pre' rest'.
Proof.
  induction fuel as [|fuel IH]; intros fn pre rest pre' rest'; simpl; [done|].
  destruct (scan_field rest) as [[[tok k] rest1]|] eqn:E; [|done].
  pose proof (scan_field_progress _ _ _ _ E) as Hprog.
  destruct (list_ascii_eqb tok dash) eqn:Ed.
  - apply list_ascii_eqb_eq in Ed. subst tok. intros [= <- <-].
    split; [rewrite length_app; simpl; lia|].
    split; [apply take_app_le; unfold first_kept; lia|].
    intros L HL. eapply in_line_length; [by eapply in_line_scan|].
    by rewrite !length_app.
  - set (pre2 := if 0 <? fn then <[length pre - 1:=" "%char]> pre else pre).
    assert (length pre2 = length pre) as Hlen2
      by (unfold pre2; destruct (0 <? fn); by rewrite ?length_insert).
    assert (take (first_kept fn (length pre)) pre2
            = take (first_kept fn (length pre)) pre) as Htake2.
    { unfold pre2, first_kept. destruct (0 <? fn); [|done].
      by apply take_insert_ge. }
    intros H. apply IH in H as (Hlt & Htake & Hin).
    rewrite !length_app, length_zeros, Hlen2 in Hlt, Htake.
    split; [lia|]. split.
    + set (n := first_kept fn (length pre)) in *.
      set (N := first_kept (S fn) (length pre + (length tok + k))) in *.
      assert (n <= N /\ n <= length pre2) as [HnN Hn2]
        by (unfold n, N, first_kept; simpl; destruct (0 <? fn); lia).
      transitivity (take n (take N pre')).
      { by rewrite take_take, Nat.min_l. }
      rewrite Htake, take_take, Nat.min_l by done.
      by rewrite take_app_le.
    + intros L HL. apply Hin. eapply in_line_length; [by eapply in_line_scan|].
      rewrite !length_app. lia.
Qed.

Lemma optional_fields_pure_none_first fuel pre r0 :
  optional_fields_pure (S fuel) 0 pre ("-" :: " " :: r0)%char
  = Some (pre ++ NUL :: zeros 1, r0).
Proof. done. Qed.

(** ** Strings in the written buffer *)




Lemma in_line_head2 L pre rest c1 c2 :
  in_line L pre rest ->
  L !! length pre = Some c1 -> L !! S (length pre) = Some c2 ->
  exists rest0, rest = c1 :: c2 :: rest0.
Proof.
  intros [-> _] H1 H2.
  rewrite (drop_S _ _ _ H1), (drop_S _ _ _ H2). by eexists.
Qed.

(** What an entry of [entry_pure] is made of. *)
Lemma entry_pure_inv L e :
  Forall nonnul L -> entry_pure L = Some e ->
  exists o1 o2 o3 o4 o5 o6 o7 pre7 r7,
    let h := sscanf_d_d_u_u_n L in
    e = Entry (h_mount_id h) (h_parent_id h) (h_dev_major h) (h_dev_minor h)
          (at_buf o1) (at_buf o2) (at_buf o3) (at_buf o4)
          (at_buf o5) (at_buf o6) (at_buf o7)
          (pre7 ++ zeros (S (length r7)))
    /\ (o1 < o2 /\ o2 < o3 /\ o3 < o4 /\ o4 < o5 /\ o5 < o6 /\ o6 < o7
        /\ o7 < length pre7)
    /\ in_line L pre7 r7
    /\ (forall o, In o [o1; o2; o3; o5; o6; o7] ->
          L !! o = Some " "%char -> pre7 !! o = Some NUL)
    /\ (L !! o4 = Some "-"%char -> L !! S o4 = Some " "%char ->
        pre7 !! o4 = Some NUL).
Proof.
  intros Hn. unfold entry_pure, leading_pure.
  set (h := sscanf_d_d_u_u_n L).
  destruct (negb (h_nscanned h =? 4)%Z); [done|].
  pose proof (offset_delta_le L) as Hd. fold h in Hd.
  pose proof (in_line_start L _ Hd) as HL0.
  destruct (three_fields (zeros (h_offset_delta h)) _)
    as [[[[[o1 o2] o3] pre3] r3]|] eqn:E3; [|done].
  apply three_fields_inv in E3 as (_ & H12 & H23 & H3 & _ & Hlead).
  destruct (Hlead L HL0) as [HL3 Hempty3]. clear Hlead.
  destruct (optional_fields_pure _ 0 pre3 r3) as [[pre4 r4]|] eqn:E4; [|done].
  pose proof (optional_fields_pure_inv _ _ _ _ _ _ E4) as (H4 & Htake & Hin4).
  pose proof (Hin4 L HL3) as HL4. clear Hin4.
  unfold first_kept in Htake. simpl in Htake. rewrite Nat.sub_0_r in Htake.
  destruct (three_fields pre4 r4) as [[[[[o5 o6] o7] pre7] r7]|] eqn:E7;
    [|done].
  apply three_fields_inv in E7 as (-> & H56 & H67 & H7 & [suf ->] & Htrail).
  destruct (Htrail L HL4) as [HL7 Hempty7]. clear Htrail.
  intros [= <-].
  exists o1, o2, o3, (length pre3), (length pre4), o6, o7, (pre4 ++ suf), r7.
  cbv zeta. split; [done|]. split; [lia|]. split; [done|].
  assert (forall o, o < length pre3 -> pre3 !! o = Some NUL ->
                    (pre4 ++ suf) !! o = Some NUL) as Hkeep.
  { intros o Ho Hz. apply lookup_app_l_Some.
    rewrite <- (lookup_take_lt pre4 (length pre3)) by done.
    rewrite Htake. by rewrite lookup_take_lt. }
  split.
  - intros o Ho Hsp. simpl in Ho.
    destruct Ho as [<- | [<- | [<- | [<- | [<- | [<- | []]]]]]].
    + apply Hkeep; [lia|]. apply Hempty3; auto.
    + apply Hkeep; [lia|]. apply Hempty3; auto.
    + apply Hkeep; [lia|]. apply Hempty3; auto.
    + apply Hempty7; auto.
    + apply Hempty7; auto.
    + apply Hempty7; auto.
  - intros Hdash Hsp.
    destruct (in_line_head2 _ _ _ _ _ HL3 Hdash Hsp) as [r0 ->].
    rewrite optional_fields_pure_none_first in E4. injection E4 as <- <-.
    apply lookup_app_l_Some. rewrite lookup_app_r by lia.
    by rewrite Nat.sub_diag.
Qed.

(** The header format ends in a white-space directive, which skips every
    space before the root: the root is read from the first character that
    is no white space, so two spaces there do not make an empty root. *)
Example space_before_root_is_skipped :
  option_map fields_of (entry_of false line_two_spaces_before_root)
  = Some (Fields 304 301 0 45 (Some (str "/snap/core"))
            (Some (str "rw,relatime")) (Some (str "x")) (Some [])
            (Some (str "tmpfs")) (Some (str "none")) (Some (str "rw"))).
Proof. vm_compute. reflexivity. Qed.

(** ** A newline at the end of the line *)

Lemma span_snoc_stop p s c :
  p c = false ->
  span p (s ++ [c]) = (fst (span p s), snd (span p s) ++ [c]).
Proof.
  intros Hc. induction s as [|d s IH]; simpl.
  - by rewrite Hc.
  - destruct (p d); [|done]. rewrite IH. by destruct (span p s).
Qed.

Lemma span_snoc_go p s c :
  snd (span p s) <> [] ->
  span p (s ++ [c]) = (fst (span p s), snd (span p s) ++ [c]).
Proof.
  induction s as [|d s IH]; simpl; [done|].
  destruct (p d); [|done].
  destruct (span p s) as [a b] eqn:E. simpl in *. intros H.
  by rewrite IH.
Qed.

Lemma isspace_newline : isspace newline = true.
Proof. done. Qed.

Lemma skip_space_newline s :
  skip_space (s ++ [newline])
  = match skip_space s with [] => [] | r => r ++ [newline] end.
Proof.
  unfold skip_space. induction s as [|c s IH]; simpl; [done|].
  destruct (isspace c) eqn:E; [|done].
  destruct (span isspace (s ++ [newline])) as [a b].
  destruct (span isspace s) as [a' b']. simpl in *. exact IH.
Qed.

Lemma scan_field_newline rest :
  scan_field (rest ++ [newline])
  = match scan_field rest with
    | Some (tok, k, rest') => Some (tok, k, rest' ++ [newline])
    | None => None
    end.
Proof.
  destruct rest as [|c rest0]; [done|].
  cbn [app]. unfold scan_field.
  destruct (is_space_char c) eqn:Ec; [done|].
  change (c :: rest0 ++ [newline]) with ((c :: rest0) ++ [newline]).
  destruct (span isspace (c :: rest0)) as [ws r1] eqn:E1.
  pose proof (span_snd_head isspace (c :: rest0)) as Hhead.
  rewrite E1 in Hhead. simpl in Hhead.
  destruct r1 as [|c1 r1].
  - (* only white space is left *)
    assert (span isspace ((c :: rest0) ++ [newline])
            = (ws ++ [newline], [])) as ->.
    { pose proof (span_fst_Forall isspace (c :: rest0)) as H.
      rewrite E1 in H. cbn [fst] in H.
      apply span_eq in E1. rewrite app_nil_r in E1. rewrite E1.
      rewrite <- (app_nil_r (ws ++ [newline])) at 1.
      apply span_all; [|done].
      apply Forall_app. split; [done|by repeat constructor]. }
    done.
  - rewrite span_snoc_go by (by rewrite E1).
    rewrite E1. cbn [fst snd].
    specialize (Hhead _ _ eq_refl).
    destruct (span nonspace (c1 :: r1)) as [tok r2] eqn:E2.
    rewrite (span_snoc_stop nonspace (c1 :: r1) newline) by done.
    rewrite E2. cbn [fst snd].
    destruct tok as [|t tok]; [done|].
    destruct r2 as [|c2 r3]; [done|].
    cbn [app]. by destruct (is_space_char c2).
Qed.

Lemma three_fields_newline pre rest :
  three_fields pre (rest ++ [newline])
  = match three_fields pre rest with
    | Some (o1, o2, o3, pre', rest') =>
        Some (o1, o2, o3, pre', rest' ++ [newline])
    | None => None
    end.
Proof.
  unfold three_fields. rewrite scan_field_newline.
  destruct (scan_field rest) as [[[t1 k1] r1]|]; [|done].
  rewrite scan_field_newline.
  destruct (scan_field r1) as [[[t2 k2] r2]|]; [|done].
  rewrite scan_field_newline.
  by destruct (scan_field r2) as [[[t3 k3] r3]|].
Qed.

Lemma optional_fields_pure_newline fuel :
  forall field_num pre rest,
    optional_fields_pure fuel field_num pre (rest ++ [newline])
    = match optional_fields_pure fuel field_num pre rest with
      | Some (pre', rest') => Some (pre', rest' ++ [newline])
      | None => None
      end.
Proof.
  induction fuel as [|fuel IH]; intros fn pre rest; simpl; [done|].
  rewrite scan_field_newline.
  destruct (scan_field rest) as [[[tok k] rest1]|]; [|done].
  destruct (list_ascii_eqb tok dash); [done|]. apply IH.
Qed.

(** Past the length of the unread part, more fuel changes nothing. *)
Lemma optional_fields_pure_fuel fuel :
  forall fuel' field_num pre rest,
    length rest < fuel -> length rest < fuel' ->
    optional_fields_pure fuel field_num pre rest
    = optional_fields_pure fuel' field_num pre rest.
Proof.
  induction fuel as [|fuel IH]; intros [|fuel'] fn pre rest H1 H2; try lia.
  simpl. destruct (scan_field rest) as [[[tok k] rest1]|] eqn:E; [|done].
  destruct (list_ascii_eqb tok dash); [done|].
  pose proof (scan_field_length _ _ _ _ E).
  pose proof (scan_field_progress _ _ _ _ E).
  apply IH; lia.
Qed.

Lemma scan_digits_newline neg s :
  match scan_digits neg s with
  | NumOk n ds rest =>
      scan_digits neg (s ++ [newline]) = NumOk n ds (rest ++ [newline])
  | _ => number_failed (scan_digits neg (s ++ [newline]))
  end.
Proof.
  unfold scan_digits, number_failed.
  rewrite (span_snoc_stop isdigit s newline) by done.
  destruct (span isdigit s) as [[|d ds] rest]; cbn [fst snd]; [|done].
  destruct s; simpl; auto.
Qed.

Lemma scan_signed_newline neg s :
  match scan_signed neg s with
  | NumOk n ds rest =>
      scan_signed neg (s ++ [newline]) = NumOk n ds (rest ++ [newline])
  | _ => number_failed (scan_signed neg (s ++ [newline]))
  end.
Proof.
  unfold scan_signed. pose proof (scan_digits_newline neg s) as H.
  destruct (scan_digits neg s) as [| |n ds rest].
  - destruct H as [-> | ->]; by right.
  - destruct H as [-> | ->]; by right.
  - by rewrite H.
Qed.

Lemma scan_number_newline s :
  match scan_number s with
  | NumOk neg ds rest =>
      scan_number (s ++ [newline]) = NumOk neg ds (rest ++ [newline])
  | _ => number_failed (scan_number (s ++ [newline]))
  end.
Proof.
  unfold scan_number. rewrite skip_space_newline.
  destruct (skip_space s) as [|c r]; [by left|].
  cbn [app].
  destruct (Ascii.eqb c "-"); [apply scan_signed_newline|].
  destruct (Ascii.eqb c "+"); [apply scan_signed_newline|].
  apply (scan_digits_newline false (c :: r)).
Qed.

Lemma header_newline L :
  let h := sscanf_d_d_u_u_n L in
  let h' := sscanf_d_d_u_u_n (L ++ [newline]) in
  (h_nscanned h' =? 4)%Z = (h_nscanned h =? 4)%Z
  /\ ((h_nscanned h =? 4)%Z = true ->
      h_mount_id h' = h_mount_id h /\ h_parent_id h' = h_parent_id h
      /\ h_dev_major h' = h_dev_major h /\ h_dev_minor h' = h_dev_minor h
      /\ (h_offset_delta h' = h_offset_delta h
          \/ (h_offset_delta h = length L
              /\ h_offset_delta h' = S (length L)))).
Proof.
  cbv zeta. unfold sscanf_d_d_u_u_n.
  pose proof (scan_number_newline L) as H1.
  destruct (scan_number L) as [| |n1 d1 s1];
    [by destruct H1 as [-> | ->]..|rewrite H1].
  pose proof (scan_number_newline s1) as H2.
  destruct (scan_number s1) as [| |n2 d2 s2];
    [by destruct H2 as [-> | ->]..|rewrite H2].
  pose proof (scan_number_newline s2) as H3.
  destruct (scan_number s2) as [| |n3 d3 s3];
    [by destruct H3 as [-> | ->]..|rewrite H3].
  destruct s3 as [|ch s4]; [done|]. cbn [app].
  destruct (Ascii.eqb ch ":"); [|done].
  pose proof (scan_number_newline s4) as H4.
  destruct (scan_number s4) as [| |n4 d4 s5];
    [by destruct H4 as [-> | ->]..|rewrite H4].
  cbn [h_nscanned h_mount_id h_parent_id h_dev_major h_dev_minor
         h_offset_delta].
  split; [done|]. intros _. repeat (split; [done|]).
  rewrite skip_space_newline, length_app. cbn [length].
  destruct (skip_space s5) as [|c r].
  - right. cbn [length]. lia.
  - left. rewrite length_app. cbn [length]. lia.
Qed.

Lemma leading_pure_newline L :
  match leading_pure L with
  | Some (h, o1, o2, o3, pre3, r3) =>
      exists h',
        leading_pure (L ++ [newline])
        = Some (h', o1, o2, o3, pre3, r3 ++ [newline])
        /\ h_mount_id h' = h_mount_id h /\ h_parent_id h' = h_parent_id h
        /\ h_dev_major h' = h_dev_major h /\ h_dev_minor h' = h_dev_minor h
  | None => leading_pure (L ++ [newline]) = None
  end.
Proof.
  unfold leading_pure.
  destruct (header_newline L) as [Hn Hh]. cbv zeta in Hn, Hh. rewrite Hn.
  set (h := sscanf_d_d_u_u_n L) in *.
  set (h' := sscanf_d_d_u_u_n (L ++ [newline])) in *.
  destruct (h_nscanned h =? 4)%Z; [|done]. cbn [negb].
  destruct (Hh eq_refl) as (Hid & Hpid & Hmaj & Hmin & Hdelta).
  pose proof (offset_delta_le L) as Hle. fold h in Hle.
  destruct Hdelta as [-> | [Hd ->]].
  - rewrite drop_app_le by done. rewrite three_fields_newline.
    destruct (three_fields _ _) as [[[[[o1 o2] o3] pre3] r3]|]; [|done].
    by exists h'.
  - rewrite Hd. rewrite drop_all.
    rewrite drop_ge by (rewrite length_app; simpl; lia).
    done.
Qed.

Lemma entry_pure_newline L :
  match entry_pure L with
  | Some e =>
      exists B,
        line_buf e = B ++ [NUL]
        /\ entry_pure (L ++ [newline])
           = Some (with_line_buf e (B ++ [NUL; NUL]))
  | None => entry_pure (L ++ [newline]) = None
  end.
Proof.
  unfold entry_pure.
  pose proof (leading_pure_newline L) as Hlead.
  destruct (leading_pure L) as [[[[[[h o1] o2] o3] pre3] r3]|] eqn:E3;
    [|by rewrite Hlead].
  destruct Hlead as (h' & -> & Hid & Hpid & Hmaj & Hmin).
  rewrite optional_fields_pure_newline.
  assert (length r3 <= length L) as Hr3.
  { unfold leading_pure in E3.
    destruct (negb _); [done|].
    destruct (three_fields _ _) as [[[[[a b] c] d] r]|] eqn:E; [|done].
    injection E3 as <- <- <- <- <- <-.
    apply three_fields_inv in E as (_ & _ & _ & _ & _ & Hin).
    destruct (Hin L (in_line_start L _ (offset_delta_le L))) as [HL _].
    by apply in_line_rest_le in HL. }
  rewrite (optional_fields_pure_fuel (S (length (L ++ [newline])))
             (S (length L)))
    by (rewrite ?length_app; simpl; lia).
  destruct (optional_fields_pure (S (length L)) 0 pre3 r3)
    as [[pre4 r4]|]; [|done].
  rewrite three_fields_newline.
  destruct (three_fields pre4 r4) as [[[[[o5 o6] o7] pre7] r7]|]; [|done].
  exists (pre7 ++ zeros (length r7)).
  cbn [line_buf]. split.
  - rewrite <- app_assoc. f_equal. unfold zeros.
    by rewrite replicate_S_end.
  - unfold with_line_buf. cbn. rewrite Hid, Hpid, Hmaj, Hmin.
    do 2 f_equal. rewrite <- app_assoc. f_equal.
    rewrite length_app. cbn [length]. unfold zeros.
    change (NUL :: replicate (length r7 + 1) NUL)
      with (replicate (S (length r7 + 1)) NUL).
    replace (S (length r7 + 1)) with (length r7 + 2) by lia.
    by rewrite replicate_add.
Qed.

Lemma cstring_extra_nul A t : cstring (A ++ NUL :: t) = cstring (A ++ [NUL]).
Proof.
  induction A as [|c A IH]; simpl; [done|].
  destruct (is_nul c); [done|]. by rewrite IH.
Qed.

Lemma cstring_drop_extra_nul B o :
  o <= length B ->
  cstring (drop o (B ++ [NUL; NUL])) = cstring (drop o (B ++ [NUL])).
Proof.
  intros H. rewrite !drop_app_le by done. apply cstring_extra_nul.
Qed.

Lemma fields_of_extra_nul L e B :
  Forall nonnul L -> entry_pure L = Some e -> line_buf e = B ++ [NUL] ->
  fields_of (with_line_buf e (B ++ [NUL; NUL])) = fields_of e.
Proof.
  intros Hn He HB.
  apply entry_pure_inv in He
    as (o1 & o2 & o3 & o4 & o5 & o6 & o7 & pre7 & r7 & -> & Hlt & _);
    [|done].
  cbn [line_buf] in HB.
  assert (length pre7 <= length B) as Hlen.
  { apply (f_equal length) in HB.
    rewrite !length_app, length_zeros in HB. simpl in HB. lia. }
  unfold fields_of, with_line_buf, field_string, at_buf.
  cbn [mount_id parent_id dev_major dev_minor root mount_dir mount_opts
         optional_fields fs_type mount_source super_opts line_buf].
  rewrite HB. rewrite !cstring_drop_extra_nul by lia. done.
Qed.

Lemma c_string_snoc s c :
  is_nul c = false ->
  c_string (s ++ [c]) = c_string s \/ c_string (s ++ [c]) = c_string s ++ [c].
Proof.
  intros Hc. induction s as [|x s IH]; simpl.
  - rewrite Hc. by right.
  - destruct (is_nul x); [by left|].
    destruct IH as [-> | ->]; [by left|by right].
Qed.

(** ** Lines that follow the grammar *)

Lemma word_Forall t :
  word t = true ->
  Forall (fun c => nonspace c = true) t /\ Forall nonnul t.
Proof.
  unfold word. rewrite forallb_forall. intros H.
  split; apply Forall_forall; intros c Hc%list_elem_of_In%H;
    apply andb_true_iff in Hc as [H1 H2].
  - done.
  - unfold nonnul. by apply negb_true_iff.
Qed.

Lemma word_cons c t :
  word (c :: t) = true -> isspace c = false /\ is_space_char c = false.
Proof.
  intros H. apply word_Forall in H as [H _]. inversion H as [|? ? Hc _]; subst.
  apply isspace_nonspace in Hc. split; [done|].
  destruct (is_space_char c) eqn:E; [|done].
  apply is_space_char_isspace in E. congruence.
Qed.

Lemma span_isspace_word c t s :
  word (c :: t) = true -> span isspace ((c :: t) ++ s) = ([], (c :: t) ++ s).
Proof. intros H. apply word_cons in H as [H _]. simpl. by rewrite H. Qed.

(** A field followed by a space. *)
Lemma scan_field_word t rest :
  word t = true -> scan_field (t ++ " "%char :: rest) = Some (t, 1, rest).
Proof.
  intros Hw. destruct t as [|c t]; [done|].
  unfold scan_field. cbn [app].
  destruct (word_cons _ _ Hw) as [Hc ->].
  change (c :: t ++ " "%char :: rest) with ((c :: t) ++ " "%char :: rest).
  rewrite span_isspace_word by done.
  rewrite (span_all nonspace (c :: t) (" "%char :: rest));
    [done|by apply word_Forall|done].
Qed.

(** The last field, at the end of the line or before white space. *)
Lemma scan_field_last t tail :
  word t = true -> nonempty t = true -> line_end tail = true ->
  exists k r, scan_field (t ++ tail) = Some (t, k, r).
Proof.
  intros Hw Hne Hend. destruct t as [|c t]; [done|].
  unfold scan_field. cbn [app].
  destruct (word_cons _ _ Hw) as [Hc ->].
  change (c :: t ++ tail) with ((c :: t) ++ tail).
  rewrite span_isspace_word by done.
  rewrite (span_all nonspace (c :: t) tail).
  - destruct tail as [|c2 r3]; [by eexists _, _|].
    destruct (is_space_char c2); by eexists _, _.
  - by apply word_Forall.
  - destruct tail as [|c2 r3]; [done|]. simpl in Hend.
    apply andb_true_iff in Hend as [Hsp _]. unfold nonspace. by rewrite Hsp.
Qed.

Lemma three_fields_words pre t1 t2 t3 rest :
  word t1 = true -> word t2 = true -> word t3 = true ->
  three_fields pre (t1 ++ " "%char :: t2 ++ " "%char :: t3 ++ " "%char :: rest)
  = Some (length pre, length (pre ++ t1 ++ [NUL]),
          length ((pre ++ t1 ++ [NUL]) ++ t2 ++ [NUL]),
          ((pre ++ t1 ++ [NUL]) ++ t2 ++ [NUL]) ++ t3 ++ [NUL], rest).
Proof.
  intros H1 H2 H3. unfold three_fields.
  by rewrite !scan_field_word.
Qed.

Lemma scan_field_dash rest :
  scan_field ("-"%char :: " "%char :: rest) = Some (dash, 1, rest).
Proof. done. Qed.

Lemma optional_word_inv t :
  optional_word t = true ->
  word t = true /\ nonempty t = true /\ list_ascii_eqb t dash = false.
Proof.
  unfold optional_word. rewrite !andb_true_iff, negb_true_iff. tauto.
Qed.

(** The loop after its first round, on optional fields each followed by a
    space and then the separator. *)
Lemma optional_fields_pure_more rest :
  forall optional fuel field_num base,
    forallb optional_word optional = true ->
    0 < field_num -> length optional < fuel ->
    optional_fields_pure fuel field_num (base ++ [NUL])
      (concat (map (fun t => t ++ [" "%char]) optional)
       ++ "-"%char :: " "%char :: rest)
    = Some (base ++ concat (map (fun u => " "%char :: u) optional)
              ++ zeros 3, rest).
Proof.
  induction optional as [|t optional IH]; intros fuel fn base Hall Hfn Hfuel;
    (destruct fuel as [|fuel]; [simpl in Hfuel; lia|]).
  - cbn [map concat app optional_fields_pure].
    rewrite scan_field_dash. cbn. by rewrite <- app_assoc.
  - cbn [forallb] in Hall. apply andb_true_iff in Hall as [Ht Hall].
    apply optional_word_inv in Ht as (Hw & Hne & Hnd).
    cbn [map concat optional_fields_pure].
    rewrite <- !app_assoc. cbn [app].
    rewrite scan_field_word by done. rewrite Hnd.
    replace (0 <? fn) with true by (symmetry; by apply Nat.ltb_lt).
    rewrite insert_last.
    replace ((base ++ [" "%char]) ++ t ++ zeros 1)
      with ((base ++ " "%char :: t) ++ [NUL])
      by (by rewrite <- !app_assoc).
    rewrite IH; [|done|lia|simpl in Hfuel; lia].
    by rewrite <- !app_assoc.
Qed.

Lemma optional_fields_pure_words rest optional fuel pre :
  forallb optional_word optional = true -> length optional < fuel ->
  optional_fields_pure fuel 0 pre
    (concat (map (fun t => t ++ [" "%char]) optional)
     ++ "-"%char :: " "%char :: rest)
  = Some (pre ++ join_space optional
            ++ zeros (match optional with [] => 2 | _ => 3 end), rest).
Proof.
  intros Hall Hfuel. destruct fuel as [|fuel]; [lia|].
  destruct optional as [|t optional].
  - cbn [map concat app optional_fields_pure].
    by rewrite scan_field_dash.
  - cbn [forallb] in Hall. apply andb_true_iff in Hall as [Ht Hall].
    apply optional_word_inv in Ht as (Hw & Hne & Hnd).
    cbn [map concat optional_fields_pure].
    rewrite <- !app_assoc. cbn [app].
    rewrite scan_field_word by done. rewrite Hnd.
    cbn [Nat.ltb Nat.leb].
    replace (pre ++ t ++ zeros 1) with ((pre ++ t) ++ [NUL])
      by (by rewrite <- !app_assoc).
    rewrite optional_fields_pure_more; [|done|lia|simpl in Hfuel; lia].
    cbn [join_space]. by rewrite <- !app_assoc.
Qed.

Lemma isdigit_range c :
  isdigit c = true -> (48 <= N_of_ascii c <= 57)%N.
Proof. unfold isdigit. rewrite andb_true_iff, !N.leb_le. tauto. Qed.

Lemma isdigit_not_space c : isdigit c = true -> isspace c = false.
Proof.
  intros H%isdigit_range. unfold isspace.
  apply orb_false_iff. split.
  - apply N.eqb_neq. lia.
  - apply andb_false_iff. right. apply N.leb_gt. lia.
Qed.

Lemma isdigit_not_sign c :
  isdigit c = true -> Ascii.eqb c "-" = false /\ Ascii.eqb c "+" = false.
Proof.
  intros H. split; apply Ascii.eqb_neq; intros ->; done.
Qed.

Lemma is_digits_inv d :
  is_digits d = true ->
  exists c d', d = c :: d' /\ Forall (fun c => isdigit c = true) d
               /\ isdigit c = true.
Proof.
  unfold is_digits. rewrite andb_true_iff, forallb_forall.
  intros [Hne Hall]. destruct d as [|c d']; [done|].
  exists c, d'. split; [done|]. split.
  - apply Forall_forall. intros x Hx%list_elem_of_In. by apply Hall.
  - apply Hall. by left.
Qed.

(** A run of digits after white space is read as an unsigned number. *)
Lemma scan_number_digits ws ds rest :
  Forall (fun c => isspace c = true) ws -> is_digits ds = true ->
  match rest with [] => True | c :: _ => isdigit c = false end ->
  scan_number (ws ++ ds ++ rest) = NumOk false ds rest.
Proof.
  intros Hws Hds Hrest.
  destruct (is_digits_inv _ Hds) as (c & d' & -> & Hall & Hc).
  unfold scan_number, skip_space.
  rewrite (span_all isspace ws); [|done|].
  2:{ cbn [app]. by apply isdigit_not_space. }
  cbn [snd app].
  destruct (isdigit_not_sign _ Hc) as [-> ->].
  unfold scan_digits.
  change (c :: d' ++ rest) with ((c :: d') ++ rest).
  by rewrite (span_all isdigit (c :: d') rest).
Qed.

Lemma scan_number_first ds rest :
  is_digits ds = true ->
  match rest with [] => True | c :: _ => isdigit c = false end ->
  scan_number (ds ++ rest) = NumOk false ds rest.
Proof. apply (scan_number_digits []). constructor. Qed.

Lemma scan_number_next ds rest :
  is_digits ds = true ->
  match rest with [] => True | c :: _ => isdigit c = false end ->
  scan_number (" "%char :: ds ++ rest) = NumOk false ds rest.
Proof. apply (scan_number_digits [" "%char]). by repeat constructor. Qed.

Lemma header_digits d1 d2 d3 d4 c X :
  is_digits d1 = true -> is_digits d2 = true ->
  is_digits d3 = true -> is_digits d4 = true ->
  isspace c = false ->
  sscanf_d_d_u_u_n (header_text d1 d2 d3 d4 ++ c :: X)
  = Header 4 (to_int (strtol false d1)) (to_int (strtol false d2))
      (to_uint (strtoul false d3)) (to_uint (strtoul false d4))
      (length (header_text d1 d2 d3 d4)).
Proof.
  intros H1 H2 H3 H4 Hc. unfold sscanf_d_d_u_u_n, header_text.
  list_norm.
  rewrite (scan_number_first d1) by done.
  rewrite (scan_number_next d2) by done.
  rewrite (scan_number_next d3) by done.
  change (Ascii.eqb ":" ":") with true. cbv iota.
  rewrite (scan_number_first d4) by done.
  f_equal. unfold skip_space. cbn [span]. change (isspace " ") with true.
  cbv iota. cbn [span]. rewrite Hc. cbn [snd].
  repeat (rewrite length_app || rewrite length_cons). cbn [length]. lia.
Qed.

Lemma length_optional_text (optional : list (list ascii)) :
  length optional
  <= length (concat (map (fun t => t ++ [" "%char]) optional)).
Proof.
  induction optional as [|t ts IH]; simpl; [lia|].
  rewrite !length_app. simpl. lia.
Qed.

Lemma field_at_here A t rest : field_at (A ++ t ++ NUL :: rest) (length A) t.
Proof. by exists A, rest. Qed.

Lemma field_at_app_r buf X o t : field_at buf o t -> field_at (buf ++ X) o t.
Proof.
  intros (A & rest & -> & <-). exists A, (rest ++ X).
  split; [|done]. by list_norm.
Qed.

Lemma field_at_last A t k n :
  field_at ((A ++ t ++ zeros k) ++ zeros (S n)) (length A) t.
Proof.
  exists A, (zeros (k + n)). split; [|done].
  rewrite <- !app_assoc, zeros_app.
  by replace (k + S n) with (S (k + n)) by lia.
Qed.

Lemma field_at_cstring buf o t :
  field_at buf o t -> Forall nonnul t -> cstring (drop o buf) = Some t.
Proof.
  intros (A & rest & -> & <-) H. rewrite drop_app_length.
  by apply cstring_terminated.
Qed.

Lemma zeros_then_zeros k n : zeros k ++ zeros (S n) = NUL :: zeros (k + n).
Proof.
  rewrite zeros_app. by replace (k + S n) with (S (k + n)) by lia.
Qed.

Lemma optional_word_nonnul t : optional_word t = true -> Forall nonnul t.
Proof. intros (H & _ & _)%optional_word_inv. by apply word_Forall. Qed.

Lemma join_space_nonnul optional :
  forallb optional_word optional = true -> Forall nonnul (join_space optional).
Proof.
  destruct optional as [|t ts]; [constructor|].
  cbn [forallb join_space]. intros [Ht Hts]%andb_true_iff.
  apply Forall_app. split; [by apply optional_word_nonnul|].
  induction ts as [|u ts IH]; [constructor|].
  cbn [forallb] in Hts. apply andb_true_iff in Hts as [Hu Hts].
  cbn [map concat]. apply Forall_app. split; [|by apply IH].
  constructor; [done|by apply optional_word_nonnul].
Qed.

(** The entry of a line that follows the grammar. *)
Lemma entry_pure_grammar d1 d2 d3 d4 rt dir opts optional fs src sopts tail :
  is_digits d1 = true -> is_digits d2 = true ->
  is_digits d3 = true -> is_digits d4 = true ->
  word rt = true -> nonempty rt = true ->
  word dir = true -> word opts = true ->
  forallb optional_word optional = true ->
  word fs = true -> word src = true ->
  word sopts = true -> nonempty sopts = true ->
  line_end tail = true ->
  exists e,
    entry_pure (header_text d1 d2 d3 d4
                ++ fields_text rt dir opts optional fs src sopts ++ tail)
    = Some e
    /\ fields_of e
       = Fields (to_int (strtol false d1)) (to_int (strtol false d2))
           (to_uint (strtoul false d3)) (to_uint (strtoul false d4))
           (Some rt) (Some dir) (Some opts) (Some (join_space optional))
           (Some fs) (Some src) (Some sopts).
Proof.
  intros H1 H2 H3 H4 Hroot Hroot1 Hdir Hopts Hopt Hfs Hsrc Hsopts Hsopts1
    Htail.
  destruct rt as [|c rt]; [done|].
  destruct (word_cons _ _ Hroot) as [Hc _].
  set (hdr := header_text d1 d2 d3 d4).
  unfold entry_pure, leading_pure.
  assert (length optional
          < S (length (hdr ++ fields_text (c :: rt) dir opts optional fs
                         src sopts ++ tail))) as Hfuel.
  { pose proof (length_optional_text optional). unfold fields_text.
    repeat (rewrite length_app || rewrite length_cons). lia. }
  revert Hfuel.
  set (fuel := S (length _)). intros Hfuel.
  unfold fields_text. list_norm.
  unfold hdr. rewrite (header_digits d1 d2 d3 d4 c) by done.
  change (negb (h_nscanned _ =? 4)%Z) with false. cbv iota.
  cbn [h_offset_delta h_mount_id h_parent_id h_dev_major h_dev_minor].
  fold hdr. rewrite drop_app_length.
  set (pre0 := zeros (length hdr)).
  rewrite (app_comm_cons rt _ c).
  rewrite three_fields_words by done.
  rewrite optional_fields_pure_words by done.
  set (pre3 := ((pre0 ++ (c :: rt) ++ [NUL]) ++ dir ++ [NUL])
               ++ opts ++ [NUL]).
  set (pre4 := pre3 ++ join_space optional ++ zeros _).
  unfold three_fields.
  rewrite !scan_field_word by done.
  destruct (scan_field_last sopts tail Hsopts Hsopts1 Htail) as (k & r7 & ->).
  eexists. split; [reflexivity|].
  apply word_Forall in Hroot as [_ Hroot], Hdir as [_ Hdir],
    Hopts as [_ Hopts], Hfs as [_ Hfs], Hsrc as [_ Hsrc],
    Hsopts as [_ Hsopts].
  pose proof (join_space_nonnul _ Hopt) as Hjoin.
  unfold fields_of, field_string, at_buf.
  cbn [mount_id parent_id dev_major dev_minor root mount_dir mount_opts
         optional_fields fs_type mount_source super_opts line_buf].
  assert (exists z, zeros match optional with [] => 2 | _ :: _ => 3 end
                    = NUL :: z) as [z Hz]
    by (destruct optional; by eexists).
  change (zeros 1) with [NUL].
  f_equal; (apply field_at_cstring; [|done]); unfold pre4, pre3;
    rewrite ?Hz;
    repeat first [apply field_at_last | apply field_at_here
                 | apply field_at_app_r].
Qed.

Lemma is_digits_nonnul d : is_digits d = true -> Forall nonnul d.
Proof.
  intros (c & d' & _ & H & _)%is_digits_inv.
  eapply Forall_impl; [exact H|]. intros x Hx.
  unfold nonnul. apply Ascii.eqb_neq. by intros ->.
Qed.

Lemma line_end_nonnul tail : line_end tail = true -> Forall nonnul tail.
Proof.
  destruct tail as [|c t]; [constructor|].
  unfold line_end. intros [_ H]%andb_true_iff.
  rewrite forallb_forall in H. apply Forall_forall.
  intros x Hx%list_elem_of_In%H. unfold nonnul. by apply negb_true_iff.
Qed.

Lemma optional_text_nonnul optional :
  forallb optional_word optional = true ->
  Forall nonnul (concat (map (fun t => t ++ [" "%char]) optional)).
Proof.
  induction optional as [|t ts IH]; [constructor|].
  cbn [forallb map concat]. intros [Ht Hts]%andb_true_iff.
  rewrite !Forall_app. split; [split|by apply IH].
  - by apply optional_word_nonnul.
  - by repeat constructor.
Qed.

Lemma grammar_line_nonnul d1 d2 d3 d4 rt dir opts optional fs src sopts tail :
  is_digits d1 = true -> is_digits d2 = true ->
  is_digits d3 = true -> is_digits d4 = true ->
  word rt = true -> word dir = true -> word opts = true ->
  forallb optional_word optional = true ->
  word fs = true -> word src = true -> word sopts = true ->
  line_end tail = true ->
  Forall nonnul (header_text d1 d2 d3 d4
                 ++ fields_text rt dir opts optional fs src sopts ++ tail).
Proof.
  intros H1%is_digits_nonnul H2%is_digits_nonnul H3%is_digits_nonnul
    H4%is_digits_nonnul [_ Hrt]%word_Forall [_ Hdir]%word_Forall
    [_ Hopts]%word_Forall Hopt%optional_text_nonnul [_ Hfs]%word_Forall
    [_ Hsrc]%word_Forall [_ Hsopts]%word_Forall Htail%line_end_nonnul.
  unfold header_text, fields_text.
  repeat (rewrite Forall_app || rewrite Forall_cons).
  repeat split; try done.
Qed.

(** The run of the parser on a line that follows the grammar. *)
Lemma parse_grammar_line d1 d2 d3 d4 rt dir opts optional fs src sopts tail :
  is_digits d1 = true -> is_digits d2 = true ->
  is_digits d3 = true -> is_digits d4 = true ->
  word rt = true -> nonempty rt = true ->
  word dir = true -> word opts = true ->
  forallb optional_word optional = true ->
  word fs = true -> word src = true ->
  word sopts = true -> nonempty sopts = true ->
  line_end tail = true ->
  exists e m,
    sc_parse_mountinfo_entry false line_ptr
      (line_memory (header_text d1 d2 d3 d4
                    ++ fields_text rt dir opts optional fs src sopts ++ tail))
    = Done (Some e) m
    /\ fields_of e
       = Fields (to_int (strtol false d1)) (to_int (strtol false d2))
           (to_uint (strtoul false d3)) (to_uint (strtoul false d4))
           (Some rt) (Some dir) (Some opts) (Some (join_space optional))
           (Some fs) (Some src) (Some sopts).
Proof.
  intros. rewrite entry_run. unfold parse_result.
  rewrite c_string_id by (by apply grammar_line_nonnul).
  destruct (entry_pure_grammar d1 d2 d3 d4 rt dir opts optional fs src sopts
              tail) as (e & -> & He); try done.
  by eexists e, _.
Qed.

(** ** Printing the numbers *)

Lemma digits_value_snoc ds c :
  digits_value (ds ++ [c]) = (digits_value ds * 10 + digit_value c)%Z.
Proof. unfold digits_value. by rewrite fold_left_app. Qed.

Lemma digit_value_range c :
  isdigit c = true -> (0 <= digit_value c <= 9)%Z.
Proof. intros H%isdigit_range. unfold digit_value. lia. Qed.

Lemma digit_char_value c : isdigit c = true -> digit_char (digit_value c) = c.
Proof.
  intros H%isdigit_range. unfold digit_char, digit_value.
  replace (48 + (Z.of_N (N_of_ascii c) - 48))%Z with (Z.of_N (N_of_ascii c))
    by lia.
  by rewrite N2Z.id, ascii_N_embedding.
Qed.

Lemma digits_value_nonneg ds :
  Forall (fun c => isdigit c = true) ds -> (0 <= digits_value ds)%Z.
Proof.
  induction ds as [|c ds IH] using rev_ind; [done|].
  intros [Hds Hc]%Forall_app. inversion Hc as [|? ? Hc' _]; subst.
  rewrite digits_value_snoc. specialize (IH Hds).
  pose proof (digit_value_range _ Hc'). lia.
Qed.

Lemma digits_value_pos c ds :
  Forall (fun c => isdigit c = true) (c :: ds) ->
  Ascii.eqb c "0" = false -> (1 <= digits_value (c :: ds))%Z.
Proof.
  intros Hall Hc. induction ds as [|d ds IH] using rev_ind.
  - inversion Hall as [|? ? Hd _]; subst.
    pose proof (isdigit_range _ Hd) as Hr.
    assert (N_of_ascii c <> 48%N) as Hne.
    { intros E. apply Ascii.eqb_neq in Hc. apply Hc.
      rewrite <- (ascii_N_embedding c), E. done. }
    unfold digits_value, digit_value. simpl. lia.
  - rewrite app_comm_cons in Hall |- *.
    apply Forall_app in Hall as [Hall Hd].
    inversion Hd as [|? ? Hd' _]; subst.
    rewrite digits_value_snoc. specialize (IH Hall).
    pose proof (digit_value_range _ Hd'). lia.
Qed.

Lemma canonical_inv d :
  canonical d = true ->
  is_digits d = true /\ Forall (fun c => isdigit c = true) d.
Proof.
  unfold canonical. intros [H _]%andb_true_iff. split; [done|].
  by destruct (is_digits_inv _ H) as (c & d' & _ & Hall & _).
Qed.

Lemma canonical_snoc c0 ds c :
  canonical ((c0 :: ds) ++ [c]) = true ->
  canonical (c0 :: ds) = true /\ Ascii.eqb c0 "0" = false
  /\ isdigit c = true.
Proof.
  unfold canonical, is_digits. cbn [app nonempty andb forallb].
  rewrite forallb_app. cbn [forallb].
  rewrite !andb_true_iff.
  intros [(Hc0 & Hds & Hc & _) Hlead].
  assert (Ascii.eqb c0 "0" = false) as H0.
  { destruct ds; simpl in Hlead; by apply negb_true_iff. }
  split; [|done]. split; [done|]. destruct ds; [done|].
  by apply negb_true_iff.
Qed.

(** Printing the value of a canonical numeral gives the numeral back. *)
Lemma decimal_digits_value d :
  forall fuel,
    canonical d = true -> (digits_value d < 10 ^ Z.of_nat fuel)%Z ->
    0 < fuel ->
    decimal_digits fuel (digits_value d) = d.
Proof.
  induction d as [|c ds IH] using rev_ind; intros fuel Hcan Hlt Hfuel;
    [done|].
  destruct fuel as [|fuel]; [lia|]. cbn [decimal_digits].
  rewrite digits_value_snoc in *.
  destruct ds as [|c0 ds].
  - apply canonical_inv in Hcan as [_ Hall].
    inversion Hall as [|? ? Hc _]; subst.
    pose proof (digit_value_range _ Hc) as Hr.
    change (digits_value []) with 0%Z.
    replace (0 * 10 + digit_value c)%Z with (digit_value c) by lia.
    replace (digit_value c <? 10)%Z with true by (symmetry; apply Z.ltb_lt; lia).
    by rewrite digit_char_value.
  - apply canonical_snoc in Hcan as (Hcan & H0 & Hc).
    pose proof (canonical_inv _ Hcan) as [_ Hall].
    pose proof (digits_value_pos _ _ Hall H0) as Hpos.
    pose proof (digit_value_range _ Hc) as Hr.
    set (v := digits_value (c0 :: ds)) in *.
    replace (v * 10 + digit_value c <? 10)%Z with false
      by (symmetry; apply Z.ltb_ge; lia).
    assert ((v * 10 + digit_value c) / 10 = v)%Z as ->
      by (rewrite Z.div_add_l by lia; rewrite Z.div_small by lia; lia).
    assert ((v * 10 + digit_value c) mod 10 = digit_value c)%Z as ->
      by (rewrite Z.add_comm, Z.mod_add by lia; apply Z.mod_small; lia).
    rewrite digit_char_value by done.
    rewrite Nat2Z.inj_succ, Z.pow_succ_r in Hlt by lia.
    rewrite IH; [done|done|lia|].
    destruct fuel; [|lia]. simpl in Hlt. lia.
Qed.

Lemma print_uint_value d :
  canonical d = true -> (digits_value d < 2 ^ 32)%Z ->
  print_uint (to_uint (strtoul false d)) = d.
Proof.
  intros Hcan Hlt. pose proof (canonical_inv _ Hcan) as [_ Hall].
  pose proof (digits_value_nonneg _ Hall) as H0.
  unfold to_uint, strtoul, ULONG_MAX.
  replace (2 ^ 64 - 1 <? digits_value d)%Z with false
    by (symmetry; apply Z.ltb_ge; lia).
  rewrite Z.mod_small by lia.
  apply decimal_digits_value; [done|simpl; lia|lia].
Qed.

Lemma print_int_value d :
  canonical d = true -> (digits_value d < 2 ^ 31)%Z ->
  print_int (to_int (strtol false d)) = d.
Proof.
  intros Hcan Hlt. pose proof (canonical_inv _ Hcan) as [_ Hall].
  pose proof (digits_value_nonneg _ Hall) as H0.
  unfold to_int, strtol, LONG_MAX, print_int.
  rewrite Z.min_l by lia.
  rewrite Z.mod_small by lia.
  replace (digits_value d + 2 ^ 31 - 2 ^ 31)%Z with (digits_value d) by lia.
  replace (digits_value d <? 0)%Z with false
    by (symmetry; apply Z.ltb_ge; lia).
  apply decimal_digits_value; [done|simpl; lia|lia].
Qed.

Lemma join_space_text t ts :
  join_space (t :: ts) ++ [" "%char]
  = concat (map (fun u => u ++ [" "%char]) (t :: ts)).
Proof.
  revert t. induction ts as [|u ts IH]; intros t.
  - cbn. by rewrite !app_nil_r.
  - specialize (IH u). cbn [join_space map concat] in *.
    rewrite <- IH. by list_norm.
Qed.

Lemma optional_newline_end tail :
  optional_newline tail = true -> line_end tail = true.
Proof.
  destruct tail as [|c [|? ?]]; [done| |done].
  simpl. intros ->%Ascii.eqb_eq. done.
Qed.

Lemma join_space_optional optional :
  forallb optional_word optional = true ->
  match join_space optional with [] => [] | o => [o] end
  = match optional with [] => [] | _ => [join_space optional] end.
Proof.
  destruct optional as [|t ts]; [done|].
  cbn [forallb]. intros [(_ & Hne & _)%optional_word_inv _]%andb_true_iff.
  destruct t; [done|]. done.
Qed.

(** ** The root *)








(** ** Reading the output of veritysetup *)

Lemma cut_at_None sep s :
  cut_at sep s = None <-> existsb (Ascii.eqb sep) s = false.
Proof.
  induction s as [|c s IH]; simpl; [done|].
  rewrite (Ascii.eqb_sym sep c).
  destruct (Ascii.eqb c sep); simpl; [done|].
  destruct (cut_at sep s) as [[a b]|]; [|tauto].
  split; [done|]. intros H. apply IH in H. done.
Qed.

Lemma has_colon_cut line :
  has_colon line = true -> exists a b, cut_at ":" line = Some (a, b).
Proof.
  unfold has_colon. intros H.
  destruct (cut_at ":" line) as [[a b]|] eqn:E; [by eexists _, _|].
  apply cut_at_None in E. congruence.
Qed.

(** The loop, when every line beginning with [Root hash] has a colon. *)
Lemma scan_loop_value tokens :
  forall rootHash,
    root_hash_lines_have_colon tokens = true ->
    scan_loop tokens rootHash
    = Returned
        (match last (filter (fun l => begins_with_Root_hash l = true) tokens)
         with
         | Some l => colon_value l
         | None => rootHash
         end).
Proof.
  induction tokens as [|line rest IH]; intros acc Hall; [done|].
  cbn [root_hash_lines_have_colon forallb] in Hall.
  apply andb_true_iff in Hall as [Hline Hall].
  cbn [scan_loop]. fold (begins_with_Root_hash line).
  destruct (begins_with_Root_hash line) eqn:Ep.
  - rewrite filter_cons_True by done. rewrite last_cons.
    simpl in Hline. destruct (has_colon_cut _ Hline) as (a & b & Hcut).
    unfold SplitN_2. rewrite Hcut. cbn [lookup list_lookup].
    rewrite IH by done.
    destruct (last _); [done|]. unfold colon_value. by rewrite Hcut.
  - rewrite filter_cons_False by (by rewrite Ep). by apply IH.
Qed.

(** The loop, when a line beginning with [Root hash] has no colon. *)
Lemma scan_loop_panics tokens line :
  forall rootHash,
    In line tokens ->
    begins_with_Root_hash line = true -> has_colon line = false ->
    scan_loop tokens rootHash = Panic.
Proof.
  induction tokens as [|l rest IH]; intros acc Hin Hp Hc; [done|].
  cbn [scan_loop]. destruct Hin as [-> | Hin].
  - unfold begins_with_Root_hash in Hp. rewrite Hp.
    apply cut_at_None in Hc. unfold SplitN_2. by rewrite Hc.
  - destruct (HasPrefix l Root_hash); [|by apply IH].
    destruct (SplitN_2 l ":" !! 1); [by apply IH|done].
Qed.

Lemma getRootHashFromOutput_value output :
  root_hash_lines_have_colon (scanned_lines output) = true ->
  getRootHashFromOutput output
  = Returned
      (match scan_error output with
       | Some e => ([], Some e)
       | None =>
           if nonempty (last_root_hash_value (scanned_lines output))
           then (last_root_hash_value (scanned_lines output), None)
           else ([], Some ErrEmptyRootHash)
       end).
Proof.
  unfold getRootHashFromOutput, scanned_lines, scan_error,
    last_root_hash_value.
  destruct (scan_tokens (raw_lines output)) as [tokens err].
  cbn [fst snd]. intros Hall. rewrite scan_loop_value by done.
  destruct err; [done|].
  destruct (last _) as [l|]; [|done].
  by destruct (colon_value l).
Qed.

(** * The claims about mountinfo.c *)

(** C2: the line of the kernel documentation parses to mount_id 36,
    parent_id 35, device 98:0, root "/mnt1", mount_dir "/mnt2", mount_opts
    "rw,noatime", optional_fields "master:1", fs_type "ext3", mount_source
    "/dev/root" and super_opts "rw,errors=continue"; with the optional
    fields "master:1 shared:2" the entry's optional_fields is that string,
    the two tokens joined by one space. *)
Theorem example_lines_parse :
  (exists e m,
     sc_parse_mountinfo_entry false line_ptr (line_memory example_line)
     = Done (Some e) m
     /\ fields_of e
        = Fields 36 35 98 0 (Some (str "/mnt1")) (Some (str "/mnt2"))
            (Some (str "rw,noatime")) (Some (str "master:1"))
            (Some (str "ext3")) (Some (str "/dev/root"))
            (Some (str "rw,errors=continue")))
  /\ (exists e m,
        sc_parse_mountinfo_entry false line_ptr
          (line_memory example_line_shared)
        = Done (Some e) m
        /\ fields_of e
           = Fields 36 35 98 0 (Some (str "/mnt1")) (Some (str "/mnt2"))
               (Some (str "rw,noatime")) (Some (str "master:1 shared:2"))
               (Some (str "ext3")) (Some (str "/dev/root"))
               (Some (str "rw,errors=continue"))).
Proof.
  split; eexists; eexists; (split; [vm_compute; reflexivity|]);
    vm_compute; reflexivity.
Qed.

(** C3: a line with no white-space delimited token "-" after its three
    leading string fields yields no entry, and a source that delivers such
    a line yields no table: every entry parsed from the lines before it is
    released, whatever the other lines are. *)
Theorem missing_separator_fails
    (calloc_fails : nat -> bool) (fopen : list ascii -> option line_source)
    (fname : option (list ascii)) (source : line_source) (i : nat)
    (line : list ascii) :
  has_separator line = false ->
  (forall oom, exists m,
      sc_parse_mountinfo_entry oom line_ptr (line_memory line) = Done None m)
  /\ (calloc_fails 0 = false ->
      fopen (match fname with Some f => f | None => default_fname end)
      = Some source ->
      src_lines source !! i = Some line ->
      sc_parse_mountinfo calloc_fails fopen fname
      = TableNull (parsed_prefix calloc_fails 1 (src_lines source))).
Proof.
  intros Hsep.
  assert (forall oom, parse_result oom line = None) as Hnone.
  { intros [|]; [done|]. by apply no_separator_no_entry. }
  split.
  - intros oom. rewrite entry_run, Hnone. by eexists.
  - intros Hinfo Hopen Hline. unfold sc_parse_mountinfo.
    rewrite Hinfo, Hopen.
    rewrite (read_entries_fails _ _ _ _ _ i line Hline).
    + done.
    + by rewrite entry_of_eq.
Qed.

Lemma missing_separator_fails_witness :
  has_separator line_without_separator = false
  /\ (exists m,
        sc_parse_mountinfo_entry false line_ptr
          (line_memory line_without_separator) = Done None m)
  /\ sc_parse_mountinfo (fun _ => false)
       (fun _ => Some (Source [example_line; line_without_separator;
                               example_line_shared] false))
       None
     = TableNull (parsed_prefix (fun _ => false) 1
                    [example_line; line_without_separator;
                     example_line_shared])
  /\ length (parsed_prefix (fun _ => false) 1
               [example_line; line_without_separator; example_line_shared])
     = 1.
Proof.
  assert (has_separator line_without_separator = false) as H
    by (vm_compute; reflexivity).
  split; [exact H|].
  destruct (missing_separator_fails (fun _ => false)
              (fun _ => Some (Source [example_line; line_without_separator;
                                      example_line_shared] false))
              None
              (Source [example_line; line_without_separator;
                       example_line_shared] false)
              1 line_without_separator H) as [A B].
  split; [apply A|].
  split; [apply B; reflexivity|].
  vm_compute; reflexivity.
Defined.

(** C4, amended: on a line that follows the grammar, with its four
    numbers written canonically and in the range of their types, the
    concatenation of the numbers and of the string fields of the entry,
    joined by single spaces, is the line without its newline. *)
Theorem grammar_line_round_trip
    (d1 d2 d3 d4 rt dir opts : list ascii) (optional : list (list ascii))
    (fs src sopts tail : list ascii) :
  canonical d1 = true -> (digits_value d1 < 2 ^ 31)%Z ->
  canonical d2 = true -> (digits_value d2 < 2 ^ 31)%Z ->
  canonical d3 = true -> (digits_value d3 < 2 ^ 32)%Z ->
  canonical d4 = true -> (digits_value d4 < 2 ^ 32)%Z ->
  word rt = true -> nonempty rt = true ->
  word dir = true -> word opts = true ->
  forallb optional_word optional = true ->
  word fs = true -> word src = true ->
  word sopts = true -> nonempty sopts = true ->
  optional_newline tail = true ->
  exists e m,
    sc_parse_mountinfo_entry false line_ptr
      (line_memory (header_text d1 d2 d3 d4
                    ++ fields_text rt dir opts optional fs src sopts ++ tail))
    = Done (Some e) m
    /\ rejoin (fields_of e)
       = header_text d1 d2 d3 d4
         ++ fields_text rt dir opts optional fs src sopts.
Proof.
  intros C1 V1 C2 V2 C3 V3 C4 V4 Hrt Hrt1 Hdir Hopts Hopt Hfs Hsrc Hsopts
    Hsopts1 Htail.
  destruct (parse_grammar_line d1 d2 d3 d4 rt dir opts optional fs src sopts
              tail) as (e & m & Hrun & He);
    try done; try (by apply canonical_inv); try (by apply optional_newline_end).
  exists e, m. split; [done|].
  rewrite He. unfold rejoin.
  cbn [f_mount_id f_parent_id f_dev_major f_dev_minor f_root f_mount_dir
         f_mount_opts f_optional_fields f_fs_type f_mount_source
         f_super_opts from_option].
  unfold id.
  rewrite !print_int_value, !print_uint_value by done.
  rewrite join_space_optional by done.
  unfold header_text, fields_text. list_norm. do 8 f_equal.
  destruct optional as [|t ts].
  - unfold dash, str. cbn. list_norm. by rewrite ?app_nil_r.
  - rewrite <- (join_space_text t ts).
    set (J := join_space (t :: ts)). unfold dash, str.
    cbn [app join_space map concat list_ascii_of_string]. list_norm.
    by rewrite ?app_nil_r.
Qed.

Lemma grammar_line_round_trip_witness :
  exists e m,
    sc_parse_mountinfo_entry false line_ptr
      (line_memory (example_line_shared ++ [newline]))
    = Done (Some e) m
    /\ rejoin (fields_of e) = example_line_shared.
Proof.
  apply (grammar_line_round_trip (str "36") (str "35") (str "98") (str "0")
           (str "/mnt1") (str "/mnt2") (str "rw,noatime")
           [str "master:1"; str "shared:2"] (str "ext3")
           (str "/dev/root") (str "rw,errors=continue") [newline]);
    reflexivity.
Defined.

(** C4 as stated fails: the parser accepts a line on which text follows
    super_opts, and the concatenation then lacks that text: it is not the
    line, and it has other tokens than the line. *)
Lemma round_trip_loses_text :
  exists e m,
    sc_parse_mountinfo_entry false line_ptr (line_memory line_with_more_text)
    = Done (Some e) m
    /\ rejoin (fields_of e) = str "1 1 0:1 / / rw - tmpfs none rw"
    /\ line_with_more_text = str "1 1 0:1 / / rw - tmpfs none rw 0 0"
    /\ rejoin (fields_of e) <> line_with_more_text
    /\ tokens (rejoin (fields_of e)) <> tokens line_with_more_text.
Proof.
  eexists. eexists. split; [vm_compute; reflexivity|].
  split; [vm_compute; reflexivity|].
  split; [reflexivity|].
  split; vm_compute; discriminate.
Qed.

(** C5: a newline at the end of the line changes nothing: with and
    without it the parser returns, and either both runs give no entry or
    both give entries with the same eleven fields. *)
Theorem trailing_newline_tolerated (oom : bool) (s : list ascii) :
  exists r r' m m',
    sc_parse_mountinfo_entry oom line_ptr (line_memory s) = Done r m
    /\ sc_parse_mountinfo_entry oom line_ptr (line_memory (s ++ [newline]))
       = Done r' m'
    /\ option_map fields_of r' = option_map fields_of r.
Proof.
  rewrite !entry_run. do 4 eexists. split; [reflexivity|].
  split; [reflexivity|].
  unfold parse_result. destruct oom; [done|].
  destruct (c_string_snoc s newline eq_refl) as [-> | ->]; [done|].
  pose proof (entry_pure_newline (c_string s)) as H.
  destruct (entry_pure (c_string s)) as [e|] eqn:E; [|by rewrite H].
  destruct H as (B & HB & ->). cbn [option_map]. f_equal.
  eapply fields_of_extra_nul; [apply c_string_nonnul|done..].
Qed.

(** C6: when the separator follows mount_opts at once, and the line is
    otherwise as the grammar says (numbers, fields separated by single
    spaces, nothing or white space after super_opts), the parser returns
    an entry whose optional_fields is a non-null pointer to the
    zero-length string. *)
Theorem empty_optional_fields
    (d1 d2 d3 d4 rt dir opts fs src sopts tail : list ascii) :
  is_digits d1 = true -> is_digits d2 = true ->
  is_digits d3 = true -> is_digits d4 = true ->
  word rt = true -> nonempty rt = true ->
  word dir = true -> word opts = true ->
  word fs = true -> word src = true ->
  word sopts = true -> nonempty sopts = true ->
  line_end tail = true ->
  exists e m,
    sc_parse_mountinfo_entry false line_ptr
      (line_memory (header_text d1 d2 d3 d4
                    ++ fields_text rt dir opts [] fs src sopts ++ tail))
    = Done (Some e) m
    /\ is_null (optional_fields e) = false
    /\ field_string e (optional_fields e) = Some []
    /\ fields_of e
       = Fields (to_int (strtol false d1)) (to_int (strtol false d2))
           (to_uint (strtoul false d3)) (to_uint (strtoul false d4))
           (Some rt) (Some dir) (Some opts) (Some [])
           (Some fs) (Some src) (Some sopts).
Proof.
  intros.
  destruct (parse_grammar_line d1 d2 d3 d4 rt dir opts [] fs src sopts tail)
    as (e & m & Hrun & He); try done.
  exists e, m. split; [done|].
  assert (field_string e (optional_fields e) = Some []) as Hopt
    by (by injection He).
  split; [|done].
  unfold field_string in Hopt. by destruct (optional_fields e).
Qed.

Lemma empty_optional_fields_witness :
  exists e m,
    sc_parse_mountinfo_entry false line_ptr
      (line_memory (header_text (str "36") (str "35") (str "98") (str "0")
                    ++ fields_text (str "/mnt1") (str "/mnt2")
                         (str "rw,noatime") [] (str "ext3")
                         (str "/dev/root") (str "rw,errors=continue")
                    ++ [newline]))
    = Done (Some e) m
    /\ is_null (optional_fields e) = false
    /\ field_string e (optional_fields e) = Some []
    /\ fields_of e
       = Fields 36 35 98 0 (Some (str "/mnt1")) (Some (str "/mnt2"))
           (Some (str "rw,noatime")) (Some []) (Some (str "ext3"))
           (Some (str "/dev/root")) (Some (str "rw,errors=continue")).
Proof.
  apply (empty_optional_fields (str "36") (str "35") (str "98") (str "0")
           (str "/mnt1") (str "/mnt2") (str "rw,noatime") (str "ext3")
           (str "/dev/root") (str "rw,errors=continue") [newline]);
    reflexivity.
Defined.




(** C10: parsing never writes to the line.  Every store of the parser
    lands inside [line_buf] of the entry it allocated, whose size is
    the length of the line plus one: the run ends without a fault, and
    the block of the line holds the same bytes after it, whether an
    entry is returned or not. *)
Theorem line_is_not_modified (oom : bool) (s : list ascii) :
  exists r buf,
    sc_parse_mountinfo_entry oom line_ptr (line_memory s)
    = Done r (Mem (line_mem (line_memory s)) buf)
    /\ match r with
       | Some e => buf = line_buf e /\ length buf = length (c_string s) + 1
       | None => buf = []
       end.
Proof.
  rewrite entry_run. eexists. eexists. split; [reflexivity|].
  destruct (parse_result oom s) as [e|] eqn:E; [|done].
  split; [done|].
  unfold parse_result in E. destruct oom; [done|].
  apply entry_pure_inv in E
    as (o1 & o2 & o3 & o4 & o5 & o6 & o7 & pre7 & r7 & -> & _ & [-> Hle]
        & _); [|apply c_string_nonnul].
  cbn [line_buf]. rewrite length_app, length_zeros, length_drop. lia.
Qed.

(** * The claims about veritysetup.go *)

(** C1, amended: the extracted root hash is the value of the last line
    beginning with "Root hash" (the text after its first colon, trimmed),
    for every output the scanner reads to its end, in which each such
    line has a colon and the last one a value that is not empty. *)
Theorem root_hash_of_last_line (output line : list ascii) :
  scan_error output = None ->
  root_hash_lines_have_colon (scanned_lines output) = true ->
  last (filter (fun l => begins_with_Root_hash l = true)
          (scanned_lines output)) = Some line ->
  nonempty (colon_value line) = true ->
  getRootHashFromOutput output = Returned (colon_value line, None).
Proof.
  intros Herr Hall Hlast Hne.
  rewrite getRootHashFromOutput_value by done.
  unfold last_root_hash_value. by rewrite Herr, Hlast, Hne.
Qed.

Lemma root_hash_of_last_line_witness :
  getRootHashFromOutput output_two_hashes = Returned (str "bbb", None).
Proof.
  apply (root_hash_of_last_line output_two_hashes (str "Root hash: bbb"));
    reflexivity.
Defined.

(** C1 as stated fails: of two lines beginning with "Root hash" the
    extraction returns the value of the second, not of the first. *)
Lemma root_hash_is_not_of_first_line :
  first_root_hash_value output_two_hashes = Some (str "aaa")
  /\ getRootHashFromOutput output_two_hashes = Returned (str "bbb", None).
Proof. split; reflexivity. Qed.

(** C8, amended: when every line beginning with "Root hash" that the
    scanner delivers has a colon, [Format] returns, and it returns an
    error and no Info exactly if the command failed, or the scanner
    stopped with an error (a line that does not fit its buffer), or the
    value of the last line beginning with "Root hash" is empty (which
    includes that there is no such line); otherwise it returns an Info
    whose RootHash is not empty. *)
Theorem format_fails_iff
    (run : list ascii -> list ascii -> list ascii * option nat)
    (dataDevice hashDevice output : list ascii) (cmd_err : option nat) :
  run dataDevice hashDevice = (output, cmd_err) ->
  failed cmd_err || root_hash_lines_have_colon (scanned_lines output) = true ->
  exists info err,
    Format run dataDevice hashDevice = Returned (info, err)
    /\ failed err
       = failed cmd_err || failed (scan_error output)
         || negb (nonempty (last_root_hash_value (scanned_lines output)))
    /\ failed info = negb (failed err)
    /\ match info with
       | Some i => nonempty (RootHash i) = true
       | None => True
       end.
Proof.
  intros Hrun Hok. unfold Format. rewrite Hrun.
  destruct cmd_err as [e|]; [by eexists _, _|].
  cbn [failed orb] in Hok |- *.
  rewrite getRootHashFromOutput_value by done.
  destruct (scan_error output) as [e|]; [by eexists _, _|].
  cbn [failed orb].
  destruct (nonempty (last_root_hash_value (scanned_lines output))) eqn:E;
    by eexists _, _.
Qed.

Lemma format_fails_iff_witness :
  exists hash,
    Format (fun _ _ => (output_veritysetup, None)) (str "data.img")
      (str "hash.img")
    = Returned (Some (MkInfo hash), None)
    /\ length hash = 64.
Proof.
  destruct (format_fails_iff (fun _ _ => (output_veritysetup, None))
              (str "data.img") (str "hash.img") output_veritysetup None
              eq_refl eq_refl) as (info & err & H & _).
  vm_compute in H. injection H as <- <-.
  eexists. split; reflexivity.
Defined.

(** C8 as stated fails: the command succeeds, its output has a line
    beginning with "Root hash" whose value "abc" is not empty, and
    [Format] still returns an error and no Info, because a later line
    does not fit the scanner's buffer. *)
Lemma format_fails_on_long_line :
  first_root_hash_value output_long_line = Some (str "abc")
  /\ last_root_hash_value (scanned_lines output_long_line) = str "abc"
  /\ Format (fun _ _ => (output_long_line, None)) (str "data.img")
       (str "hash.img")
     = Returned (None, Some ErrTooLong).
Proof.
  split; [vm_compute; reflexivity|].
  split; vm_compute; reflexivity.
Qed.

(** C9: the extraction is not total.  When the scanner delivers a line
    that begins with "Root hash" and has no colon, indexing the result of
    the split at 1 panics: the function returns neither a value nor an
    error, and neither does [Format] when the command left this output. *)
Theorem extraction_panics_without_colon
    (output line : list ascii)
    (run : list ascii -> list ascii -> list ascii * option nat)
    (dataDevice hashDevice : list ascii) :
  In line (scanned_lines output) ->
  begins_with_Root_hash line = true ->
  has_colon line = false ->
  SplitN_2 line ":" !! 1 = None
  /\ getRootHashFromOutput output = Panic
  /\ (run dataDevice hashDevice = (output, None) ->
      Format run dataDevice hashDevice = Panic).
Proof.
  intros Hin Hp Hc.
  assert (getRootHashFromOutput output = Panic) as Hpanic.
  { unfold getRootHashFromOutput, scanned_lines in *.
    destruct (scan_tokens (raw_lines output)) as [tokens err].
    by rewrite (scan_loop_panics tokens line). }
  split; [|split; [done|]].
  - apply cut_at_None in Hc. unfold SplitN_2. by rewrite Hc.
  - intros Hrun. unfold Format. by rewrite Hrun, Hpanic.
Qed.

Lemma extraction_panics_without_colon_witness :
  SplitN_2 output_no_colon ":" !! 1 = None
  /\ getRootHashFromOutput output_no_colon = Panic
  /\ Format (fun _ _ => (output_no_colon, None)) (str "data.img")
       (str "hash.img") = Panic.
Proof.
  destruct (extraction_panics_without_colon output_no_colon output_no_colon
              (fun _ _ => (output_no_colon, None)) (str "data.img")
              (str "hash.img")) as (A & B & C).
  - left. reflexivity.
  - reflexivity.
  - reflexivity.
  - split; [exact A|]. split; [exact B|]. apply C. reflexivity.
Defined.

(** * Further properties of mountinfo.c *)

(** ** The list of the entries in the heap *)

Section HeapTable.

Import Heap.

Implicit Types (h : heap) (p q : option addr) (a : addr)
  (cells : list (addr * sc_mountinfo_entry)).

Lemma lseg_app h cells1 cells2 p q :
  lseg h p (cells1 ++ cells2) q
  <-> exists r, lseg h p cells1 r /\ lseg h r cells2 q.
Proof.
  revert p. induction cells1 as [|[a e] cells1 IH]; intros p; simpl.
  - split; [intros H; by exists p|by intros (r & -> & H)].
  - split.
    + intros (-> & next & Ha & Hs). apply IH in Hs as (r & H1 & H2).
      exists r. split; [|done]. split; [done|]. by exists next.
    + intros (r & (-> & next & Ha & H1) & H2). split; [done|].
      exists next. split; [done|]. apply IH. by exists r.
Qed.

Lemma lseg_lookup h cells p q a :
  lseg h p cells q -> a ∈ cells.*1 -> is_Some (h !! a).
Proof.
  revert p. induction cells as [|[b e] cells IH]; intros p; simpl.
  - intros _ Ha. by apply elem_of_nil in Ha.
  - intros (-> & next & Hb & Hs) Ha. apply elem_of_cons in Ha as [->|Ha].
    + by eexists.
    + by eapply IH.
Qed.

Lemma lseg_insert_other h cells p q a o :
  a ∉ cells.*1 -> lseg h p cells q -> lseg (<[a := o]> h) p cells q.
Proof.
  revert p. induction cells as [|[b e] cells IH]; intros p; simpl; [done|].
  intros Ha (-> & next & Hb & Hs). apply not_elem_of_cons in Ha as [Hab Ha].
  split; [done|]. exists next. split; [|by apply IH].
  by rewrite lookup_insert_ne.
Qed.

Lemma lseg_delete_other h cells p q a :
  a ∉ cells.*1 -> lseg h p cells q -> lseg (delete a h) p cells q.
Proof.
  revert p. induction cells as [|[b e] cells IH]; intros p; simpl; [done|].
  intros Ha (-> & next & Hb & Hs). apply not_elem_of_cons in Ha as [Hab Ha].
  split; [done|]. exists next. split; [|by apply IH].
  by rewrite lookup_delete_ne.
Qed.

Lemma table_lookup h0 info cells h a :
  table h0 info cells h -> a ∈ info :: cells.*1 -> is_Some (h !! a).
Proof.
  intros (_ & _ & _ & Hinfo & Hseg) Ha. apply elem_of_cons in Ha as [->|Ha].
  - by eexists.
  - by eapply lseg_lookup.
Qed.

Lemma table_start h0 :
  table h0 (fresh (dom h0)) [] (<[fresh (dom h0) := InfoObj None]> h0).
Proof.
  pose proof (is_fresh (dom h0)) as Hfresh. apply not_elem_of_dom in Hfresh.
  split; [apply NoDup_singleton|]. split; [|split; [|split]].
  - intros a Ha. apply list_elem_of_singleton in Ha. by subst.
  - intros a Ha. rewrite lookup_insert_ne; [done|].
    intros <-. apply Ha. by apply list_elem_of_singleton.
  - by rewrite lookup_insert_eq.
  - done.
Qed.

(** One round of the loop: the new entry at [a] becomes the last cell. *)
Lemma table_snoc h0 info cells h a e :
  table h0 info cells h -> h !! a = None ->
  exists h',
    match last cells.*1 with
    | Some l => store_next l (Some a)
    | None => store_first info (Some a)
    end (<[a := EntryObj e None]> h) = Some (tt, h')
    /\ table h0 info (cells ++ [(a, e)]) h'.
Proof.
  intros Htable Ha.
  assert (a ∉ info :: cells.*1) as Hnew.
  { intros Hin. destruct (table_lookup _ _ _ _ _ Htable Hin) as [o Ho].
    congruence. }
  destruct Htable as (Hdup & Hfree & Hold & Hinfo & Hseg).
  apply not_elem_of_cons in Hnew as [Hainfo Hacells].
  apply NoDup_cons in Hdup as [Hinfocells Hdup].
  assert (h0 !! a = None) as Ha0.
  { rewrite <- Hold; [done|]. by apply not_elem_of_cons. }
  destruct cells as [|[l el] cells _] using rev_ind.
  - simpl in *. unfold store_first.
    rewrite lookup_insert_ne, Hinfo by done.
    eexists. split; [done|].
    split; [|split; [|split; [|split]]].
    + apply NoDup_cons. split; [|apply NoDup_singleton].
      intros Hin. by apply list_elem_of_singleton in Hin.
    + intros x Hx. apply elem_of_cons in Hx as [->|Hx]; [by apply Hfree; left|].
      apply list_elem_of_singleton in Hx. by subst.
    + intros x Hx. apply not_elem_of_cons in Hx as [Hx1 Hx2].
      apply not_elem_of_cons in Hx2 as [Hx2 _].
      simpl in Hx2. rewrite !lookup_insert_ne by done. apply Hold.
      apply not_elem_of_cons. split; [done|apply not_elem_of_nil].
    + by rewrite lookup_insert_eq.
    + simpl. split; [done|]. exists None. split; [|done].
      by rewrite lookup_insert_ne, lookup_insert_eq.
  - rewrite fmap_app in *. simpl in *. rewrite last_snoc.
    apply lseg_app in Hseg as (r & Hinit & Hlast). simpl in Hlast.
    destruct Hlast as (-> & next & Hl & ->).
    apply not_elem_of_app in Hacells as [Hacells Hal].
    apply not_elem_of_cons in Hal as [Hal _].
    apply not_elem_of_app in Hinfocells as [Hinfocells Hinfol].
    apply not_elem_of_cons in Hinfol as [Hinfol _].
    apply NoDup_app in Hdup as (Hdup & Hlcells & _).
    assert (l ∉ cells.*1) as Hl'.
    { intros Hin. apply (Hlcells _ Hin). by left. }
    unfold store_next. rewrite lookup_insert_ne, Hl by done.
    eexists. split; [done|].
    assert (forall X : list addr, head ((cells.*1 ++ [l]) ++ X)
                                  = head (cells.*1 ++ [l])) as Hhead.
    { intros X. destruct (cells.*1); done. }
    split; [|split; [|split; [|split]]].
    + rewrite !fmap_app. simpl. apply NoDup_cons. split.
      * rewrite !not_elem_of_app, !not_elem_of_cons.
        repeat split; try done; apply not_elem_of_nil.
      * apply NoDup_app. split; [|split].
        -- apply NoDup_app. split; [done|]. split; [done|apply NoDup_singleton].
        -- intros x Hx Hxa. apply list_elem_of_singleton in Hxa. subst x.
           apply elem_of_app in Hx as [Hx|Hx]; [done|].
           by apply list_elem_of_singleton in Hx.
        -- apply NoDup_singleton.
    + intros x Hx. rewrite !fmap_app in Hx. simpl in Hx.
      rewrite app_comm_cons in Hx. apply elem_of_app in Hx as [Hx|Hx].
      * by apply Hfree.
      * apply list_elem_of_singleton in Hx. by subst.
    + intros x Hx. rewrite !fmap_app in Hx. simpl in Hx.
      rewrite app_comm_cons in Hx. apply not_elem_of_app in Hx as [Hx Hxa].
      apply not_elem_of_cons in Hxa as [Hxa _].
      assert (x ≠ l) as Hxl.
      { intros ->. apply Hx. right. apply elem_of_app. right. by left. }
      rewrite !lookup_insert_ne by done. by apply Hold.
    + rewrite !fmap_app. simpl. rewrite Hhead.
      by rewrite !lookup_insert_ne.
    + rewrite !fmap_app. simpl. rewrite Hhead.
      apply lseg_app. exists (Some a). split.
      * apply lseg_app. exists (Some l). split.
        -- apply lseg_insert_other; [done|]. by apply lseg_insert_other.
        -- simpl. split; [done|]. exists (Some a). split; [|done].
           by rewrite lookup_insert_eq.
      * simpl. split; [done|]. exists None. split; [|done].
        by rewrite lookup_insert_ne, lookup_insert_eq.
Qed.

Lemma length_le_size h (l : list addr) :
  NoDup l -> (forall a, a ∈ l -> is_Some (h !! a)) -> length l <= size h.
Proof.
  intros Hdup Hl.
  rewrite <- (size_list_to_set (C := gset addr) l Hdup), <- (size_dom h).
  apply subseteq_size. intros a Ha. apply elem_of_list_to_set in Ha.
  apply elem_of_dom. auto.
Qed.

(** The loop of [sc_free_mountinfo] releases the cells of the list and
    nothing else. *)
Lemma free_entries_run cells :
  forall fuel h p,
    lseg h p cells None -> NoDup cells.*1 -> length cells <= fuel ->
    exists h',
      free_entries fuel p h = Some (tt, h')
      /\ forall a, h' !! a = if decide (a ∈ cells.*1) then None else h !! a.
Proof.
  induction cells as [|[b e] cells IH]; intros fuel h p.
  - intros -> _ _. exists h. split; [by destruct fuel|]. intros a.
    rewrite fmap_nil, decide_False; [done|apply not_elem_of_nil].
  - rewrite fmap_cons. cbn [lseg length fst].
    intros (-> & next & Hb & Hseg) Hdup Hfuel.
    apply NoDup_cons in Hdup as [Hbcells Hdup].
    destruct fuel as [|fuel]; [lia|].
    destruct (IH fuel (delete b h) next) as (h' & Hrun & Hh');
      [by apply lseg_delete_other|done|lia|].
    exists h'. split.
    + cbn [free_entries]. unfold bind, load_next, sc_free_mountinfo_entry, free.
      rewrite Hb. cbv beta iota. by rewrite Hb.
    + intros a. rewrite Hh'. destruct (decide (a = b)) as [->|Hab].
      * rewrite (decide_False (P := b ∈ cells.*1)) by done.
        rewrite decide_True by (by left). apply lookup_delete_eq.
      * rewrite lookup_delete_ne by done.
        destruct (decide (a ∈ cells.*1)) as [Hin|Hin].
        -- rewrite decide_True; [done|by right].
        -- rewrite decide_False; [done|]. by apply not_elem_of_cons.
Qed.

(** [sc_free_mountinfo] releases the table and its entries: the heap is as
    it was before [sc_parse_mountinfo]. *)
Lemma sc_free_mountinfo_run h0 info cells h :
  table h0 info cells h -> sc_free_mountinfo info h = Some (tt, h0).
Proof.
  intros Htable.
  assert (length cells <= size h) as Hsize.
  { rewrite <- (length_fmap fst cells). apply length_le_size.
    - destruct Htable as [Hdup _]. by apply NoDup_cons in Hdup as [_ ?].
    - intros a Ha. eapply table_lookup; [done|]. by right. }
  destruct Htable as (Hdup & Hfree & Hold & Hinfo & Hseg).
  apply NoDup_cons in Hdup as [Hinfocells Hdup].
  destruct (free_entries_run cells (size h) h _ Hseg Hdup Hsize)
    as (h' & Hrun & Hh').
  unfold sc_free_mountinfo, bind, load_first, free.
  rewrite Hinfo, Hrun, Hh', decide_False, Hinfo by done.
  do 2 f_equal. apply map_eq. intros a.
  destruct (decide (a = info)) as [->|Hainfo].
  - rewrite lookup_delete_eq. symmetry. apply Hfree. by left.
  - rewrite lookup_delete_ne, Hh' by done.
    destruct (decide (a ∈ cells.*1)) as [Hin|Hin].
    + symmetry. apply Hfree. by right.
    + apply Hold. by apply not_elem_of_cons.
Qed.

(** A caller's loop over the list visits the entries of its cells. *)
Lemma visit_run cells :
  forall fuel h p,
    lseg h p cells None -> length cells <= fuel ->
    visit fuel p h = Some (cells.*2, h).
Proof.
  induction cells as [|[b e] cells IH]; intros fuel h p; simpl.
  - intros -> _. by destruct fuel.
  - intros (-> & next & Hb & Hseg) Hfuel.
    destruct fuel as [|fuel]; [lia|].
    cbn [visit]. rewrite Hb.
    unfold bind, sc_next_mountinfo_entry, load_next. rewrite Hb.
    by rewrite (IH fuel h next Hseg) by lia.
Qed.

Lemma visited_run h0 info cells h :
  table h0 info cells h -> visited info h = Some (cells.*2, h).
Proof.
  intros Htable.
  assert (length cells <= size h) as Hsize.
  { rewrite <- (length_fmap fst cells). apply length_le_size.
    - destruct Htable as [Hdup _]. by apply NoDup_cons in Hdup as [_ ?].
    - intros a Ha. eapply table_lookup; [done|]. by right. }
  destruct Htable as (Hdup & Hfree & Hold & Hinfo & Hseg).
  unfold visited, bind, sc_first_mountinfo_entry, load_first. rewrite Hinfo.
  by apply visit_run.
Qed.

Lemma parse_entry_run calloc_fails line h :
  parse_entry calloc_fails line h
  = match entry_of calloc_fails line with
    | Some e =>
        Some (Some (fresh (dom h)), <[fresh (dom h) := EntryObj e None]> h)
    | None => Some (None, h)
    end.
Proof.
  unfold parse_entry. rewrite entry_of_eq, entry_run.
  by destruct (parse_result calloc_fails line).
Qed.

(** The loop of [sc_parse_mountinfo] from a table whose last cell is
    [last]: it returns the table extended by the entries of all the lines,
    or [NULL] with the heap as it was before the table was allocated. *)
Lemma read_entries_run calloc_fails lines :
  forall k read_error h0 info cells h,
    table h0 info cells h ->
    exists r h',
      read_entries calloc_fails k lines read_error info (last cells.*1) h
      = Some (r, h')
      /\ match r with
         | Some p =>
             p = info /\ read_error = false
             /\ length (parsed_prefix calloc_fails k lines) = length lines
             /\ exists cells',
                  table h0 info (cells ++ cells') h'
                  /\ cells'.*2 = parsed_prefix calloc_fails k lines
         | None =>
             h' = h0
             /\ (read_error = true
                 \/ length (parsed_prefix calloc_fails k lines) < length lines)
         end.
Proof.
  induction lines as [|line lines IH]; intros k read_error h0 info cells h Ht.
  - cbn [read_entries parsed_prefix]. destruct read_error.
    + unfold bind. rewrite (sc_free_mountinfo_run _ _ _ _ Ht).
      exists None, h0. split; [done|]. split; [done|by left].
    + exists (Some info), h. split; [done|]. do 3 (split; [done|]).
      exists []. by rewrite app_nil_r.
  - cbn [read_entries parsed_prefix]. unfold bind at 1.
    rewrite parse_entry_run.
    destruct (entry_of (calloc_fails k) line) as [e|].
    + set (a := fresh (dom h)).
      assert (h !! a = None) as Ha
        by (apply not_elem_of_dom, is_fresh).
      destruct (table_snoc _ _ _ _ a e Ht Ha) as (h1 & Hstore & Ht1).
      unfold bind. rewrite Hstore.
      destruct (IH (S k) read_error _ _ _ _ Ht1) as (r & h' & Hrun & Hr).
      rewrite fmap_app in Hrun. cbn [fmap list_fmap fst] in Hrun.
      rewrite last_snoc in Hrun.
      exists r, h'. split; [done|].
      destruct r as [p|].
      * destruct Hr as (-> & -> & Hlen & cells' & Ht' & Hcells').
        do 2 (split; [done|]). split; [simpl; lia|].
        exists ((a, e) :: cells'). rewrite <- app_assoc in Ht'.
        split; [done|]. by rewrite fmap_cons, Hcells'.
      * destruct Hr as (-> & Hr). split; [done|].
        destruct Hr as [?|?]; [by left|right; simpl; lia].
    + unfold bind. rewrite (sc_free_mountinfo_run _ _ _ _ Ht).
      exists None, h0. split; [done|]. split; [done|right; simpl; lia].
Qed.

Lemma entry_of_oom line : entry_of true line = None.
Proof. by rewrite entry_of_eq. Qed.

Lemma parsed_prefix_all calloc_fails lines :
  forall k,
    length (parsed_prefix calloc_fails k lines) = length lines ->
    Forall2 (fun line e => entry_of false line = Some e)
      lines (parsed_prefix calloc_fails k lines).
Proof.
  induction lines as [|line lines IH]; intros k; cbn [parsed_prefix].
  - constructor.
  - destruct (calloc_fails k) eqn:Hk; [by rewrite entry_of_oom|].
    destruct (entry_of false line) as [e|] eqn:He; [|done].
    intros [= Hlen]. constructor; [done|by apply IH].
Qed.

Lemma parsed_prefix_short calloc_fails lines :
  forall k,
    length (parsed_prefix calloc_fails k lines) < length lines ->
    exists i line,
      lines !! i = Some line /\ entry_of (calloc_fails (k + i)) line = None.
Proof.
  induction lines as [|line lines IH]; intros k; cbn [parsed_prefix length].
  - lia.
  - destruct (entry_of (calloc_fails k) line) as [e|] eqn:He.
    + cbn [length]. intros Hlen.
      destruct (IH (S k)) as (i & l & Hi & Hl); [lia|].
      exists (S i), l. split; [done|].
      by replace (k + S i) with (S k + i) by lia.
    + intros _. exists 0, line. split; [done|]. by rewrite Nat.add_0_r.
Qed.

Lemma parsed_prefix_lookup calloc_fails lines :
  forall k i line,
    length (parsed_prefix calloc_fails k lines) = length lines ->
    lines !! i = Some line ->
    is_Some (entry_of (calloc_fails (k + i)) line).
Proof.
  induction lines as [|l lines IH]; intros k i line; [done|].
  cbn [parsed_prefix]. destruct (entry_of (calloc_fails k) l) as [e|] eqn:He;
    [|done].
  intros [= Hlen]. destruct i as [|i].
  - intros [= <-]. rewrite Nat.add_0_r, He. by eexists.
  - intros Hi. replace (k + S i) with (S k + i) by lia. by eapply IH.
Qed.

(** [sc_parse_mountinfo] in a heap [h0]: it returns, and either builds a
    table of the entries of all the lines beside the objects of [h0], or
    returns [NULL] and leaves [h0]. *)
Lemma sc_parse_mountinfo_run calloc_fails fopen fname h0 :
  exists r h,
    Heap.sc_parse_mountinfo calloc_fails fopen fname h0 = Some (r, h)
    /\ match r with
       | Some info =>
           calloc_fails 0 = false
           /\ exists f cells,
                fopen (default default_fname fname) = Some f
                /\ src_read_error f = false
                /\ table h0 info cells h
                /\ cells.*2 = parsed_prefix calloc_fails 1 (src_lines f)
                /\ length cells = length (src_lines f)
       | None =>
           h = h0
           /\ (calloc_fails 0 = true
               \/ fopen (default default_fname fname) = None
               \/ exists f,
                    fopen (default default_fname fname) = Some f
                    /\ (src_read_error f = true
                        \/ length (parsed_prefix calloc_fails 1 (src_lines f))
                           < length (src_lines f)))
       end.
Proof.
  unfold Heap.sc_parse_mountinfo, bind at 1, calloc.
  destruct (calloc_fails 0); [exists None, h0; auto|].
  replace (match fname with Some f => f | None => default_fname end)
    with (default default_fname fname) by (by destruct fname).
  pose proof (table_start h0) as Ht. set (info := fresh (dom h0)) in *.
  destruct (fopen (default default_fname fname)) as [f|].
  - destruct (read_entries_run calloc_fails (src_lines f) 1
                (src_read_error f) _ _ _ _ Ht) as (r & h & Hrun & Hr).
    exists r, h. split; [done|]. destruct r as [p|].
    + destruct Hr as (-> & Herr & Hlen & cells & Htable & Hcells).
      split; [done|]. exists f, cells. do 4 (split; [done|]).
      by rewrite <- (length_fmap snd cells), Hcells.
    + destruct Hr as [-> Hr]. split; [done|]. right. right. by exists f.
  - exists None, h0. split; [|auto].
    unfold bind, free, ret. rewrite lookup_insert_eq. do 2 f_equal.
    rewrite delete_insert_eq. apply delete_id.
    apply not_elem_of_dom, is_fresh.
Qed.

End HeapTable.

(** X1: [sc_parse_mountinfo] returns a table exactly when the allocation of
    the table succeeds, the file can be opened, every line of it parses
    (the allocation of its entry included) and reading ends without
    error: there is no table of a part of the file. *)
Theorem table_iff_every_line_parses
    (calloc_fails : nat -> bool) (fopen : list ascii -> option line_source)
    (fname : option (list ascii)) (h0 : Heap.heap) :
  (exists info h,
     Heap.sc_parse_mountinfo calloc_fails fopen fname h0 = Some (Some info, h))
  <-> calloc_fails 0 = false
      /\ exists f,
           fopen (default default_fname fname) = Some f
           /\ src_read_error f = false
           /\ forall i line,
                src_lines f !! i = Some line ->
                is_Some (entry_of (calloc_fails (S i)) line).
Proof.
  destruct (sc_parse_mountinfo_run calloc_fails fopen fname h0)
    as (r & h & Hrun & Hr).
  split.
  - intros (info & h' & Hrun'). rewrite Hrun in Hrun'.
    injection Hrun' as -> ->.
    destruct Hr as (Hinfo & f & cells & Hf & Herr & _ & Hcells & Hlen).
    split; [done|]. exists f. do 2 (split; [done|]).
    intros i line Hi. apply (parsed_prefix_lookup calloc_fails (src_lines f) 1 i line);
      [|done]. by rewrite <- Hcells, length_fmap.
  - intros (Hinfo & f & Hf & Herr & Hlines).
    destruct r as [info|]; [by exists info, h|].
    destruct Hr as [_ [Hr|[Hr|(f' & Hf' & Hr)]]]; [congruence..|].
    assert (f' = f) as -> by congruence.
    destruct Hr as [Hr|Hr]; [congruence|].
    apply parsed_prefix_short in Hr as (i & line & Hi & Hnone).
    destruct (Hlines i line Hi) as [e He]. simpl in Hnone. congruence.
Qed.

(** X2: after a successful [sc_parse_mountinfo], the loop from
    [sc_first_mountinfo_entry] along [sc_next_mountinfo_entry] to [NULL]
    visits one entry for every line of the file, in the order of the
    lines, each the result of parsing its line; the objects that were in
    the heap before are still there. *)
Theorem entries_visited_in_line_order
    (calloc_fails : nat -> bool) (fopen : list ascii -> option line_source)
    (fname : option (list ascii)) (h0 h : Heap.heap) (info : Heap.addr) :
  Heap.sc_parse_mountinfo calloc_fails fopen fname h0 = Some (Some info, h) ->
  exists f es,
    fopen (default default_fname fname) = Some f
    /\ Heap.visited info h = Some (es, h)
    /\ Forall2 (fun line e => entry_of false line = Some e) (src_lines f) es
    /\ forall a o, h0 !! a = Some o -> h !! a = Some o.
Proof.
  intros Hrun.
  destruct (sc_parse_mountinfo_run calloc_fails fopen fname h0)
    as (r & h' & Hrun' & Hr).
  rewrite Hrun in Hrun'. injection Hrun' as <- <-.
  destruct Hr as (_ & f & cells & Hf & _ & Htable & Hcells & Hlen).
  exists f, cells.*2. split; [done|].
  split; [by eapply visited_run|]. split.
  - rewrite Hcells. apply parsed_prefix_all.
    by rewrite <- Hcells, length_fmap.
  - intros a o Ha. destruct Htable as (_ & Hfree & Hold & _).
    rewrite Hold; [done|]. intros Hin. apply Hfree in Hin. congruence.
Qed.

Lemma entries_visited_in_line_order_witness :
  exists info h,
    Heap.sc_parse_mountinfo no_calloc_failure fopen_two_lines None ∅
    = Some (Some info, h)
    /\ exists f es,
         fopen_two_lines (default default_fname None) = Some f
         /\ Heap.visited info h = Some (es, h)
         /\ Forall2 (fun line e => entry_of false line = Some e)
              (src_lines f) es
         /\ forall a o, (∅ : Heap.heap) !! a = Some o -> h !! a = Some o.
Proof.
  eexists. eexists. split; [vm_compute; reflexivity|].
  apply (entries_visited_in_line_order no_calloc_failure fopen_two_lines None).
  vm_compute. reflexivity.
Defined.

(** X3: [sc_parse_mountinfo] always returns, without an access to an
    address that is not allocated; when it returns [NULL] (no memory, no
    file, a line that does not parse, a read error) everything it
    allocated has been released: the heap holds the objects it held
    before the call. *)
Theorem failure_releases_everything
    (calloc_fails : nat -> bool) (fopen : list ascii -> option line_source)
    (fname : option (list ascii)) (h0 : Heap.heap) :
  exists r h,
    Heap.sc_parse_mountinfo calloc_fails fopen fname h0 = Some (r, h)
    /\ (r = None -> h = h0).
Proof.
  destruct (sc_parse_mountinfo_run calloc_fails fopen fname h0)
    as (r & h & Hrun & Hr).
  exists r, h. split; [done|]. intros ->. by destruct Hr.
Qed.

(** X4: [sc_cleanup_mountinfo] on the table [sc_parse_mountinfo] returned
    releases the table and all its entries, each once, and sets the
    pointer to [NULL]: the heap is as before the table was parsed, and a
    second call with the same pointer variable does nothing. *)
Theorem cleanup_releases_table
    (calloc_fails : nat -> bool) (fopen : list ascii -> option line_source)
    (fname : option (list ascii)) (h0 h : Heap.heap) (info : Heap.addr) :
  Heap.sc_parse_mountinfo calloc_fails fopen fname h0 = Some (Some info, h) ->
  Heap.sc_cleanup_mountinfo (Some info) h = Some (None, h0)
  /\ Heap.bind (Heap.sc_cleanup_mountinfo (Some info))
       Heap.sc_cleanup_mountinfo h = Some (None, h0).
Proof.
  intros Hrun.
  destruct (sc_parse_mountinfo_run calloc_fails fopen fname h0)
    as (r & h' & Hrun' & Hr).
  rewrite Hrun in Hrun'. injection Hrun' as <- <-.
  destruct Hr as (_ & f & cells & _ & _ & Htable & _).
  assert (Heap.sc_cleanup_mountinfo (Some info) h = Some (None, h0)) as Hc.
  { unfold Heap.sc_cleanup_mountinfo, Heap.bind.
    by rewrite (sc_free_mountinfo_run _ _ _ _ Htable). }
  split; [done|]. unfold Heap.bind at 1. by rewrite Hc.
Qed.

Lemma cleanup_releases_table_witness :
  exists info h,
    Heap.sc_parse_mountinfo no_calloc_failure fopen_two_lines None ∅
    = Some (Some info, h)
    /\ size h = 3
    /\ Heap.sc_cleanup_mountinfo (Some info) h = Some (None, ∅)
    /\ Heap.bind (Heap.sc_cleanup_mountinfo (Some info))
         Heap.sc_cleanup_mountinfo h = Some (None, ∅).
Proof.
  eexists. eexists. split; [vm_compute; reflexivity|].
  split; [vm_compute; reflexivity|].
  apply (cleanup_releases_table no_calloc_failure fopen_two_lines None).
  vm_compute. reflexivity.
Defined.

(** ** One field *)

Lemma scan_field_None rest :
  scan_field rest = None ->
  Forall (fun c => isspace c = true) rest /\ head rest <> Some " "%char.
Proof.
  unfold scan_field. destruct rest as [|c rest0]; [done|].
  destruct (is_space_char c) eqn:Ec; [done|].
  destruct (span isspace (c :: rest0)) as [ws r1] eqn:E1.
  destruct (span nonspace r1) as [tok r2] eqn:E2.
  destruct tok as [|t tok].
  - intros _. split.
    + destruct r1 as [|c1 r1'].
      * apply span_eq in E1 as E. rewrite app_nil_r in E. rewrite E.
        pose proof (span_fst_Forall isspace (c :: rest0)) as H.
        by rewrite E1 in H.
      * pose proof (span_snd_head isspace (c :: rest0) c1 r1') as H1.
        rewrite E1 in H1. specialize (H1 eq_refl).
        simpl in E2. unfold nonspace in E2. rewrite H1 in E2. simpl in E2.
        by destruct (span (fun c => negb (isspace c)) r1').
    + intros [= ->]. done.
  - by destruct r2 as [|c2 r3]; [|destruct (is_space_char c2)].
Qed.

Lemma scan_field_Some rest tok k rest' :
  scan_field rest = Some (tok, k, rest') ->
  (head rest = Some " "%char /\ tok = [])
  \/ (head rest <> Some " "%char /\ tok <> [] /\ hd [] (tokens rest) = tok).
Proof.
  intros H. pose proof (scan_field_tokens _ _ _ _ H) as Htok.
  unfold scan_field in H. destruct rest as [|c rest0]; [done|].
  destruct (is_space_char c) eqn:Ec.
  - left. apply is_space_char_eq in Ec as ->. by injection H as <- _ _.
  - right. split.
    { intros [= ->]. done. }
    destruct (span isspace (c :: rest0)) as [ws r1].
    destruct (span nonspace r1) as [tok0 r2].
    destruct tok0 as [|t tok0]; [done|].
    assert (tok = t :: tok0) as ->.
    { by destruct r2 as [|c2 r3]; [|destruct (is_space_char c2)];
        injection H as <- _ _. }
    split; [done|]. by rewrite Htok.
Qed.

(** X5: [parse_next_string_field] at any place of a line.  It returns
    without a fault, leaves the line and the bytes of [line_buf] before
    [offset] as they are, and keeps [line_buf] at its size.  It returns
    [NULL], with [offset] and the memory unchanged, exactly when the rest
    of the line is white space only (or empty) and does not begin with a
    space.  Otherwise it returns the address of [line_buf] at the old
    [offset], where it has stored a string: the empty string when the
    rest begins with a space, else the first white-space delimited token
    of the rest; the new [offset] is larger than the old one and at most
    the length of the line. *)
Theorem next_field_result (L junk pre rest : list ascii) :
  Forall nonnul L -> in_line L pre rest ->
  exists r offset m,
    parse_next_string_field line_ptr (length pre) (mem_at L junk pre rest)
    = Done (r, offset) m
    /\ line_mem m = L ++ NUL :: junk
    /\ length (entry_mem m) = S (length L)
    /\ take (length pre) (entry_mem m) = pre
    /\ match r with
       | None =>
           Forall (fun c => isspace c = true) rest
           /\ head rest <> Some " "%char /\ tokens rest = []
           /\ offset = length pre /\ m = mem_at L junk pre rest
       | Some field =>
           field = (EntryBlk, length pre)
           /\ length pre < offset <= length L
           /\ cstring (drop (length pre) (entry_mem m))
              = Some (if decide (head rest = Some " "%char) then []
                      else hd [] (tokens rest))
           /\ (head rest = Some " "%char \/ tokens rest <> [])
       end.
Proof.
  intros Hn HL. rewrite (pnsf_run L junk Hn pre rest HL).
  assert (length (pre ++ zeros (S (length rest))) = S (length L)) as Hlen.
  { rewrite length_app, length_zeros. destruct HL as [-> Hle].
    rewrite length_drop. lia. }
  destruct (scan_field rest) as [[[tok k] rest']|] eqn:E.
  - pose proof (in_line_scan L _ _ _ _ _ HL E) as [Hrest' Hle].
    pose proof (scan_field_progress _ _ _ _ E) as Hprog.
    pose proof (scan_field_length _ _ _ _ E) as Hl.
    pose proof (scan_field_nonnul _ _ _ _ E (in_line_nonnul L Hn _ _ HL))
      as Htok.
    rewrite !length_app, length_zeros in Hle.
    eexists _, _, _. split; [reflexivity|]. unfold mem_at.
    cbn [line_mem entry_mem]. split; [done|].
    split.
    { rewrite <- Hlen, !length_app, !length_zeros. simpl. lia. }
    split.
    { rewrite <- app_assoc. by rewrite take_app_length. }
    split; [done|]. split; [lia|].
    rewrite <- !app_assoc, drop_app_length, zeros_app.
    replace (k + S (length rest')) with (S (k + length rest')) by lia.
    rewrite <- (app_nil_r (zeros _)), cstring_zeros_tail by done.
    destruct (scan_field_Some _ _ _ _ E) as [[Hsp ->]|(Hsp & Hne & Hhd)].
    + rewrite decide_True by done. auto.
    + rewrite decide_False by done. rewrite Hhd. split; [done|]. right.
      intros Hnil. rewrite Hnil in Hhd. simpl in Hhd. congruence.
  - apply scan_field_None in E as [Hall Hsp].
    eexists _, _, _. split; [reflexivity|]. unfold mem_at.
    cbn [line_mem entry_mem]. split; [done|]. split; [done|].
    split; [by rewrite take_app_length|]. do 2 (split; [done|]).
    split; [|done]. rewrite <- (app_nil_r rest). by rewrite tokens_skip.
Qed.

Lemma next_field_result_witness :
  exists r offset m,
    parse_next_string_field line_ptr (length (zeros 4))
      (mem_at (str "1 2 /a /b") [] (zeros 4) (str "/a /b"))
    = Done (r, offset) m
    /\ r = Some (EntryBlk, 4) /\ offset = 7
    /\ cstring (drop 4 (entry_mem m)) = Some (str "/a").
Proof.
  destruct (next_field_result (str "1 2 /a /b") [] (zeros 4) (str "/a /b"))
    as (r & offset & m & Hrun & _); [by repeat constructor|split; [done|simpl; lia]|].
  exists r, offset, m. split; [exact Hrun|].
  vm_compute in Hrun. injection Hrun as <- <- <-. done.
Defined.

(** A field followed by white space other than a space: the white space is
    left for the next call. *)
Lemma scan_field_word_tab t c rest :
  word t = true -> nonempty t = true ->
  isspace c = true -> is_space_char c = false ->
  scan_field (t ++ c :: rest) = Some (t, 0, c :: rest).
Proof.
  intros Hw Hne Hc Hsp. destruct t as [|a t]; [done|].
  unfold scan_field. cbn [app].
  destruct (word_cons _ _ Hw) as [_ ->].
  change (a :: t ++ c :: rest) with ((a :: t) ++ c :: rest).
  rewrite span_isspace_word by done.
  rewrite (span_all nonspace (a :: t) (c :: rest));
    [|by apply word_Forall|by unfold nonspace; rewrite Hc].
  by rewrite Hsp.
Qed.

(** White space other than a space before a field: [%s] skips it. *)
Lemma scan_field_tab_word c t tail :
  isspace c = true -> is_space_char c = false ->
  word t = true -> nonempty t = true -> line_end tail = true ->
  exists k r, scan_field (c :: t ++ tail) = Some (t, k, r).
Proof.
  intros Hc Hsp Hw Hne Hend. destruct t as [|a t]; [done|].
  unfold scan_field. rewrite Hsp.
  change (c :: (a :: t) ++ tail) with ([c] ++ (a :: t) ++ tail).
  rewrite (span_all isspace [c] ((a :: t) ++ tail));
    [|by constructor; [|constructor]|by apply word_cons in Hw as [Ha _]].
  rewrite (span_all nonspace (a :: t) tail).
  - destruct tail as [|c2 r3]; [by eexists _, _|].
    destruct (is_space_char c2); by eexists _, _.
  - by apply word_Forall.
  - destruct tail as [|c2 r3]; [done|]. simpl in Hend.
    apply andb_true_iff in Hend as [Hc2 _]. unfold nonspace. by rewrite Hc2.
Qed.

(** X6: two fields separated by a tab (or any white space other than a
    space) run together.  The first call stores the first field and its
    terminator and leaves the tab unread; the second call starts at that
    terminator, [%s] skips the tab, and the second field is stored over
    the terminator of the first: read from the entry, the first field is
    the text of both fields, the second field is right. *)
Theorem fields_separated_by_tab_run_together
    (L junk pre t1 t2 tail : list ascii) (c : ascii) :
  Forall nonnul L -> in_line L pre (t1 ++ c :: t2 ++ tail) ->
  word t1 = true -> nonempty t1 = true ->
  word t2 = true -> nonempty t2 = true ->
  isspace c = true -> is_space_char c = false ->
  line_end tail = true ->
  exists m,
    (do '(field1, offset) <- parse_next_string_field line_ptr (length pre);
     do '(field2, offset) <- parse_next_string_field line_ptr offset;
     ret (field1, field2)) (mem_at L junk pre (t1 ++ c :: t2 ++ tail))
    = Done (Some (EntryBlk, length pre),
            Some (EntryBlk, length pre + length t1)) m
    /\ cstring (drop (length pre) (entry_mem m)) = Some (t1 ++ t2)
    /\ cstring (drop (length pre + length t1) (entry_mem m)) = Some t2.
Proof.
  intros Hn HL Hw1 Hne1 Hw2 Hne2 Hc Hsp Htail.
  pose proof (scan_field_word_tab t1 c (t2 ++ tail) Hw1 Hne1 Hc Hsp) as E1.
  destruct (scan_field_tab_word c t2 tail Hc Hsp Hw2 Hne2 Htail)
    as (k & r & E2).
  pose proof (in_line_scan L _ _ _ _ _ HL E1) as HL1.
  pose proof (pnsf_run L junk Hn _ _ HL) as H1. rewrite E1 in H1.
  pose proof (pnsf_run L junk Hn _ _ HL1) as H2. rewrite E2 in H2.
  rewrite !length_app, length_zeros, !Nat.add_0_r in H2.
  rewrite Nat.add_0_r in H1.
  erewrite run_bind by (exact H1). cbv beta iota.
  erewrite run_bind by (exact H2). cbv beta iota.
  eexists. split; [reflexivity|].
  apply word_Forall in Hw1 as [_ Hn1], Hw2 as [_ Hn2].
  change (zeros 0) with (@nil ascii). rewrite app_nil_r.
  unfold mem_at. cbn [entry_mem]. split.
  - rewrite <- !app_assoc, drop_app_length.
    rewrite (app_assoc t1 t2), zeros_app.
    replace (k + S (length r)) with (S (k + length r)) by lia.
    rewrite <- (app_nil_r (zeros _)). apply cstring_zeros_tail.
    by apply Forall_app.
  - rewrite <- (length_app pre t1), <- !app_assoc, (app_assoc pre t1).
    rewrite drop_app_length, zeros_app.
    replace (k + S (length r)) with (S (k + length r)) by lia.
    rewrite <- (app_nil_r (zeros _)). by apply cstring_zeros_tail.
Qed.

Lemma fields_separated_by_tab_run_together_witness :
  exists m,
    (do '(field1, offset) <- parse_next_string_field line_ptr (length (zeros 4));
     do '(field2, offset) <- parse_next_string_field line_ptr offset;
     ret (field1, field2))
      (mem_at (str "1 2 /a" ++ tab :: str "/b c") [] (zeros 4)
         (str "/a" ++ tab :: str "/b" ++ str " c"))
    = Done (Some (EntryBlk, length (zeros 4)),
            Some (EntryBlk, length (zeros 4) + length (str "/a"))) m
    /\ cstring (drop (length (zeros 4)) (entry_mem m)) = Some (str "/a" ++ str "/b")
    /\ cstring (drop (length (zeros 4) + length (str "/a")) (entry_mem m))
       = Some (str "/b").
Proof.
  apply (fields_separated_by_tab_run_together
           (str "1 2 /a" ++ tab :: str "/b c") [] (zeros 4)
           (str "/a") (str "/b") (str " c") tab);
    try reflexivity.
  - by repeat constructor.
  - split; [reflexivity|simpl; lia].
Defined.

(** In an entry, the root of a line with a tab after it runs into the
    mount point. *)
Example tab_after_root :
  option_map fields_of (entry_of false line_with_tab)
  = Some (Fields 36 35 98 0 (Some (str "/mnt1/mnt2")) (Some (str "/mnt2"))
            (Some (str "rw,noatime")) (Some []) (Some (str "ext3"))
            (Some (str "/dev/root")) (Some (str "rw"))).
Proof. vm_compute. reflexivity. Qed.

(** ** The buffer of a line that follows the grammar *)

Lemma same_or_nul_refl s : Forall2 same_or_nul s s.
Proof. induction s; constructor; [by right|done]. Qed.

Lemma same_or_nul_zeros s : Forall2 same_or_nul (zeros (length s)) s.
Proof. induction s; constructor; [by left|done]. Qed.

Lemma same_or_nul_optional optional X Y :
  Forall2 same_or_nul X Y ->
  Forall2 same_or_nul
    (join_space optional ++ zeros (match optional with [] => 2 | _ => 3 end)
     ++ X)
    (concat (map (fun t => t ++ [" "%char]) optional)
     ++ "-"%char :: " "%char :: Y).
Proof.
  intros HXY. destruct optional as [|t ts].
  - cbn. constructor; [by left|]. constructor; [by left|done].
  - rewrite <- join_space_text, <- app_assoc.
    apply Forall2_app; [apply same_or_nul_refl|].
    cbn. do 3 (constructor; [by left|]). done.
Qed.

Lemma entry_pure_grammar_buf d1 d2 d3 d4 rt dir opts optional fs src sopts
    tail :
  is_digits d1 = true -> is_digits d2 = true ->
  is_digits d3 = true -> is_digits d4 = true ->
  word rt = true -> nonempty rt = true ->
  word dir = true -> word opts = true ->
  forallb optional_word optional = true ->
  word fs = true -> word src = true ->
  word sopts = true -> nonempty sopts = true ->
  line_end tail = true ->
  exists e,
    entry_pure (header_text d1 d2 d3 d4
                ++ fields_text rt dir opts optional fs src sopts ++ tail)
    = Some e
    /\ line_buf e
       = zeros (length (header_text d1 d2 d3 d4))
         ++ rt ++ NUL :: dir ++ NUL :: opts ++ NUL ::
         join_space optional
         ++ zeros (match optional with [] => 2 | _ => 3 end)
         ++ fs ++ NUL :: src ++ NUL :: sopts ++ zeros (S (length tail)).
Proof.
  intros H1 H2 H3 H4 Hroot Hroot1 Hdir Hopts Hopt Hfs Hsrc Hsopts Hsopts1
    Htail.
  destruct rt as [|c rt]; [done|].
  destruct (word_cons _ _ Hroot) as [Hc _].
  set (hdr := header_text d1 d2 d3 d4).
  unfold entry_pure, leading_pure.
  assert (length optional
          < S (length (hdr ++ fields_text (c :: rt) dir opts optional fs
                         src sopts ++ tail))) as Hfuel.
  { pose proof (length_optional_text optional). unfold fields_text.
    repeat (rewrite length_app || rewrite length_cons). lia. }
  revert Hfuel.
  set (fuel := S (length _)). intros Hfuel.
  unfold fields_text. list_norm.
  unfold hdr. rewrite (header_digits d1 d2 d3 d4 c) by done.
  change (negb (h_nscanned _ =? 4)%Z) with false. cbv iota.
  cbn [h_offset_delta h_mount_id h_parent_id h_dev_major h_dev_minor].
  fold hdr. rewrite drop_app_length.
  rewrite (app_comm_cons rt _ c).
  rewrite three_fields_words by done.
  rewrite optional_fields_pure_words by done.
  unfold three_fields.
  rewrite !scan_field_word by done.
  destruct (scan_field_last sopts tail Hsopts Hsopts1 Htail)
    as (k & r7 & Hlast).
  rewrite Hlast. apply scan_field_length in Hlast.
  rewrite length_app in Hlast.
  eexists. split; [reflexivity|]. cbn [line_buf]. list_norm.
  change (zeros 1) with [NUL]. cbn [app]. rewrite zeros_app.
  by replace (k + S (length r7)) with (S (length tail)) by lia.
Qed.

(** X7: the comment of [sc_parse_mountinfo_entry] on its buffers, for a
    line that follows the grammar: at the end [line_buf] is the line with
    zero bytes in place of the header of four numbers, of the space after
    each field, of the separator and of what follows super_opts; the
    spaces between optional fields are kept.  Byte by byte, [line_buf] and
    the line with its terminator agree wherever [line_buf] is not NUL. *)
Theorem line_buf_is_line_with_terminators
    (d1 d2 d3 d4 rt dir opts : list ascii) (optional : list (list ascii))
    (fs src sopts tail : list ascii) :
  is_digits d1 = true -> is_digits d2 = true ->
  is_digits d3 = true -> is_digits d4 = true ->
  word rt = true -> nonempty rt = true ->
  word dir = true -> word opts = true ->
  forallb optional_word optional = true ->
  word fs = true -> word src = true ->
  word sopts = true -> nonempty sopts = true ->
  line_end tail = true ->
  exists e m,
    sc_parse_mountinfo_entry false line_ptr
      (line_memory (header_text d1 d2 d3 d4
                    ++ fields_text rt dir opts optional fs src sopts ++ tail))
    = Done (Some e) m
    /\ line_buf e
       = zeros (length (header_text d1 d2 d3 d4))
         ++ rt ++ NUL :: dir ++ NUL :: opts ++ NUL ::
         join_space optional
         ++ zeros (match optional with [] => 2 | _ => 3 end)
         ++ fs ++ NUL :: src ++ NUL :: sopts ++ zeros (S (length tail))
    /\ Forall2 same_or_nul (line_buf e)
         ((header_text d1 d2 d3 d4
           ++ fields_text rt dir opts optional fs src sopts ++ tail)
          ++ [NUL]).
Proof.
  intros H1 H2 H3 H4 Hroot Hroot1 Hdir Hopts Hopt Hfs Hsrc Hsopts Hsopts1
    Htail.
  destruct (entry_pure_grammar_buf d1 d2 d3 d4 rt dir opts optional fs src
              sopts tail) as (e & He & Hbuf); try done.
  pose proof (grammar_line_nonnul d1 d2 d3 d4 rt dir opts optional fs src
                sopts tail) as Hn.
  rewrite entry_run. unfold parse_result.
  rewrite c_string_id by (by apply Hn). rewrite He.
  eexists e, _. split; [reflexivity|]. split; [done|].
  rewrite Hbuf. unfold fields_text. list_norm.
  repeat first
    [ apply Forall2_app; [apply same_or_nul_zeros|]
    | apply Forall2_app; [apply same_or_nul_refl|]
    | apply Forall2_cons; split; [by left|]
    | apply same_or_nul_optional ].
  rewrite zeros_S.
  replace (NUL :: zeros (length tail)) with (zeros (length tail) ++ [NUL]).
  2:{ change [NUL] with (zeros 1). rewrite zeros_app.
      by replace (length tail + 1) with (S (length tail)) by lia. }
  apply Forall2_app; [apply same_or_nul_zeros|]. by repeat constructor.
Qed.

Lemma line_buf_is_line_with_terminators_witness :
  exists e m,
    sc_parse_mountinfo_entry false line_ptr
      (line_memory (header_text (str "36") (str "35") (str "98") (str "0")
                    ++ fields_text (str "/mnt1") (str "/mnt2")
                         (str "rw,noatime") [str "master:1"; str "shared:2"]
                         (str "ext3") (str "/dev/root")
                         (str "rw,errors=continue")
                    ++ [newline]))
    = Done (Some e) m
    /\ line_buf e
       = zeros (length (header_text (str "36") (str "35") (str "98") (str "0")))
         ++ str "/mnt1" ++ NUL :: str "/mnt2" ++ NUL :: str "rw,noatime"
         ++ NUL :: join_space [str "master:1"; str "shared:2"]
         ++ zeros 3
         ++ str "ext3" ++ NUL :: str "/dev/root" ++ NUL ::
         str "rw,errors=continue" ++ zeros (S (length [newline]))
    /\ Forall2 same_or_nul (line_buf e)
         ((header_text (str "36") (str "35") (str "98") (str "0")
           ++ fields_text (str "/mnt1") (str "/mnt2")
                (str "rw,noatime") [str "master:1"; str "shared:2"]
                (str "ext3") (str "/dev/root") (str "rw,errors=continue")
           ++ [newline]) ++ [NUL]).
Proof.
  apply (line_buf_is_line_with_terminators (str "36") (str "35") (str "98")
           (str "0") (str "/mnt1") (str "/mnt2") (str "rw,noatime")
           [str "master:1"; str "shared:2"] (str "ext3") (str "/dev/root")
           (str "rw,errors=continue") [newline]);
    reflexivity.
Defined.

(** X8: what follows super_opts on a line that follows the grammar
    (white space, then any text) changes none of the eleven fields: the
    entry of the line has the fields of the entry of the line cut after
    super_opts. *)
Theorem text_after_super_opts_is_ignored
    (d1 d2 d3 d4 rt dir opts : list ascii) (optional : list (list ascii))
    (fs src sopts tail : list ascii) :
  is_digits d1 = true -> is_digits d2 = true ->
  is_digits d3 = true -> is_digits d4 = true ->
  word rt = true -> nonempty rt = true ->
  word dir = true -> word opts = true ->
  forallb optional_word optional = true ->
  word fs = true -> word src = true ->
  word sopts = true -> nonempty sopts = true ->
  line_end tail = true ->
  exists e m e' m',
    sc_parse_mountinfo_entry false line_ptr
      (line_memory (header_text d1 d2 d3 d4
                    ++ fields_text rt dir opts optional fs src sopts ++ tail))
    = Done (Some e) m
    /\ sc_parse_mountinfo_entry false line_ptr
         (line_memory (header_text d1 d2 d3 d4
                       ++ fields_text rt dir opts optional fs src sopts))
       = Done (Some e') m'
    /\ fields_of e = fields_of e'.
Proof.
  intros H1 H2 H3 H4 Hroot Hroot1 Hdir Hopts Hopt Hfs Hsrc Hsopts Hsopts1
    Htail.
  destruct (parse_grammar_line d1 d2 d3 d4 rt dir opts optional fs src sopts
              tail) as (e & m & Hrun & He); try done.
  destruct (parse_grammar_line d1 d2 d3 d4 rt dir opts optional fs src sopts
              []) as (e' & m' & Hrun' & He'); try done.
  rewrite app_nil_r in Hrun'.
  exists e, m, e', m'. split; [done|]. split; [done|]. by rewrite He, He'.
Qed.

Lemma text_after_super_opts_is_ignored_witness :
  exists e m e' m',
    sc_parse_mountinfo_entry false line_ptr
      (line_memory (header_text (str "1") (str "1") (str "0") (str "1")
                    ++ fields_text (str "/") (str "/") (str "rw") []
                         (str "tmpfs") (str "none") (str "rw")
                    ++ str " 0 0"))
    = Done (Some e) m
    /\ sc_parse_mountinfo_entry false line_ptr
         (line_memory (header_text (str "1") (str "1") (str "0") (str "1")
                       ++ fields_text (str "/") (str "/") (str "rw") []
                            (str "tmpfs") (str "none") (str "rw")))
       = Done (Some e') m'
    /\ fields_of e = fields_of e'.
Proof.
  apply (text_after_super_opts_is_ignored (str "1") (str "1") (str "0")
           (str "1") (str "/") (str "/") (str "rw") [] (str "tmpfs")
           (str "none") (str "rw") (str " 0 0"));
    reflexivity.
Defined.

(** ** The layout of an entry *)

(** The numbers [sscanf] assigns are values of [int] and [unsigned]. *)
Lemma to_int_range z : (- 2 ^ 31 <= to_int z < 2 ^ 31)%Z.
Proof. unfold to_int. pose proof (Z.mod_pos_bound (z + 2 ^ 31) (2 ^ 32)). lia. Qed.

Lemma to_uint_range z : (0 <= to_uint z < 2 ^ 32)%Z.
Proof. unfold to_uint. apply Z.mod_pos_bound. lia. Qed.

Lemma header_range s :
  let h := sscanf_d_d_u_u_n s in
  (- 2 ^ 31 <= h_mount_id h < 2 ^ 31)%Z
  /\ (- 2 ^ 31 <= h_parent_id h < 2 ^ 31)%Z
  /\ (0 <= h_dev_major h < 2 ^ 32)%Z
  /\ (0 <= h_dev_minor h < 2 ^ 32)%Z.
Proof.
  unfold sscanf_d_d_u_u_n.
  repeat match goal with
         | |- context [match ?x with _ => _ end] => destruct x
         end;
    cbn [h_mount_id h_parent_id h_dev_major h_dev_minor];
    repeat split;
    try apply to_int_range; try apply to_uint_range; lia.
Qed.

(** X9: the layout of every entry that [sc_parse_mountinfo_entry]
    returns.  The seven string fields point into [line_buf] of the entry
    itself (not into the line, which the caller reuses for the next
    line), at offsets that grow strictly in the order root, mount_dir,
    mount_opts, optional_fields, fs_type, mount_source, super_opts and
    stay below the length of the line; [line_buf] has one byte more
    than the line has characters; the two ids are values of [int], the
    device numbers values of [unsigned]. *)
Theorem entry_layout (oom : bool) (s : list ascii)
    (e : sc_mountinfo_entry) (m : memory) :
  sc_parse_mountinfo_entry oom line_ptr (line_memory s) = Done (Some e) m ->
  (exists o1 o2 o3 o4 o5 o6 o7,
     root e = Some (EntryBlk, o1) /\ mount_dir e = Some (EntryBlk, o2)
     /\ mount_opts e = Some (EntryBlk, o3)
     /\ optional_fields e = Some (EntryBlk, o4)
     /\ fs_type e = Some (EntryBlk, o5)
     /\ mount_source e = Some (EntryBlk, o6)
     /\ super_opts e = Some (EntryBlk, o7)
     /\ o1 < o2 /\ o2 < o3 /\ o3 < o4 /\ o4 < o5 /\ o5 < o6 /\ o6 < o7
     /\ o7 < length (c_string s)
     /\ length (line_buf e) = length (c_string s) + 1)
  /\ (- 2 ^ 31 <= mount_id e < 2 ^ 31)%Z
  /\ (- 2 ^ 31 <= parent_id e < 2 ^ 31)%Z
  /\ (0 <= dev_major e < 2 ^ 32)%Z
  /\ (0 <= dev_minor e < 2 ^ 32)%Z.
Proof.
  rewrite entry_run. intros [= Hres _].
  unfold parse_result in Hres. destruct oom; [done|].
  apply entry_pure_inv in Hres
    as (o1 & o2 & o3 & o4 & o5 & o6 & o7 & pre7 & r7 & -> & Hlt & [-> Hle]
        & _); [|apply c_string_nonnul].
  cbn [root mount_dir mount_opts optional_fields fs_type mount_source
         super_opts mount_id parent_id dev_major dev_minor line_buf].
  split; [|apply header_range].
  exists o1, o2, o3, o4, o5, o6, o7. unfold at_buf.
  do 7 (split; [done|]).
  rewrite length_app, length_zeros, length_drop. lia.
Qed.

Lemma entry_layout_witness :
  exists e m,
    sc_parse_mountinfo_entry false line_ptr (line_memory example_line)
    = Done (Some e) m
    /\ (- 2 ^ 31 <= mount_id e < 2 ^ 31)%Z
    /\ length (line_buf e) = length (c_string example_line) + 1.
Proof.
  assert (exists e m,
            sc_parse_mountinfo_entry false line_ptr (line_memory example_line)
            = Done (Some e) m) as (e & m & Hrun)
    by (eexists; eexists; vm_compute; reflexivity).
  exists e, m. split; [exact Hrun|].
  destruct (entry_layout false example_line e m Hrun)
    as ((o1 & o2 & o3 & o4 & o5 & o6 & o7 & H) & Hid & _).
  split; [exact Hid|]. apply H.
Defined.

(** X10: the parser reads the line as a C string.  Bytes that follow the
    first NUL byte of the buffer [getline] filled are never read: the
    result, entry and buffer included, is that of the text before the NUL
    byte. *)
Theorem bytes_after_nul_are_ignored (oom : bool) (s : list ascii) :
  exists r m m',
    sc_parse_mountinfo_entry oom line_ptr (line_memory s) = Done r m
    /\ sc_parse_mountinfo_entry oom line_ptr (line_memory (c_string s))
       = Done r m'.
Proof.
  rewrite !entry_run. unfold parse_result.
  rewrite (c_string_id (c_string s)) by apply c_string_nonnul.
  by eexists _, _, _.
Qed.

(** ** Blank lines *)

Lemma skip_space_all s :
  Forall (fun c => isspace c = true) s -> skip_space s = [].
Proof.
  intros H. unfold skip_space.
  rewrite <- (app_nil_r s), (span_all isspace s []); done.
Qed.

Lemma isspace_nonnul s :
  Forall (fun c => isspace c = true) s -> Forall nonnul s.
Proof.
  intros H. eapply Forall_impl; [exact H|]. intros c Hc. unfold nonnul.
  apply Ascii.eqb_neq. by intros ->.
Qed.

Lemma blank_line_no_entry oom s :
  Forall (fun c => isspace c = true) s -> entry_of oom s = None.
Proof.
  intros H. rewrite entry_of_eq. unfold parse_result.
  destruct oom; [done|]. rewrite c_string_id by (by apply isspace_nonnul).
  unfold entry_pure, leading_pure, sscanf_d_d_u_u_n, scan_number.
  by rewrite skip_space_all.
Qed.

(** X11: a blank line (nothing, or white space only, as an empty line
    that [getline] delivers with its newline) is no entry: the first
    [sscanf] reaches the end of the input before any number.  A file
    with a blank line anywhere therefore has no table:
    [sc_parse_mountinfo] returns [NULL] and leaves nothing allocated. *)
Theorem blank_line_fails_the_table
    (calloc_fails : nat -> bool) (fopen : list ascii -> option line_source)
    (fname : option (list ascii)) (h0 : Heap.heap) (f : line_source)
    (i : nat) (line : list ascii) :
  fopen (default default_fname fname) = Some f ->
  src_lines f !! i = Some line ->
  Forall (fun c => isspace c = true) line ->
  (exists m, sc_parse_mountinfo_entry false line_ptr (line_memory line)
             = Done None m)
  /\ Heap.sc_parse_mountinfo calloc_fails fopen fname h0 = Some (None, h0).
Proof.
  intros Hf Hi Hblank. split.
  - rewrite entry_run. pose proof (blank_line_no_entry false line Hblank) as H.
    rewrite entry_of_eq in H. rewrite H. by eexists.
  - destruct (sc_parse_mountinfo_run calloc_fails fopen fname h0)
      as (r & h & Hrun & Hr).
    rewrite Hrun. destruct r as [info|]; [exfalso|by destruct Hr as [-> _]].
    destruct Hr as (_ & f' & cells & Hf' & _ & _ & Hcells & Hlen).
    assert (f' = f) as -> by congruence.
    destruct (parsed_prefix_lookup calloc_fails (src_lines f) 1 i line)
      as [e He]; [by rewrite <- Hcells, length_fmap|done|].
    by rewrite blank_line_no_entry in He.
Qed.

Lemma blank_line_fails_the_table_witness :
  (exists m, sc_parse_mountinfo_entry false line_ptr (line_memory [newline])
             = Done None m)
  /\ Heap.sc_parse_mountinfo no_calloc_failure fopen_blank_line None ∅
     = Some (None, ∅).
Proof.
  apply (blank_line_fails_the_table no_calloc_failure fopen_blank_line None ∅
           (Source [example_line; [newline]; example_line_shared] false)
           1 [newline]).
  - reflexivity.
  - reflexivity.
  - by repeat constructor.
Defined.

(** * Further properties of veritysetup.go *)

(** ** Lines of the output *)

Lemma raw_lines_snoc_newline data :
  raw_lines (data ++ [newline])
  = match last data with
    | None => [[]]
    | Some c => if Ascii.eqb c newline then raw_lines data ++ [[]]
                else raw_lines data
    end.
Proof.
  induction data as [|c data IH]; [done|].
  cbn [app raw_lines]. rewrite IH. clear IH.
  destruct data as [|d data].
  - cbn. by destruct (Ascii.eqb c newline).
  - rewrite last_cons_cons.
    destruct (last (d :: data)) as [x|] eqn:Hlast.
    2:{ by apply last_None in Hlast. }
    destruct (Ascii.eqb x newline); [|done].
    destruct (Ascii.eqb c newline); [done|].
    destruct (raw_lines (d :: data)) as [|l ls] eqn:E; [|done].
    exfalso. simpl in E. destruct (Ascii.eqb d newline); [done|].
    by destruct (raw_lines data).
Qed.

Lemma scan_tokens_app ls1 ls2 :
  scan_tokens (ls1 ++ ls2)
  = match scan_tokens ls1 with
    | (tokens1, None) =>
        let '(tokens2, err) := scan_tokens ls2 in (tokens1 ++ tokens2, err)
    | (tokens1, Some e) => (tokens1, Some e)
    end.
Proof.
  induction ls1 as [|l ls1 IH]; cbn [app scan_tokens].
  - by destruct (scan_tokens ls2).
  - destruct (N.of_nat (length l) <? MaxScanTokenSize)%N; [|done].
    rewrite IH. destruct (scan_tokens ls1) as [tokens1 [e|]]; [done|].
    by destruct (scan_tokens ls2).
Qed.

Lemma scan_loop_app tokens1 tokens2 :
  forall rootHash,
    scan_loop (tokens1 ++ tokens2) rootHash
    = match scan_loop tokens1 rootHash with
      | Returned r => scan_loop tokens2 r
      | Panic => Panic
      end.
Proof.
  induction tokens1 as [|line tokens1 IH]; intros rootHash;
    cbn [app scan_loop]; [done|].
  destruct (HasPrefix line Root_hash); [|apply IH].
  destruct (SplitN_2 line ":" !! 1); [apply IH|done].
Qed.

Lemma getRootHashFromOutput_lines output :
  getRootHashFromOutput output = root_hash_of_lines (raw_lines output).
Proof. done. Qed.

(** A line that does not begin with [Root hash] and fits the buffer of the
    scanner changes nothing. *)
Lemma root_hash_of_lines_skip ls1 l ls2 :
  (N.of_nat (length l) <? MaxScanTokenSize)%N = true ->
  HasPrefix (dropCR l) Root_hash = false ->
  root_hash_of_lines (ls1 ++ l :: ls2) = root_hash_of_lines (ls1 ++ ls2).
Proof.
  intros Hlen Hprefix. unfold root_hash_of_lines.
  rewrite !scan_tokens_app. cbn [scan_tokens]. rewrite Hlen.
  destruct (scan_tokens ls1) as [tokens1 [e|]]; [done|].
  destruct (scan_tokens ls2) as [tokens2 err].
  rewrite !scan_loop_app.
  destruct (scan_loop tokens1 []) as [r|]; [|done].
  cbn [scan_loop]. by rewrite Hprefix.
Qed.

(** X12: a newline after the last line of the output is optional, and an
    empty line at the end is ignored: for every output, appending a
    newline changes neither the root hash nor the error nor a panic. *)
Theorem final_newline_is_optional (output : list ascii) :
  getRootHashFromOutput (output ++ [newline]) = getRootHashFromOutput output.
Proof.
  rewrite !getRootHashFromOutput_lines, raw_lines_snoc_newline.
  destruct (last output) as [c|] eqn:Hlast.
  - destruct (Ascii.eqb c newline); [|done].
    rewrite <- (app_nil_r (raw_lines output)) at 2.
    by apply root_hash_of_lines_skip.
  - apply last_None in Hlast as ->. done.
Qed.

Lemma raw_lines_nonempty c s : raw_lines (c :: s) <> [].
Proof.
  cbn [raw_lines]. destruct (Ascii.eqb c newline); [done|].
  by destruct (raw_lines s).
Qed.

Lemma ends_line_cons c s :
  ends_line (c :: s) = true ->
  (s = [] /\ c = newline) \/ (s <> [] /\ ends_line s = true).
Proof.
  unfold ends_line. destruct s as [|d s].
  - cbn. intros ->%Ascii.eqb_eq. by left.
  - rewrite last_cons_cons. by right.
Qed.

Lemma raw_lines_app a b :
  ends_line a = true -> raw_lines (a ++ b) = raw_lines a ++ raw_lines b.
Proof.
  induction a as [|c a IH]; [done|]. intros Hend.
  cbn [app raw_lines].
  destruct (ends_line_cons _ _ Hend) as [[-> ->]|[Hne Ha]].
  - by rewrite Ascii.eqb_refl.
  - rewrite IH by done. destruct (Ascii.eqb c newline); [done|].
    destruct a as [|d a]; [done|].
    pose proof (raw_lines_nonempty d a).
    by destruct (raw_lines (d :: a)).
Qed.

Lemma raw_lines_line l b :
  one_line l = true -> raw_lines (l ++ newline :: b) = l :: raw_lines b.
Proof.
  induction l as [|c l IH]; cbn [app raw_lines one_line forallb].
  - by rewrite Ascii.eqb_refl.
  - intros [Hc Hl]%andb_true_iff. apply negb_true_iff in Hc.
    by rewrite Hc, IH.
Qed.

(** X13: lines that do not begin with [Root hash] are ignored, whatever
    they contain (the words Root hash further right included): removing
    such a line, when it fits the buffer of the scanner, from anywhere in
    the output changes nothing in the result. *)
Theorem other_lines_are_ignored (before line after : list ascii) :
  ends_line before = true -> one_line line = true ->
  (N.of_nat (length line) <? MaxScanTokenSize)%N = true ->
  HasPrefix (dropCR line) Root_hash = false ->
  getRootHashFromOutput (before ++ line ++ newline :: after)
  = getRootHashFromOutput (before ++ after).
Proof.
  intros Hbefore Hline Hlen Hprefix.
  rewrite !getRootHashFromOutput_lines.
  rewrite (raw_lines_app before after), (raw_lines_app before (line ++ _))
    by done.
  rewrite raw_lines_line by done.
  by apply root_hash_of_lines_skip.
Qed.

Lemma other_lines_are_ignored_witness :
  getRootHashFromOutput
    (str "Hash type: 1" ++ [newline] ++ str "Salt: Root hash" ++ newline ::
     str "Root hash: abc" ++ [newline])
  = getRootHashFromOutput
      (str "Hash type: 1" ++ [newline] ++ str "Root hash: abc" ++ [newline])
  /\ getRootHashFromOutput
       (str "Hash type: 1" ++ [newline] ++ str "Root hash: abc" ++ [newline])
     = Returned (str "abc", None).
Proof.
  split; [|vm_compute; reflexivity].
  apply (other_lines_are_ignored (str "Hash type: 1" ++ [newline])
           (str "Salt: Root hash") (str "Root hash: abc" ++ [newline]));
    reflexivity.
Defined.

Lemma dropCR_snoc l : dropCR (l ++ [carriage_return]) = l.
Proof.
  induction l as [|c l IH]; [done|].
  cbn [app dropCR]. rewrite IH. by destruct l.
Qed.

Lemma dropCR_id l :
  match last l with
  | Some c => negb (Ascii.eqb c carriage_return)
  | None => true
  end = true ->
  dropCR l = l.
Proof.
  induction l as [|c l IH]; [done|]. destruct l as [|d l].
  - cbn. by intros ->%negb_true_iff.
  - rewrite last_cons_cons. intros H.
    change (dropCR (c :: d :: l)) with (c :: dropCR (d :: l)).
    by rewrite IH.
Qed.

Lemma text_line_inv l :
  text_line l = true ->
  one_line l = true /\ dropCR l = l
  /\ (N.of_nat (length l) <? MaxScanTokenSize)%N = true
  /\ (N.of_nat (length (l ++ [carriage_return])) <? MaxScanTokenSize)%N = true.
Proof.
  unfold text_line. intros [[H1 H2]%andb_true_iff H3]%andb_true_iff.
  split; [done|]. split; [by apply dropCR_id|].
  apply N.ltb_lt in H3. rewrite length_app. cbn [length].
  split; apply N.ltb_lt; lia.
Qed.

Lemma raw_lines_lf lines :
  forallb text_line lines = true ->
  raw_lines (concat (map (fun l => l ++ [newline]) lines)) = lines.
Proof.
  induction lines as [|l lines IH]; [done|].
  cbn [forallb map concat]. intros [Hl Hls]%andb_true_iff.
  apply text_line_inv in Hl as (Hl & _).
  list_norm. by rewrite raw_lines_line, IH.
Qed.

Lemma one_line_snoc_cr l :
  one_line l = true -> one_line (l ++ [carriage_return]) = true.
Proof.
  unfold one_line. rewrite forallb_app. by intros ->.
Qed.

Lemma raw_lines_crlf lines :
  forallb text_line lines = true ->
  raw_lines (concat (map (fun l => l ++ [carriage_return; newline]) lines))
  = map (fun l => l ++ [carriage_return]) lines.
Proof.
  induction lines as [|l lines IH]; [done|].
  cbn [forallb map concat]. intros [Hl Hls]%andb_true_iff.
  apply text_line_inv in Hl as (Hl & _).
  change [carriage_return; newline] with ([carriage_return] ++ [newline]).
  rewrite (app_assoc l), <- (app_assoc (l ++ _)). cbn [app].
  rewrite raw_lines_line by (by apply one_line_snoc_cr). by rewrite IH.
Qed.

Lemma scan_tokens_text_lines lines :
  forallb text_line lines = true ->
  scan_tokens lines = (lines, None)
  /\ scan_tokens (map (fun l => l ++ [carriage_return]) lines) = (lines, None).
Proof.
  induction lines as [|l lines IH]; [done|].
  cbn [forallb map scan_tokens]. intros [Hl Hls]%andb_true_iff.
  apply text_line_inv in Hl as (_ & Hl & Hlen1 & Hlen2).
  destruct (IH Hls) as [-> ->]. by rewrite Hlen1, Hlen2, dropCR_snoc, Hl.
Qed.

(** X14: an output whose lines end in carriage return and newline gives
    the result of the same lines ended by newlines: the scanner drops the
    carriage return with the newline. *)
Theorem crlf_output_reads_like_lf (lines : list (list ascii)) :
  forallb text_line lines = true ->
  getRootHashFromOutput
    (concat (map (fun l => l ++ [carriage_return; newline]) lines))
  = getRootHashFromOutput (concat (map (fun l => l ++ [newline]) lines)).
Proof.
  intros H. rewrite !getRootHashFromOutput_lines.
  rewrite raw_lines_lf, raw_lines_crlf by done.
  unfold root_hash_of_lines.
  by destruct (scan_tokens_text_lines lines H) as [-> ->].
Qed.

Lemma crlf_output_reads_like_lf_witness :
  getRootHashFromOutput
    (concat (map (fun l => l ++ [carriage_return; newline])
               [str "Hash type: 1"; str "Root hash: abc"]))
  = getRootHashFromOutput
      (concat (map (fun l => l ++ [newline])
                 [str "Hash type: 1"; str "Root hash: abc"]))
  /\ getRootHashFromOutput
       (concat (map (fun l => l ++ [carriage_return; newline])
                  [str "Hash type: 1"; str "Root hash: abc"]))
     = Returned (str "abc", None).
Proof.
  split; [|vm_compute; reflexivity].
  apply (crlf_output_reads_like_lf [str "Hash type: 1"; str "Root hash: abc"]).
  reflexivity.
Defined.

(** ** The value of a line *)

Lemma HasPrefix_app prefix s : HasPrefix (prefix ++ s) prefix = true.
Proof.
  induction prefix as [|c prefix IH]; [by destruct s|].
  cbn [app HasPrefix]. by rewrite Ascii.eqb_refl, IH.
Qed.

Lemma cut_at_first sep a b :
  existsb (Ascii.eqb sep) a = false -> cut_at sep (a ++ sep :: b) = Some (a, b).
Proof.
  induction a as [|c a IH]; cbn [app cut_at existsb].
  - by rewrite Ascii.eqb_refl.
  - intros [Hc Ha]%orb_false_iff. rewrite Ascii.eqb_sym in Hc.
    by rewrite Hc, IH.
Qed.

(** X15: the value of a line that begins with [Root hash] is the text after
    the first colon of the line, trimmed: whatever stands between the
    words Root hash and that colon is skipped, and further colons belong
    to the value.  For an output of this one line the result is that
    value, or the error of the empty root hash when nothing is left of
    it. *)
Theorem value_follows_first_colon (label val : list ascii) :
  has_colon label = false ->
  text_line (Root_hash ++ label ++ ":"%char :: val) = true ->
  getRootHashFromOutput (Root_hash ++ label ++ ":"%char :: val ++ [newline])
  = Returned (if nonempty (TrimSpace val) then (TrimSpace val, None)
              else ([], Some ErrEmptyRootHash)).
Proof.
  intros Hlabel Hline.
  pose proof (raw_lines_lf [Root_hash ++ label ++ ":"%char :: val]) as Hraw.
  cbn [forallb map concat] in Hraw. rewrite Hline, app_nil_r in Hraw.
  specialize (Hraw eq_refl).
  rewrite getRootHashFromOutput_lines.
  replace (Root_hash ++ label ++ ":"%char :: val ++ [newline])
    with ((Root_hash ++ label ++ ":"%char :: val) ++ [newline])
    by (by list_norm).
  rewrite Hraw. unfold root_hash_of_lines. cbn [scan_tokens].
  apply text_line_inv in Hline as (_ & -> & -> & _).
  cbn [scan_loop]. rewrite HasPrefix_app. unfold SplitN_2.
  rewrite (app_assoc Root_hash label), cut_at_first.
  2:{ rewrite existsb_app. unfold has_colon in Hlabel. by rewrite Hlabel. }
  cbn [lookup list_lookup]. by destruct (TrimSpace val).
Qed.

Lemma value_follows_first_colon_witness :
  getRootHashFromOutput
    (Root_hash ++ str " (sha256)" ++ ":"%char :: str " ab:cd " ++ [newline])
  = Returned (if nonempty (TrimSpace (str " ab:cd "))
              then (TrimSpace (str " ab:cd "), None)
              else ([], Some ErrEmptyRootHash))
  /\ TrimSpace (str " ab:cd ") = str "ab:cd".
Proof.
  split; [|vm_compute; reflexivity].
  apply (value_follows_first_colon (str " (sha256)") (str " ab:cd "));
    reflexivity.
Defined.

(** ** Trimmed strings *)

Lemma asciiSpace_IsSpace c :
  asciiSpace c = true -> IsSpace (byte_val c) = true.
Proof.
  unfold asciiSpace, IsSpace.
  assert (0 <= byte_val c < 256)%Z as Hc.
  { unfold byte_val. pose proof (N_ascii_bounded c). lia. }
  destruct (byte_val c <=? 255)%Z eqn:E; [|lia].
  rewrite !orb_true_iff. intuition.
Qed.

Lemma asciiSpace_high c : (RuneSelf <= byte_val c)%Z -> asciiSpace c = false.
Proof.
  unfold asciiSpace, RuneSelf. intros H.
  repeat match goal with
         | |- context [(?a =? ?b)%Z] => destruct (Z.eqb_spec a b); [lia|]
         end.
  done.
Qed.

Lemma DecodeRuneInString_ascii c s :
  (byte_val c < RuneSelf)%Z -> DecodeRuneInString (c :: s) = (byte_val c, 1).
Proof.
  intros H. unfold DecodeRuneInString.
  by destruct (Z.ltb_spec (byte_val c) RuneSelf); [|lia].
Qed.

(** A rune that is no white space does not start with an ASCII white-space
    byte. *)
Lemma rune_head_not_space c s :
  IsSpace (fst (DecodeRuneInString (c :: s))) = false -> asciiSpace c = false.
Proof.
  intros H. destruct (Z.ltb_spec (byte_val c) RuneSelf) as [Hlt|Hge].
  - rewrite DecodeRuneInString_ascii in H by done. simpl in H.
    destruct (asciiSpace c) eqn:E; [|done].
    apply asciiSpace_IsSpace in E. congruence.
  - by apply asciiSpace_high.
Qed.

Lemma utf8_first_lo b sz lo hi :
  utf8_first b = Some (sz, lo, hi) -> (128 <= lo)%Z /\ 2 <= sz.
Proof.
  unfold utf8_first.
  repeat match goal with
         | |- context [if ?x then _ else _] => destruct x
         end; intros [= <- <- <-]; lia.
Qed.

Lemma utf8_cont_high b : utf8_cont b = true -> (128 <= b)%Z.
Proof. unfold utf8_cont. lia. Qed.

(** The width of a rune: at least one byte, no more than the string has,
    and after a first byte that is not ASCII its last byte is not ASCII
    either. *)
Lemma DecodeRuneInString_width c s :
  let size := snd (DecodeRuneInString (c :: s)) in
  1 <= size <= length (c :: s)
  /\ ((RuneSelf <= byte_val c)%Z ->
      exists b, (c :: s) !! (size - 1) = Some b /\ (RuneSelf <= byte_val b)%Z).
Proof.
  cbv zeta. unfold DecodeRuneInString.
  destruct (Z.ltb_spec (byte_val c) RuneSelf) as [Hlt|Hge].
  { cbn [snd length]. split; [lia|]. lia. }
  assert (exists b, (c :: s) !! (1 - 1) = Some b /\ (RuneSelf <= byte_val b)%Z)
    as Hone by (by exists c).
  destruct (utf8_first (byte_val c)) as [[[sz lo] hi]|] eqn:Hfirst.
  2:{ cbn [snd length]. split; [lia|done]. }
  apply utf8_first_lo in Hfirst as [Hlo Hsz].
  destruct (Nat.ltb_spec (length (c :: s)) sz) as [Hshort|Hlong].
  { cbn [snd length]. split; [lia|done]. }
  destruct s as [|c1 s1]; [cbn [snd length]; split; [lia|done]|].
  destruct ((byte_val c1 <? lo) || (hi <? byte_val c1))%Z eqn:E1.
  { cbn [snd length]. split; [lia|done]. }
  apply orb_false_iff in E1 as [E1 _]. apply Z.ltb_ge in E1.
  destruct (Nat.leb_spec sz 2).
  { cbn [snd length]. split; [lia|]. intros _. exists c1.
    split; [done|unfold RuneSelf; lia]. }
  destruct s1 as [|c2 s2]; [cbn [snd length]; split; [lia|done]|].
  destruct (utf8_cont (byte_val c2)) eqn:E2;
    [|cbn [snd length negb]; split; [lia|done]].
  cbn [negb]. apply utf8_cont_high in E2.
  destruct (Nat.leb_spec sz 3).
  { cbn [snd length]. split; [lia|]. intros _. exists c2.
    split; [done|unfold RuneSelf; lia]. }
  destruct s2 as [|c3 s3]; [cbn [snd length]; split; [lia|done]|].
  destruct (utf8_cont (byte_val c3)) eqn:E3;
    [|cbn [snd length negb]; split; [lia|done]].
  cbn [negb snd length]. apply utf8_cont_high in E3.
  split; [lia|]. intros _. exists c3. split; [done|unfold RuneSelf; lia].
Qed.

Lemma trim_ascii_inv s b s' :
  trim_ascii s = (b, s') ->
  (exists p, s = p ++ s')
  /\ match s' with
     | [] => b = false
     | c :: _ =>
         if b then (RuneSelf <= byte_val c)%Z else asciiSpace c = false
     end.
Proof.
  induction s as [|c s IH]; cbn [trim_ascii].
  - intros [= <- <-]. split; [by exists []|done].
  - destruct (Z.leb_spec RuneSelf (byte_val c)) as [Hge|Hlt].
    { intros [= <- <-]. split; [by exists []|done]. }
    destruct (asciiSpace c) eqn:Hsp.
    + intros H. destruct (IH H) as [[p ->] H']. split; [|done].
      by exists (c :: p).
    + intros [= <- <-]. split; [by exists []|done].
Qed.

Lemma TrimLeftSpace_inv fuel :
  forall s,
    length s <= fuel ->
    (exists n, TrimLeftSpace fuel s = drop n s)
    /\ match TrimLeftSpace fuel s with
       | [] => True
       | c :: _ => asciiSpace c = false
       end.
Proof.
  induction fuel as [|fuel IH]; intros s Hlen.
  - destruct s; [|simpl in Hlen; lia]. split; [by exists 0|done].
  - cbn [TrimLeftSpace]. destruct s as [|c s]; [split; [by exists 0|done]|].
    pose proof (DecodeRuneInString_width c s) as [Hsize _].
    pose proof (rune_head_not_space c s) as Hhead.
    destruct (DecodeRuneInString (c :: s)) as [r size].
    cbn [fst snd] in *.
    destruct (IsSpace r).
    + destruct (IH (drop size (c :: s))) as [[n Hn] Hfirst].
      { rewrite length_drop. simpl in *. lia. }
      split; [|done]. exists (size + n). by rewrite Hn, drop_drop.
    + split; [by exists 0|]. by apply Hhead.
Qed.

Lemma last_rune_start_inv rs :
  forall k n k',
    last_rune_start rs k n = Some k' -> k <= k' < k + length rs.
Proof.
  induction rs as [|c rs IH]; intros k n k'; destruct n as [|n];
    cbn [last_rune_start]; try done.
  destruct (RuneStart c).
  - intros [= <-]. simpl. lia.
  - intros H%IH. simpl. lia.
Qed.

(** The last rune of a string: its width, and its first byte when that is
    an ASCII byte. *)
Lemma DecodeLastRuneInString_inv t :
  t <> [] ->
  let '(r, size) := DecodeLastRuneInString t in
  1 <= size <= length t
  /\ exists c, t !! (length t - size) = Some c
               /\ ((byte_val c < RuneSelf)%Z -> r = byte_val c).
Proof.
  intros Ht. unfold DecodeLastRuneInString.
  destruct (rev t) as [|c rs] eqn:Hrev.
  { apply (f_equal (@rev ascii)) in Hrev. rewrite rev_involutive in Hrev. done. }
  assert (t = rev rs ++ [c]) as Ht'.
  { apply (f_equal (@rev ascii)) in Hrev. by rewrite rev_involutive in Hrev. }
  assert (length t = S (length rs)) as Hlen.
  { rewrite Ht', length_app, length_rev. simpl. lia. }
  assert (t !! (length t - 1) = Some c) as Hlast.
  { rewrite Ht', length_app, length_rev. simpl.
    rewrite lookup_app_r by (rewrite length_rev; lia).
    rewrite length_rev. by replace (_ - _) with 0 by lia. }
  destruct (Z.ltb_spec (byte_val c) RuneSelf) as [Hlt|Hge].
  { split; [lia|]. by exists c. }
  assert (1 <= 1 <= length t
          /\ exists c0, t !! (length t - 1) = Some c0
                        /\ ((byte_val c0 < RuneSelf)%Z
                            -> RuneError = byte_val c0)) as Hone.
  { split; [lia|]. exists c. split; [done|lia]. }
  destruct (last_rune_start rs 1 3) as [k|] eqn:Hk; [|done].
  apply last_rune_start_inv in Hk.
  destruct (drop (length t - S k) t) as [|c0 s0] eqn:Hdrop.
  { apply (f_equal length) in Hdrop. rewrite length_drop in Hdrop.
    simpl in Hdrop. lia. }
  assert (t !! (length t - S k) = Some c0) as Hc0.
  { rewrite <- (Nat.add_0_r (length t - S k)), <- lookup_drop.
    by rewrite Hdrop. }
  pose proof (DecodeRuneInString_ascii c0 s0) as Hascii.
  destruct (DecodeRuneInString (c0 :: s0)) as [r size].
  destruct (Nat.eqb_spec size (S k)) as [->|Hne]; [|done].
  split; [lia|]. exists c0. split; [done|].
  intros Hlt. specialize (Hascii Hlt). injection Hascii as _ Hsize. lia.
Qed.

Lemma lastIndexNotSpace_inv fuel s :
  forall i j,
    lastIndexNotSpace fuel s i = Some j -> i <= length s ->
    exists c, s !! j = Some c
              /\ ((byte_val c < RuneSelf)%Z -> asciiSpace c = false).
Proof.
  induction fuel as [|fuel IH]; intros i j; cbn [lastIndexNotSpace]; [done|].
  destruct (Nat.eqb_spec i 0) as [->|Hi]; [done|].
  intros H Hle.
  assert (take i s <> []) as Hne.
  { intros E. apply (f_equal length) in E. rewrite length_take in E.
    simpl in E. lia. }
  pose proof (DecodeLastRuneInString_inv (take i s) Hne) as Hlast.
  destruct (DecodeLastRuneInString (take i s)) as [r size].
  rewrite length_take, Nat.min_l in Hlast by done.
  destruct Hlast as (Hsize & c & Hc & Hr).
  destruct (IsSpace r) eqn:Hsp; cbn [negb] in H.
  - apply IH in H; [done|lia].
  - injection H as <-. exists c. split.
    + rewrite lookup_take_lt in Hc by lia. done.
    + intros Hlt. rewrite (Hr Hlt) in Hsp.
      destruct (asciiSpace c) eqn:E; [|done].
      apply asciiSpace_IsSpace in E. congruence.
Qed.

Lemma last_take (s : list ascii) n :
  0 < n <= length s -> last (take n s) = s !! (n - 1).
Proof.
  intros Hn. rewrite last_lookup, length_take, Nat.min_l by lia.
  rewrite lookup_take_lt by lia. by replace (pred n) with (n - 1) by lia.
Qed.

Lemma TrimRightSpace_inv s :
  (exists n, TrimRightSpace s = take n s)
  /\ forall c, last (TrimRightSpace s) = Some c -> asciiSpace c = false.
Proof.
  unfold TrimRightSpace.
  destruct (lastIndexNotSpace (length s) s (length s)) as [j|] eqn:Hj.
  2:{ split; [by exists 0|done]. }
  apply lastIndexNotSpace_inv in Hj as (c0 & Hc0 & Hascii); [|done].
  rewrite Hc0. pose proof (lookup_lt_Some _ _ _ Hc0) as Hjlen.
  destruct (Z.leb_spec RuneSelf (byte_val c0)) as [Hge|Hlt].
  - split; [by eexists|]. intros c.
    destruct (drop j s) as [|c1 s1] eqn:Hdrop.
    { apply (f_equal length) in Hdrop. rewrite length_drop in Hdrop.
      simpl in Hdrop. lia. }
    assert (c1 = c0) as ->.
    { pose proof (lookup_drop s j 0) as H. rewrite Hdrop, Nat.add_0_r in H.
      simpl in H. congruence. }
    pose proof (DecodeRuneInString_width c0 s1) as [Hsize Hb].
    destruct (Hb Hge) as (b & Hb1 & Hb2).
    assert (length (c0 :: s1) = length s - j) as Hlen
      by (by rewrite <- Hdrop, length_drop).
    rewrite last_take by lia.
    replace (j + snd (DecodeRuneInString (c0 :: s1)) - 1)
      with (j + (snd (DecodeRuneInString (c0 :: s1)) - 1)) by lia.
    rewrite <- lookup_drop, Hdrop, Hb1. intros [= <-].
    by apply asciiSpace_high.
  - split; [by eexists|]. intros c. rewrite last_take by lia.
    replace (j + 1 - 1) with j by lia. rewrite Hc0. intros [= <-]. auto.
Qed.

Lemma head_take_Some (s : list ascii) n c :
  head (take n s) = Some c -> head s = Some c.
Proof. destruct n, s; done. Qed.

Lemma last_rev_head (s : list ascii) : last (rev s) = head s.
Proof.
  destruct s as [|c s]; [done|]. cbn [rev head]. apply last_snoc.
Qed.

(** [strings.TrimSpace] returns a part of its argument that neither begins
    nor ends with an ASCII white-space byte. *)
Lemma TrimSpace_inv s :
  (exists p q, s = p ++ TrimSpace s ++ q)
  /\ (forall c, head (TrimSpace s) = Some c -> asciiSpace c = false)
  /\ (forall c, last (TrimSpace s) = Some c -> asciiSpace c = false).
Proof.
  unfold TrimSpace.
  destruct (trim_ascii s) as [b s1] eqn:E1.
  apply trim_ascii_inv in E1 as [[p ->] Hs1].
  destruct b.
  - destruct (TrimLeftSpace_inv (length s1) s1) as [[n Hn] Hhead]; [done|].
    set (x := TrimLeftSpace (length s1) s1) in *.
    destruct (TrimRightSpace_inv x) as [[k Hk] Hlast].
    split; [|split; [|done]].
    + exists (p ++ take n s1), (drop k x).
      rewrite Hk, take_drop, Hn, <- app_assoc. by rewrite take_drop.
    + intros c Hc. rewrite Hk in Hc. apply head_take_Some in Hc.
      by destruct x as [|c' x']; [|injection Hc as ->].
  - destruct (trim_ascii (rev s1)) as [b2 r2] eqn:E2.
    apply trim_ascii_inv in E2 as [[p2 Hp2] Hr2].
    assert (s1 = rev r2 ++ rev p2) as Hs1'.
    { rewrite <- rev_app_distr, <- Hp2. by rewrite rev_involutive. }
    assert (forall c, head (rev r2) = Some c -> asciiSpace c = false) as Hhead.
    { intros c Hc. destruct (rev r2) as [|c' x]; [done|]. injection Hc as ->.
      rewrite Hs1' in Hs1. done. }
    destruct b2.
    + destruct (TrimRightSpace_inv (rev r2)) as [[k Hk] Hlast].
      split; [|split; [|done]].
      * exists p, (drop k (rev r2) ++ rev p2).
        rewrite Hk, Hs1'. rewrite (app_assoc (take _ _)). by rewrite take_drop.
      * intros c Hc. rewrite Hk in Hc. apply head_take_Some in Hc. auto.
    + split; [|split; [done|]].
      * exists p, (rev p2). by rewrite Hs1'.
      * intros c. rewrite last_rev_head. intros Hc.
        by destruct r2 as [|c' x]; [|injection Hc as ->].
Qed.

(** ** The value of the root hash *)

Lemma cut_at_app sep s a b :
  cut_at sep s = Some (a, b) -> s = a ++ sep :: b.
Proof.
  revert a. induction s as [|c s IH]; intros a; cbn [cut_at]; [done|].
  destruct (Ascii.eqb_spec c sep) as [->|Hne].
  - by intros [= <- <-].
  - destruct (cut_at sep s) as [[a' b']|]; [|done].
    intros [= <- <-]. cbn [app]. f_equal. by apply IH.
Qed.

(** What the loop leaves in [rootHash]: its value before the loop, or the
    trimmed text after the first colon of one of the lines. *)
Lemma scan_loop_inv tokens :
  forall rootHash r,
    scan_loop tokens rootHash = Returned r ->
    r = rootHash
    \/ exists line before val,
         In line tokens /\ line = before ++ ":"%char :: val
         /\ r = TrimSpace val.
Proof.
  induction tokens as [|line tokens IH]; intros rootHash r;
    cbn [scan_loop].
  - intros [= <-]. by left.
  - assert (forall r0, scan_loop tokens r0 = Returned r ->
              (r = r0 \/ exists l before val,
                  In l (line :: tokens) /\ l = before ++ ":"%char :: val
                  /\ r = TrimSpace val)) as IH'.
    { intros r0 H. apply IH in H as [->|(l & a & b & Hl & H)]; [by left|].
      right. exists l, a, b. split; [by right|done]. }
    destruct (HasPrefix line Root_hash); [|apply IH'].
    unfold SplitN_2. destruct (cut_at ":" line) as [[a b]|] eqn:Hcut; [|done].
    cbn. intros H. apply IH' in H as [->|H]; [|by right].
    right. exists line, a, b. split; [by left|].
    split; [by apply cut_at_app|done].
Qed.

Lemma raw_lines_one_line data : Forall (fun l => ~ In newline l) (raw_lines data).
Proof.
  induction data as [|c data IH]; cbn [raw_lines]; [constructor|].
  destruct (Ascii.eqb_spec c newline) as [->|Hne].
  - constructor; [by intros []|done].
  - destruct (raw_lines data) as [|l ls].
    + constructor; [|done]. intros [->|[]]. done.
    + apply Forall_cons in IH as [Hl Hls]. constructor; [|done].
      intros [->|H]; done.
Qed.

Lemma dropCR_incl l c : In c (dropCR l) -> In c l.
Proof.
  induction l as [|x l IH]; [done|]. destruct l as [|y l].
  - cbn. by destruct (Ascii.eqb x carriage_return).
  - change (dropCR (x :: y :: l)) with (x :: dropCR (y :: l)).
    intros [->|H]; [by left|right; by apply IH].
Qed.

Lemma scan_tokens_one_line lines :
  Forall (fun l => ~ In newline l) lines ->
  Forall (fun l => ~ In newline l) (fst (scan_tokens lines)).
Proof.
  induction 1 as [|l lines Hl Hls IH]; cbn [scan_tokens]; [constructor|].
  destruct (N.of_nat (length l) <? MaxScanTokenSize)%N; [|constructor].
  destruct (scan_tokens lines) as [tokens err]. cbn [fst] in *.
  constructor; [|done]. intros H. by apply dropCR_incl in H.
Qed.

(** X16: a root hash that [getRootHashFromOutput] returns without error
    is not empty, contains no newline, and neither begins nor ends with
    an ASCII white-space byte (space, tab, newline, vertical tab, form
    feed, carriage return). *)
Theorem root_hash_is_trimmed (output rootHash : list ascii) :
  getRootHashFromOutput output = Returned (rootHash, None) ->
  rootHash <> []
  /\ ~ In newline rootHash
  /\ (forall c, head rootHash = Some c -> asciiSpace c = false)
  /\ (forall c, last rootHash = Some c -> asciiSpace c = false).
Proof.
  unfold getRootHashFromOutput.
  pose proof (scan_tokens_one_line _ (raw_lines_one_line output)) as Hlines.
  destruct (scan_tokens (raw_lines output)) as [tokens err]. cbn [fst] in *.
  destruct (scan_loop tokens []) as [r|] eqn:Hloop; [|done].
  destruct err as [e|]; [done|].
  destruct (Nat.eqb_spec (length r) 0) as [Hnil|Hne]; [done|].
  intros [= <-]. split; [by intros ->|].
  apply scan_loop_inv in Hloop as [->|(line & a & val & Hline & -> & ->)];
    [done|].
  destruct (TrimSpace_inv val) as [(p & q & Hval) Hends].
  split; [|done].
  rewrite Forall_forall in Hlines. intros Hin.
  apply (Hlines _ (proj2 (list_elem_of_In _ _) Hline)).
  rewrite Hval. apply in_or_app. right. right.
  apply in_or_app. right. apply in_or_app. by left.
Qed.

Lemma root_hash_is_trimmed_witness :
  getRootHashFromOutput output_veritysetup
  = Returned (str "e2926364a8b1242d92fb1b56081e1ddb86eba35411961252a103a1c083c2be6d", None)
  /\ ~ In newline (str "e2926364a8b1242d92fb1b56081e1ddb86eba35411961252a103a1c083c2be6d").
Proof.
  split; [vm_compute; reflexivity|].
  apply (root_hash_is_trimmed output_veritysetup). vm_compute. reflexivity.
Defined.
